(** * SmartShield backend: model bridge, cache store, configuration and labels

    A shallow embedding of the parts of the backend that decide how a
    remote-model analysis is obtained:

    - [backend/dist/config/redis.js]   the [cache], [session] and [rateLimit]
                                       helpers over the Redis client;
    - [backend/src/config/config.ts]   [validateConfig], [getModelConfig];
    - [services/modelBridge.js]        providers, parsing, fallback;
    - [backend/dist/routes/health.js]  [checkModelHealth];
    - [config/logger.js]               [sanitizeLogData], and the calls of
                                       the logger it makes throw;
    - [services/phishingDetection]     labels and edit distance, of which the
                                       repository has the declarations only.

    JavaScript values are kept untyped, as the code receives them; a call
    that can throw is a computation in a state-and-exception monad over
    the world the service talks to (Redis, the HTTP endpoints, the logger). *)

From Stdlib Require Import QArith ZArith Lia Ascii String.
From stdpp Require Import base option list strings gmap pretty.

Set Warnings "-register-all".

Local Open Scope Z_scope.
Local Open Scope string_scope.

(** ** JavaScript values *)

Module JS.

(** An IEEE double, as far as the code can tell doubles apart: the code only
    compares them, and comparison of finite doubles is comparison of the
    rationals they denote. *)
Inductive number : Type :=
| NaN
| NegInf
| Fin (q : Q)
| PosInf.

Inductive value : Type :=
| VUndef
| VNull
| VBool (b : bool)
| VNum (n : number)
| VStr (s : string)
| VArr (items : list value)
| VObj (fields : list (string * value)).

(** A thrown error. [Err] is an [Error] of the language or of a library
    (a [TypeError], a [SyntaxError], a [RangeError], an error of the Redis
    client): its own enumerable properties, if it has any, are primitives.
    [AxiosError] is the error [axios] rejects a request with once the
    request was made: it carries the request object, and the response if
    one came, and these refer to themselves through the socket. The code
    reads the [message] of an error; the logger walks its properties. *)
Inductive Error : Type :=
| Err (message : string)
| AxiosError (message : string).

Definition message (e : Error) : string :=
  match e with Err m | AxiosError m => m end.

(** The own enumerable properties of the error hold a cycle. *)
Definition circular (e : Error) : bool :=
  match e with AxiosError _ => true | Err _ => false end.

Inductive Completion (A : Type) : Type :=
| Normal (a : A)
| Throw (e : Error).
Arguments Normal {A} a.
Arguments Throw {A} e.

Definition TypeError (msg : string) : Error := Err msg.

(** Sequencing of steps that may throw and touch nothing else. *)
Definition and_then {A B} (c : Completion A) (k : A -> Completion B) : Completion B :=
  match c with
  | Normal a => k a
  | Throw e => Throw e
  end.

Notation "x <~ c ;; k" := (and_then c (fun x => k))
  (at level 100, c at next level, right associativity).

(** [a < b], [a >= b] on doubles: every comparison with [NaN] is false. *)
Definition lt (a b : number) : bool :=
  match a, b with
  | NaN, _ | _, NaN => false
  | NegInf, NegInf => false
  | NegInf, _ => true
  | _, NegInf => false
  | PosInf, _ => false
  | Fin _, PosInf => true
  | Fin x, Fin y => negb (Qle_bool y x)
  end.

Definition ge (a b : number) : bool :=
  match a, b with
  | NaN, _ | _, NaN => false
  | _, NegInf => true
  | NegInf, _ => false
  | PosInf, _ => true
  | Fin _, PosInf => false
  | Fin x, Fin y => Qle_bool y x
  end.

Definition is_nan (a : number) : bool :=
  match a with NaN => true | _ => false end.

(** [Math.min(a, b)] and [Math.max(a, b)] on numbers. *)
Definition Math_min (a b : number) : number :=
  if is_nan a || is_nan b then NaN else if lt b a then b else a.

Definition Math_max (a b : number) : number :=
  if is_nan a || is_nan b then NaN else if lt a b then b else a.

Definition string_nonempty (s : string) : bool :=
  match s with EmptyString => false | String _ _ => true end.

Definition is_zero (n : number) : bool :=
  match n with Fin q => Qeq_bool q 0 | _ => false end.

(** ToBoolean. *)
Definition truthy (v : value) : bool :=
  match v with
  | VUndef | VNull => false
  | VBool b => b
  | VNum n => negb (is_nan n || is_zero n)
  | VStr s => string_nonempty s
  | VArr _ | VObj _ => true
  end.

(** [a || b]. *)
Definition or_else (a b : value) : value := if truthy a then a else b.

Fixpoint assoc (k : string) (fields : list (string * value)) : option value :=
  match fields with
  | [] => None
  | (k', v) :: rest => if String.eqb k k' then Some v else assoc k rest
  end.

Definition has_key (k : string) (fields : list (string * value)) : bool :=
  match assoc k fields with Some _ => true | None => false end.

(** [v.name] for a property name that no prototype defines ([candidates],
    [content], [score], ...): the own property of an object, [undefined] on
    arrays and primitives, a [TypeError] on [null] and [undefined]. *)
Definition get (v : value) (name : string) : Completion value :=
  match v with
  | VUndef | VNull => Throw (TypeError "Cannot read properties of undefined")
  | VObj fields => Normal (default VUndef (assoc name fields))
  | _ => Normal VUndef
  end.

(** [v?.name]. *)
Definition get_opt (v : value) (name : string) : value :=
  match v with
  | VObj fields => default VUndef (assoc name fields)
  | _ => VUndef
  end.

(** [v?.[0]]: the first element of an array, the first character of a
    string, the property ["0"] of an object. *)
Definition first_opt (v : value) : value :=
  match v with
  | VArr (x :: _) => x
  | VStr (String c _) => VStr (String c EmptyString)
  | VObj fields => default VUndef (assoc "0" fields)
  | _ => VUndef
  end.

Definition isArray (v : value) : bool :=
  match v with VArr _ => true | _ => false end.

(** What [JSON.parse (JSON.stringify v)] gives back: a property whose value
    is [undefined] is dropped, [undefined] inside an array and every number
    that is not finite become [null]. [None] is [JSON.stringify] returning
    [undefined], which is no string to store. *)
Fixpoint json_image (v : value) : option value :=
  match v with
  | VUndef => None
  | VNull => Some VNull
  | VBool b => Some (VBool b)
  | VNum (Fin q) => Some (VNum (Fin q))
  | VNum _ => Some VNull
  | VStr s => Some (VStr s)
  | VArr items => Some (VArr (map (fun x => default VNull (json_image x)) items))
  | VObj fields =>
      Some (VObj ((fix props (l : list (string * value)) : list (string * value) :=
                     match l with
                     | [] => []
                     | (k, x) :: rest =>
                         match json_image x with
                         | Some y => (k, y) :: props rest
                         | None => props rest
                         end
                     end) fields))
  end.

(** ** The regular expression [/\{[\s\S]*\}/]

    Leftmost and greedy: the match runs from the first ["{"] of the text to
    its last ["}"], when that one comes later. *)
Fixpoint drop_to_open (s : string) : option string :=
  match s with
  | EmptyString => None
  | String c rest => if Ascii.eqb c "{"%char then Some s else drop_to_open rest
  end.

(** The longest prefix of [s] that ends in ["}"]. *)
Fixpoint upto_last_close (s : string) : option string :=
  match s with
  | EmptyString => None
  | String c rest =>
      match upto_last_close rest with
      | Some m => Some (String c m)
      | None => if Ascii.eqb c "}"%char then Some (String c EmptyString) else None
      end
  end.

Definition match_braces (s : string) : option string :=
  match drop_to_open s with
  | Some t => upto_last_close t
  | None => None
  end.

(** [s.startsWith(needle)]. *)
Fixpoint startsWith (needle s : string) : bool :=
  match needle, s with
  | EmptyString, _ => true
  | String a needle', String b s' => Ascii.eqb a b && startsWith needle' s'
  | String _ _, EmptyString => false
  end.

(** [s.includes(needle)]. *)
Fixpoint includes (needle s : string) : bool :=
  startsWith needle s ||
  match s with
  | EmptyString => false
  | String _ rest => includes needle rest
  end.

End JS.
Export JS.

(** ** Built-ins of the host

    The JavaScript built-ins the code calls, whose definitions are the
    language's and not the repository's. Every statement below holds for
    each host. *)
Class Host : Type := {
  (** [JSON.parse]; [None] is a [SyntaxError]. *)
  JSON_parse : string -> option value;
  (** ToNumber on a string. *)
  StringToNumber : string -> number;
  (** [Array.prototype.toString]; [None] is the [TypeError] of an element
      that does not convert to a string. *)
  Array_toString : list value -> option string;
  (** [String.prototype.trim]. *)
  String_trim : string -> string;
  (** [crypto.createHash('sha256').update(text).digest('hex')]. *)
  sha256_hex : string -> string;
  (** [parseFloat]. *)
  parseFloat : string -> number;
}.

(** ** The world outside the process *)

(** A string held by Redis: one that [JSON.stringify] wrote (it parses back
    to [v]), or any other text. *)
Inductive redis_string : Type :=
| JsonText (v : value)
| PlainText (s : string).

(** The client of [redis.js]: [isOpen] is the client's flag, [online] tells
    whether a command sent now is answered, [store] maps a key to its string
    and the second at which it expires. *)
Record RedisClient : Type := {
  isOpen : bool;
  online : bool;
  store : gmap string (redis_string * Z);
}.

Inductive HttpReply : Type :=
| Response (status : Z) (data : value)
| TimedOut
| NetworkError (msg : string).

Inductive LogLevel : Type := LDebug | LInfo | LWarn | LError.

Record LogEntry : Type := {
  level : LogLevel;
  text : string;
  detail : option string;
}.

Record AnalysisRequest : Type := {
  req_text : string;
  req_url : option string;
}.

Record ChatRequest : Type := {
  context : string;
  question : string;
}.

Inductive Request : Type :=
| Analysis (r : AnalysisRequest)
| Chat (r : ChatRequest).

(** The slot of the bridge a provider method is called through. *)
Inductive Slot : Type := PrimarySlot | FallbackSlot.

Record Call : Type := {
  call_slot : Slot;
  call_inst : nat;
  call_req : Request;
}.

(** [redisClient] is the module variable of [redis.js]; [now] is the clock
    in seconds; [replies] are the answers the HTTP endpoints will give, in
    the order of the requests. [log], [posts] (the URLs posted to) and
    [calls] (the provider methods the bridge entered) only record what
    happened, most recent first. *)
Record World : Type := {
  redisClient : option RedisClient;
  now : Z;
  replies : list HttpReply;
  log : list LogEntry;
  posts : list string;
  calls : list Call;
}.

Definition set_redis (c : option RedisClient) (w : World) : World :=
  {| redisClient := c; now := now w; replies := replies w;
     log := log w; posts := posts w; calls := calls w |}.

Definition set_replies (r : list HttpReply) (w : World) : World :=
  {| redisClient := redisClient w; now := now w; replies := r;
     log := log w; posts := posts w; calls := calls w |}.

Definition add_log (e : LogEntry) (w : World) : World :=
  {| redisClient := redisClient w; now := now w; replies := replies w;
     log := e :: log w; posts := posts w; calls := calls w |}.

Definition add_post (url : string) (w : World) : World :=
  {| redisClient := redisClient w; now := now w; replies := replies w;
     log := log w; posts := url :: posts w; calls := calls w |}.

Definition add_call (c : Call) (w : World) : World :=
  {| redisClient := redisClient w; now := now w; replies := replies w;
     log := log w; posts := posts w; calls := c :: calls w |}.

(** [dt] seconds pass. *)
Definition elapse (dt : Z) (w : World) : World :=
  {| redisClient := redisClient w; now := (now w + dt)%Z; replies := replies w;
     log := log w; posts := posts w; calls := calls w |}.

(** ** Computations: state and exceptions *)

Definition M (A : Type) : Type := World -> Completion A * World.

Definition ret {A} (a : A) : M A := fun w => (Normal a, w).

Definition throw {A} (e : Error) : M A := fun w => (Throw e, w).

Definition bind {A B} (m : M A) (k : A -> M B) : M B :=
  fun w =>
    match m w with
    | (Normal a, w') => k a w'
    | (Throw e, w') => (Throw e, w')
    end.

(** [try { m } catch (error) { h error }]. *)
Definition try_catch {A} (m : M A) (h : Error -> M A) : M A :=
  fun w =>
    match m w with
    | (Normal a, w') => (Normal a, w')
    | (Throw e, w') => h e w'
    end.

Definition lift {A} (c : Completion A) : M A := fun w => (c, w).

Notation "x <- m ;; k" := (bind m (fun x => k))
  (at level 100, m at next level, right associativity).
Notation "m ;;; k" := (bind m (fun _ => k))
  (at level 100, right associativity).

(** The [RangeError] of a recursion that exhausts the stack. *)
Definition stack_exhausted : Error := Err "Maximum call stack size exceeded".

(** [logger.debug], [logger.info], [logger.warn], [logger.error], called
    with a message and, at most, an error. The logger copies the own
    enumerable properties of the error into the entry, and the format of
    [logger.js] runs [sanitizeLogData] over the entry before it prints it.
    [sanitizeLogData] follows every property that is an object and keeps
    no track of where it has been: on the request of an [AxiosError] it
    recurses until the stack is exhausted, so that the call of the logger
    throws that [RangeError] and writes no line. Every other call writes
    its line, with the message of the error passed along. *)
Definition logger (lvl : LogLevel) (msg : string) (err : option Error) : M unit :=
  fun w =>
    if from_option circular false err then (Throw stack_exhausted, w)
    else (Normal tt,
          add_log {| level := lvl; text := msg; detail := message <$> err |} w).

(** ** [config/redis.js] *)

Definition not_connected : Error :=
  Err "Redis not connected. Call connectRedis() first.".

(** [getRedisClient()]. *)
Definition getRedisClient : M RedisClient :=
  fun w =>
    match redisClient w with
    | Some c => if isOpen c then (Normal c, w) else (Throw not_connected, w)
    | None => (Throw not_connected, w)
    end.

Definition live (t : Z) (e : redis_string * Z) : bool := (t <? snd e)%Z.

(** [client.get(key)]: the string under a key that has not expired. *)
Definition client_get (c : RedisClient) (key : string) : M (option redis_string) :=
  fun w =>
    if online c then
      match store c !! key with
      | Some e => if live (now w) e then (Normal (Some (fst e)), w) else (Normal None, w)
      | None => (Normal None, w)
      end
    else (Throw (Err "The client is closed"), w).

(** [client.setEx(key, ttl, text)]; Redis refuses an expiry that is not
    positive. *)
Definition client_setEx (c : RedisClient) (key : string) (ttl : Z)
    (text : redis_string) : M unit :=
  fun w =>
    if online c then
      if (0 <? ttl)%Z then
        (Normal tt,
         set_redis (Some {| isOpen := isOpen c; online := online c;
                            store := <[key := (text, (now w + ttl)%Z)]> (store c) |}) w)
      else (Throw (Err "ERR invalid expire time in 'setex' command"), w)
    else (Throw (Err "The client is closed"), w).

(** [client.del(key)]. *)
Definition client_del (c : RedisClient) (key : string) : M unit :=
  fun w =>
    if online c then
      (Normal tt,
       set_redis (Some {| isOpen := isOpen c; online := online c;
                          store := delete key (store c) |}) w)
    else (Throw (Err "The client is closed"), w).

Section Redis.
Context `{Host}.

(** [value ? JSON.parse(value) : null]. *)
Definition parse_stored (stored : option redis_string) : M value :=
  match stored with
  | None => ret VNull
  | Some (JsonText v) => ret v
  | Some (PlainText s) =>
      if string_nonempty s then
        match JSON_parse s with
        | Some v => ret v
        | None => throw (Err "Unexpected token in JSON")
        end
      else ret VNull
  end.

(** [JSON.stringify(value)], handed to the client. *)
Definition stringify (v : value) : M redis_string :=
  match json_image v with
  | Some j => ret (JsonText j)
  | None => throw (TypeError "Invalid argument type")
  end.

(** The body of the [try] of [cache.get]. *)
Definition redis_get (key : string) : M value :=
  client <- getRedisClient ;;
  stored <- client_get client key ;;
  parse_stored stored.

(** [cache.get(key)]. *)
Definition cache_get (key : string) : M value :=
  try_catch
    (redis_get key)
    (fun error =>
       logger LError "Cache get error:" (Some error) ;;;
       ret VNull).

(** The body of the [try] of [cache.set]. *)
Definition redis_set (key : string) (v : value) (ttlSeconds : Z) : M unit :=
  client <- getRedisClient ;;
  text <- stringify v ;;
  client_setEx client key ttlSeconds text.

(** [cache.set(key, value, ttlSeconds)]; no caller relies on the default
    of [ttlSeconds]. *)
Definition cache_set (key : string) (v : value) (ttlSeconds : Z) : M unit :=
  try_catch
    (redis_set key v ttlSeconds)
    (fun error =>
       logger LError "Cache set error:" (Some error)).

(** The body of the [try] of [cache.delete]. *)
Definition redis_del (key : string) : M unit :=
  client <- getRedisClient ;;
  client_del client key.

(** [cache.delete(key)]. *)
Definition cache_delete (key : string) : M unit :=
  try_catch
    (redis_del key)
    (fun error =>
       logger LError "Cache delete error:" (Some error)).

(** [cache.generateKey(prefix, hash, model)]. *)
Definition generateKey (prefix hash model : string) : string :=
  prefix +:+ ":" +:+ hash +:+ ":" +:+ model.

End Redis.

(** ** [config/config.ts] *)

Module ConfigTs.

Inductive ModelProviderName : Type := gemini | openai | local.

Definition provider_name (n : ModelProviderName) : string :=
  match n with gemini => "gemini" | openai => "openai" | local => "local" end.

Record Config : Type := {
  modelProvider : ModelProviderName;
  modelName : string;
  geminiApiKey : option string;
  openaiApiKey : option string;
  lowThreshold : number;
  highThreshold : number;
  reportThreshold : number;
}.

(** [process.env]. *)
Abbreviation Env := (gmap string string).

(** [!!process.env[key]]. *)
Definition env_set (env : Env) (key : string) : bool :=
  match env !! key with Some s => string_nonempty s | None => false end.

(** [process.env[key] || fallback]. *)
Definition env_or (env : Env) (key fallback : string) : string :=
  match env !! key with
  | Some s => if string_nonempty s then s else fallback
  | None => fallback
  end.

Definition known_provider (s : string) : bool :=
  String.eqb s "gemini" || String.eqb s "openai" || String.eqb s "local".

(** The test the thresholds are refused on. *)
Definition thresholds_refused (low high report : number) : bool :=
  ge low high || ge high report.

Section Validation.
Context `{Host}.

(** [validateConfig()]. *)
Definition validateConfig (env : Env) : Completion unit :=
  let required :=
    (["JWT_SECRET"; "DATABASE_URL"] ++
     (if from_option (includes "supabase.co") false (env !! "DATABASE_URL")
      then ["SUPABASE_URL"; "SUPABASE_ANON_KEY"; "SUPABASE_SERVICE_KEY"]
      else []))%list in
  let missing := List.filter (fun key => negb (env_set env key)) required in
  if (0 <? length missing)%nat then
    Throw (Err ("Missing required environment variables: " +:+ String.concat ", " missing))
  else
    let bad_provider :=
      match env !! "MODEL_PROVIDER" with
      | Some s => string_nonempty s && negb (known_provider s)
      | None => false
      end in
    if bad_provider then
      Throw (Err ("Invalid MODEL_PROVIDER: " +:+ default EmptyString (env !! "MODEL_PROVIDER")
                  +:+ ". Must be one of: gemini, openai, local"))
    else
      let lowThreshold := parseFloat (env_or env "LOW_THRESHOLD" "0.3") in
      let highThreshold := parseFloat (env_or env "HIGH_THRESHOLD" "0.7") in
      let reportThreshold := parseFloat (env_or env "REPORT_THRESHOLD" "0.8") in
      if thresholds_refused lowThreshold highThreshold reportThreshold then
        Throw (Err "Invalid thresholds: LOW_THRESHOLD < HIGH_THRESHOLD < REPORT_THRESHOLD")
      else Normal tt.

(** [process.env.MODEL_PROVIDER || 'gemini'], read after validation. *)
Definition read_provider (env : Env) : ModelProviderName :=
  let s := env_or env "MODEL_PROVIDER" "gemini" in
  if String.eqb s "openai" then openai
  else if String.eqb s "local" then local
  else gemini.

(** The [config] constant: [None] is [process.exit(1)]. *)
Definition loadConfig (env : Env) : option Config :=
  match validateConfig env with
  | Throw _ => None
  | Normal _ =>
      Some {| modelProvider := read_provider env;
              modelName := env_or env "MODEL_NAME" "gemini-free";
              geminiApiKey := env !! "GEMINI_API_KEY";
              openaiApiKey := env !! "OPENAI_API_KEY";
              lowThreshold := parseFloat (env_or env "LOW_THRESHOLD" "0.3");
              highThreshold := parseFloat (env_or env "HIGH_THRESHOLD" "0.7");
              reportThreshold := parseFloat (env_or env "REPORT_THRESHOLD" "0.8") |}
  end.

End Validation.

Record ModelConfig : Type := {
  mc_provider : ModelProviderName;
  mc_apiKey : option string;
  mc_modelName : string;
}.

(** [getModelConfig()]. *)
Definition getModelConfig (config : Config) : ModelConfig :=
  match modelProvider config with
  | gemini => {| mc_provider := gemini; mc_apiKey := geminiApiKey config;
                 mc_modelName := modelName config |}
  | openai => {| mc_provider := openai; mc_apiKey := openaiApiKey config;
                 mc_modelName := modelName config |}
  | local => {| mc_provider := local; mc_apiKey := None;
                mc_modelName := modelName config |}
  end.

(** [getThresholds()]. *)
Definition getThresholds (config : Config) : number * number * number :=
  (lowThreshold config, highThreshold config, reportThreshold config).

End ConfigTs.
Import ConfigTs.

(** ** [services/modelBridge.js] *)

Inductive ProviderClass : Type := GeminiProvider | OpenAIProvider | LocalProvider.

(** An instance of a subclass of [ModelProvider]. *)
Record ModelProvider : Type := {
  class : ProviderClass;
  apiKey : option string;
  modelName : string;
  provider : string;
}.

Definition num (q : Q) : value := VNum (Fin q).

(** The URL of the request; [undefined] prints as such in a template. *)
Definition Gemini_url (p : ModelProvider) : string :=
  "https://generativelanguage.googleapis.com/v1beta/models" +:+ "/" +:+ modelName p
  +:+ ":generateContent?key=" +:+ default "undefined" (apiKey p).

Definition OpenAI_url (p : ModelProvider) : string :=
  "https://api.openai.com/v1" +:+ "/chat/completions".

(** A status that [axios] resolves on. *)
Definition is_2xx (status : Z) : bool := ((200 <=? status) && (status <? 300))%Z.

(** The world once a request to [url] got its answer. *)
Definition posted (url : string) (w : World) : World :=
  set_replies (tail (replies w)) (add_post url w).

(** [axios.post(url, body, { timeout: 30000 })]: resolves with
    [response.data] on a 2xx status, rejects on any other status, on a
    timeout and on a network error (as when nothing answers), each time
    with an [AxiosError] that holds the request. The reply does not depend
    on the body, which is left out. *)
Definition axios_post (url : string) : M value :=
  fun w =>
    match head (replies w) with
    | Some (Response status data) =>
        if is_2xx status then (Normal data, posted url w)
        else (Throw (AxiosError "Request failed with status code"), posted url w)
    | Some TimedOut => (Throw (AxiosError "timeout of 30000ms exceeded"), posted url w)
    | Some (NetworkError msg) => (Throw (AxiosError msg), posted url w)
    | None => (Throw (AxiosError "Network Error"), posted url w)
    end.

Section ModelBridgeJs.
Context `{Host}.

(** ToNumber. An array converts through its [toString]. An object read
    from JSON has no callable [toString] of its own: it converts through
    [Object.prototype.toString] to [NaN], unless an own property hides that
    method, and then the conversion throws. *)
Definition ToNumber (v : value) : Completion number :=
  match v with
  | VUndef => Normal NaN
  | VNull => Normal (Fin 0)
  | VBool b => Normal (Fin (if b then 1 else 0))
  | VNum n => Normal n
  | VStr s => Normal (StringToNumber s)
  | VArr items =>
      match Array_toString items with
      | Some s => Normal (StringToNumber s)
      | None => Throw (TypeError "Cannot convert object to primitive value")
      end
  | VObj fields =>
      if has_key "toString" fields
      then Throw (TypeError "Cannot convert object to primitive value")
      else Normal NaN
  end.

(** [Math.max(0, Math.min(1, x))]. *)
Definition clamp01 (x : value) : Completion value :=
  n <~ ToNumber x ;;
  Normal (VNum (Math_max (Fin 0) (Math_min (Fin 1) n))).

(** [generateCacheKey(text, operation)]. *)
Definition generateCacheKey (p : ModelProvider) (text operation : string) : string :=
  let hash := String.substring 0 16 (sha256_hex text) in
  generateKey operation hash (modelName p).

(** [content.match(/\{[\s\S]*\}/)] on a truthy [content]: only a string has
    the method. *)
Definition content_match (content : value) : Completion (option string) :=
  match content with
  | VStr s => Normal (match_braces s)
  | _ => Throw (TypeError "content.match is not a function")
  end.

(** [content.trim()]. *)
Definition content_trim (content : value) : Completion value :=
  match content with
  | VStr s => Normal (VStr (String_trim s))
  | _ => Throw (TypeError "content.trim is not a function")
  end.

(** The response both [parseAnalysisResponse] methods build from the parsed
    object. *)
Definition response_of_parsed (p : ModelProvider) (parsed : value) : Completion value :=
  score_in <~ get parsed "score" ;;
  score <~ clamp01 (or_else score_in (num 0)) ;;
  label_in <~ get parsed "label" ;;
  reasons_in <~ get parsed "reasons" ;;
  explanation_in <~ get parsed "explanation" ;;
  confidence_in <~ get parsed "confidence" ;;
  confidence <~ clamp01 (or_else confidence_in (num (1#2))) ;;
  Normal (VObj [("score", score);
             ("label", or_else label_in (VStr "uncertain"));
             ("reasons", if isArray reasons_in then reasons_in else VArr []);
             ("explanation", or_else explanation_in (VStr "Analysis completed"));
             ("confidence", confidence);
             ("model", VStr (modelName p));
             ("provider", VStr (provider p))]).

(** The response both methods return when parsing threw. *)
Definition parse_failure_response (p : ModelProvider) : value :=
  VObj [("score", num (1#2));
        ("label", VStr "uncertain");
        ("reasons", VArr [VStr "Analysis failed - unable to parse response"]);
        ("explanation", VStr "Unable to analyze content due to processing error");
        ("confidence", num (1#10));
        ("model", VStr (modelName p));
        ("provider", VStr (provider p))].

(** From [if (!content)] to the [return] of the [try]. *)
Definition parse_content (p : ModelProvider) (content : value) (who : string)
    : Completion value :=
  if negb (truthy content) then Throw (Err ("No content in " +:+ who +:+ " response"))
  else
    jsonMatch <~ content_match content ;;
    match jsonMatch with
    | None => Throw (Err ("No JSON found in " +:+ who +:+ " response"))
    | Some matched =>
        match JSON_parse matched with
        | None => Throw (Err "Unexpected token in JSON")
        | Some parsed => response_of_parsed p parsed
        end
    end.

(** [data.candidates?.[0]?.content?.parts?.[0]?.text]. *)
Definition Gemini_content (data : value) : Completion value :=
  candidates <~ get data "candidates" ;;
  Normal (get_opt (first_opt (get_opt (get_opt (first_opt candidates) "content") "parts")) "text").

(** [data.choices?.[0]?.message?.content]. *)
Definition OpenAI_content (data : value) : Completion value :=
  choices <~ get data "choices" ;;
  Normal (get_opt (get_opt (first_opt choices) "message") "content").

(** The body of the [try] of [GeminiProvider.parseAnalysisResponse]. *)
Definition Gemini_parse (p : ModelProvider) (data : value) : Completion value :=
  content <~ Gemini_content data ;;
  parse_content p content "Gemini".

(** The body of the [try] of [OpenAIProvider.parseAnalysisResponse]. *)
Definition OpenAI_parse (p : ModelProvider) (data : value) : Completion value :=
  content <~ OpenAI_content data ;;
  parse_content p content "OpenAI".

(** [GeminiProvider.parseAnalysisResponse(data)]. *)
Definition Gemini_parseAnalysisResponse (p : ModelProvider) (data : value) : M value :=
  try_catch
    (lift (Gemini_parse p data))
    (fun error =>
       logger LError "Failed to parse Gemini analysis response:" (Some error) ;;;
       ret (parse_failure_response p)).

(** [OpenAIProvider.parseAnalysisResponse(data)]. *)
Definition OpenAI_parseAnalysisResponse (p : ModelProvider) (data : value) : M value :=
  try_catch
    (lift (OpenAI_parse p data))
    (fun error =>
       logger LError "Failed to parse OpenAI analysis response:" (Some error) ;;;
       ret (parse_failure_response p)).

Definition chat_response (p : ModelProvider) (answer : value) (source : list value)
    (confidence : Q) : value :=
  VObj [("answer", answer);
        ("sources", VArr source);
        ("model", VStr (modelName p));
        ("provider", VStr (provider p));
        ("confidence", num confidence)].

Definition chat_failure_response (p : ModelProvider) : value :=
  chat_response p
    (VStr "I apologize, but I encountered an error processing your question. Please try again.")
    [] (1#10).

(** [GeminiProvider.parseChatResponse(data)]. *)
Definition Gemini_parseChatResponse (p : ModelProvider) (data : value) : M value :=
  try_catch
    (lift (content <~ Gemini_content data ;;
           if negb (truthy content) then Throw (Err "No content in Gemini chat response")
           else
             answer <~ content_trim content ;;
             Normal (chat_response p answer [VStr "Gemini AI Model"] (8#10))))
    (fun error =>
       logger LError "Failed to parse Gemini chat response:" (Some error) ;;;
       ret (chat_failure_response p)).

(** [OpenAIProvider.parseChatResponse(data)]. *)
Definition OpenAI_parseChatResponse (p : ModelProvider) (data : value) : M value :=
  try_catch
    (lift (content <~ OpenAI_content data ;;
           if negb (truthy content) then Throw (Err "No content in OpenAI chat response")
           else
             answer <~ content_trim content ;;
             Normal (chat_response p answer [VStr "OpenAI GPT Model"] (8#10))))
    (fun error =>
       logger LError "Failed to parse OpenAI chat response:" (Some error) ;;;
       ret (chat_failure_response p)).

(** [`${request.context}:${request.question}`]. *)
Definition chat_text (request : ChatRequest) : string :=
  context request +:+ ":" +:+ question request.

(** [GeminiProvider.analyzeText(request)]. *)
Definition Gemini_analyzeText (p : ModelProvider) (request : AnalysisRequest) : M value :=
  let cacheKey := generateCacheKey p (req_text request) "analysis" in
  cached <- cache_get cacheKey ;;
  if truthy cached then
    logger LDebug "Using cached Gemini analysis result" None ;;;
    ret cached
  else
    try_catch
      (data <- axios_post (Gemini_url p) ;;
       result <- Gemini_parseAnalysisResponse p data ;;
       cache_set cacheKey result 3600 ;;;
       ret result)
      (fun error =>
         logger LError "Gemini analysis error:" (Some error) ;;;
         throw (Err ("Gemini analysis failed: " +:+ message error))).

(** [GeminiProvider.chat(request)]. *)
Definition Gemini_chat (p : ModelProvider) (request : ChatRequest) : M value :=
  let cacheKey := generateCacheKey p (chat_text request) "chat" in
  cached <- cache_get cacheKey ;;
  if truthy cached then
    logger LDebug "Using cached Gemini chat result" None ;;;
    ret cached
  else
    try_catch
      (data <- axios_post (Gemini_url p) ;;
       result <- Gemini_parseChatResponse p data ;;
       cache_set cacheKey result 1800 ;;;
       ret result)
      (fun error =>
         logger LError "Gemini chat error:" (Some error) ;;;
         throw (Err ("Gemini chat failed: " +:+ message error))).

(** [OpenAIProvider.analyzeText(request)]. *)
Definition OpenAI_analyzeText (p : ModelProvider) (request : AnalysisRequest) : M value :=
  let cacheKey := generateCacheKey p (req_text request) "analysis" in
  cached <- cache_get cacheKey ;;
  if truthy cached then
    logger LDebug "Using cached OpenAI analysis result" None ;;;
    ret cached
  else
    try_catch
      (data <- axios_post (OpenAI_url p) ;;
       result <- OpenAI_parseAnalysisResponse p data ;;
       cache_set cacheKey result 3600 ;;;
       ret result)
      (fun error =>
         logger LError "OpenAI analysis error:" (Some error) ;;;
         throw (Err ("OpenAI analysis failed: " +:+ message error))).

(** [OpenAIProvider.chat(request)]. *)
Definition OpenAI_chat (p : ModelProvider) (request : ChatRequest) : M value :=
  let cacheKey := generateCacheKey p (chat_text request) "chat" in
  cached <- cache_get cacheKey ;;
  if truthy cached then
    logger LDebug "Using cached OpenAI chat result" None ;;;
    ret cached
  else
    try_catch
      (data <- axios_post (OpenAI_url p) ;;
       result <- OpenAI_parseChatResponse p data ;;
       cache_set cacheKey result 1800 ;;;
       ret result)
      (fun error =>
         logger LError "OpenAI chat error:" (Some error) ;;;
         throw (Err ("OpenAI chat failed: " +:+ message error))).

(** [LocalProvider.analyzeText(request)]. *)
Definition Local_analyzeText (p : ModelProvider) (request : AnalysisRequest) : M value :=
  logger LWarn "Local model provider not implemented yet, using fallback" None ;;;
  ret (VObj [("score", num (1#2));
             ("label", VStr "uncertain");
             ("reasons", VArr [VStr "Local model not available"]);
             ("explanation", VStr "Local model analysis not implemented");
             ("confidence", num (1#10));
             ("model", VStr (modelName p));
             ("provider", VStr (provider p))]).

(** [LocalProvider.chat(request)]. *)
Definition Local_chat (p : ModelProvider) (request : ChatRequest) : M value :=
  logger LWarn "Local model provider not implemented yet, using fallback" None ;;;
  ret (chat_response p
         (VStr "Local model chat not implemented yet. Please use Gemini or OpenAI provider.")
         [] (1#10)).

(** Method dispatch on the class of the instance. *)
Definition analyzeText (p : ModelProvider) (request : AnalysisRequest) : M value :=
  match class p with
  | GeminiProvider => Gemini_analyzeText p request
  | OpenAIProvider => OpenAI_analyzeText p request
  | LocalProvider => Local_analyzeText p request
  end.

Definition chat (p : ModelProvider) (request : ChatRequest) : M value :=
  match class p with
  | GeminiProvider => Gemini_chat p request
  | OpenAIProvider => OpenAI_chat p request
  | LocalProvider => Local_chat p request
  end.

End ModelBridgeJs.

(** *** The bridge

    Provider instances are objects: [heap] holds them, and the [providers]
    map and the [fallbackProvider] field hold references into it, so that
    two slots can name one instance. *)
Record ModelBridge : Type := {
  heap : list ModelProvider;
  providers : gmap string nat;
  fallbackProvider : nat;
}.

(** [new C(apiKey, modelName, provider)]: the instance and its reference. *)
Definition new (c : ProviderClass) (key : option string) (model name : string)
    (h : list ModelProvider) : list ModelProvider * nat :=
  ((h ++ [{| class := c; apiKey := key; modelName := model; provider := name |}])%list,
   length h).

(** [if (apiKey)]. *)
Definition key_given (k : option string) : bool :=
  match k with Some s => string_nonempty s | None => false end.

Definition emergency_response : value :=
  VObj [("score", num (1#2));
        ("label", VStr "uncertain");
        ("reasons", VArr [VStr "Model analysis unavailable"]);
        ("explanation", VStr "Unable to analyze content - all model providers are unavailable");
        ("confidence", num (1#10));
        ("model", VStr "fallback");
        ("provider", VStr "fallback")].

Definition emergency_chat_response : value :=
  VObj [("answer", VStr "I apologize, but I'm currently unable to process your question. Please try again later.");
        ("sources", VArr []);
        ("model", VStr "fallback");
        ("provider", VStr "fallback");
        ("confidence", num (1#10))].

Section Bridge.
Context `{Host}.

(** [initializeProviders()], run by the constructor on an empty map. *)
Definition initializeProviders (config : Config) : M ModelBridge :=
  let modelConfig := getModelConfig config in
  let '(h1, m1) :=
    match mc_provider modelConfig with
    | gemini =>
        if key_given (mc_apiKey modelConfig) then
          let '(h, r) := new GeminiProvider (mc_apiKey modelConfig)
                             (mc_modelName modelConfig) "gemini" [] in
          (h, <["primary" := r]> (∅ : gmap string nat))
        else ([], ∅)
    | openai =>
        if key_given (mc_apiKey modelConfig) then
          let '(h, r) := new OpenAIProvider (mc_apiKey modelConfig)
                             (mc_modelName modelConfig) "openai" [] in
          (h, <["primary" := r]> (∅ : gmap string nat))
        else ([], ∅)
    | local =>
        let '(h, r) := new LocalProvider None (mc_modelName modelConfig) "local" [] in
        (h, <["primary" := r]> (∅ : gmap string nat))
    end in
  let '(h2, m2) :=
    if key_given (geminiApiKey config) && negb (bool_decide (is_Some (m1 !! "primary"))) then
      let '(h, r) := new GeminiProvider (geminiApiKey config) "gemini-free" "gemini" h1 in
      (h, <["fallback" := r]> m1)
    else (h1, m1) in
  let '(h3, fb) :=
    match m2 !! "fallback" with
    | Some r => (h2, r)
    | None =>
        match m2 !! "primary" with
        | Some r => (h2, r)
        | None => new LocalProvider None "local" "local" h2
        end
    end in
  logger LInfo ("Model bridge initialized with primary provider: "
                +:+ provider_name (mc_provider modelConfig)) None ;;;
  ret {| heap := h3; providers := m2; fallbackProvider := fb |}.

(** A method call through a reference held in [slot]. *)
Definition call_analyzeText (b : ModelBridge) (slot : Slot) (r : nat)
    (request : AnalysisRequest) : M value :=
  match heap b !! r with
  | Some p =>
      fun w => analyzeText p request
                 (add_call {| call_slot := slot; call_inst := r;
                              call_req := Analysis request |} w)
  | None => throw (TypeError "Cannot read properties of undefined (reading 'analyzeText')")
  end.

Definition call_chat (b : ModelBridge) (slot : Slot) (r : nat)
    (request : ChatRequest) : M value :=
  match heap b !! r with
  | Some p =>
      fun w => chat p request
                 (add_call {| call_slot := slot; call_inst := r;
                              call_req := Chat request |} w)
  | None => throw (TypeError "Cannot read properties of undefined (reading 'chat')")
  end.

(** The body of the outer [try] of [ModelBridge.analyzeText]. *)
Definition primary_analyzeText (b : ModelBridge) (request : AnalysisRequest) : M value :=
  match providers b !! "primary" with
  | Some primary => call_analyzeText b PrimarySlot primary request
  | None => throw (Err "No primary provider available")
  end.

(** The body of the inner [try]. *)
Definition fallback_analyzeText (b : ModelBridge) (request : AnalysisRequest) : M value :=
  call_analyzeText b FallbackSlot (fallbackProvider b) request.

(** [ModelBridge.analyzeText(request)]. *)
Definition ModelBridge_analyzeText (b : ModelBridge) (request : AnalysisRequest) : M value :=
  try_catch
    (primary_analyzeText b request)
    (fun error =>
       logger LWarn "Primary model provider failed, trying fallback:" (Some error) ;;;
       try_catch
         (fallback_analyzeText b request)
         (fun fallbackError =>
            logger LError "All model providers failed:" (Some fallbackError) ;;;
            ret emergency_response)).

(** [ModelBridge.chat(request)]. *)
Definition ModelBridge_chat (b : ModelBridge) (request : ChatRequest) : M value :=
  try_catch
    (match providers b !! "primary" with
     | Some primary => call_chat b PrimarySlot primary request
     | None => throw (Err "No primary provider available")
     end)
    (fun error =>
       logger LWarn "Primary model provider failed for chat, trying fallback:" (Some error) ;;;
       try_catch
         (call_chat b FallbackSlot (fallbackProvider b) request)
         (fun fallbackError =>
            logger LError "All model providers failed for chat:" (Some fallbackError) ;;;
            ret emergency_chat_response)).

End Bridge.

(** ** [services/phishingDetection]: labels and edit distance

    Only the declarations of the detector are in the repository
    ([phishingDetection.d.ts]); the two functions below follow the
    specification. *)

Inductive Label : Type := clean | suspicious | phishing.

(** Modelled from the spec: the body of [PhishingDetector.detect] that turns
    the final score into a label is missing; the label is [clean] below
    [low], [suspicious] from [low] up to [high], [phishing] from [high] on. *)
Definition label_of (low high : Q) (score : Q) : Label :=
  if negb (Qle_bool low score) then clean
  else if negb (Qle_bool high score) then suspicious
  else phishing.

Section Levenshtein.
Context {A : Type} `{EqDecision A}.

(** Modelled from the spec: one cell of the dynamic-programming table, of
    which the body is missing; [diag], [left] and [up] are the cells at
    [(i-1, j-1)], [(i, j-1)] and [(i-1, j)]: substitution, insertion and
    deletion. *)
Definition cell (x y : A) (diag left up : nat) : nat :=
  if decide (x = y) then diag else S (Nat.min diag (Nat.min left up)).

(** Modelled from the spec: the cells of row [i] of the table from column
    [j + 1] on, from the cells of row [i - 1] from column [j] on and the
    cell [left] at [(i, j)]. *)
Fixpoint fill_row (x : A) (b : list A) (prev : list nat) (left : nat) : list nat :=
  match b, prev with
  | y :: b', diag :: ((up :: _) as prev') =>
      let d := cell x y diag left up in
      d :: fill_row x b' prev' d
  | _, _ => []
  end.

(** Modelled from the spec: the row of the table after the row [prev], for
    the character [x] of the first string. *)
Definition next_row (b : list A) (prev : list nat) (x : A) : list nat :=
  match prev with
  | d0 :: _ => S d0 :: fill_row x b prev (S d0)
  | [] => []
  end.

(** Modelled from the spec: the body of
    [PhishingDetector.levenshteinDistance] is missing; this is the classic
    dynamic-programming table, row [0] being [0, 1, ..., |b|], each further
    row filled from the one above, and the distance the last cell of the
    last row. Insertion, deletion and substitution cost 1 each. *)
Definition levenshtein (a b : list A) : nat :=
  List.last (fold_left (next_row b) a (seq 0 (S (length b)))) 0%nat.

(** Modelled from the spec: the recurrence of the classic distance, which
    the table tabulates, on strings read from their last character:
    [lev_rec (rev a) (rev b)] is the distance of [a] and [b]. *)
Fixpoint lev_rec (s : list A) : list A -> nat :=
  match s with
  | [] => fun t => length t
  | x :: s' =>
      fix inner (t : list A) : nat :=
        match t with
        | [] => S (length s')
        | y :: t' => cell x y (lev_rec s' t') (inner t') (lev_rec s' t)
        end
  end.

(** Modelled from the spec: the cells of one row of the table, as the
    recurrence gives them: the distances of [s] to [acc], [y1 :: acc],
    [y2 :: y1 :: acc], ... for [b = y1 :: y2 :: ...]. *)
Fixpoint row_of (s acc b : list A) : list nat :=
  lev_rec s acc ::
  match b with
  | [] => []
  | y :: b' => row_of s (y :: acc) b'
  end.

End Levenshtein.

(** Modelled from the spec: [levenshteinDistance(str1, str2)], the distance
    of two strings character by character. *)
Definition levenshteinDistance (str1 str2 : string) : nat :=
  levenshtein (list_ascii_of_string str1) (list_ascii_of_string str2).

(** ** Vocabulary of the statements *)

Definition error_entry (msg : string) (e : Error) : LogEntry :=
  {| level := LError; text := msg; detail := Some (message e) |}.

Definition warn_entry (msg : string) (e : Error) : LogEntry :=
  {| level := LWarn; text := msg; detail := Some (message e) |}.

Definition debug_entry (msg : string) : LogEntry :=
  {| level := LDebug; text := msg; detail := None |}.

(** A step that throws no error that holds a cycle. *)
Definition plain {A} (c : Completion A) : Prop :=
  forall e, c = Throw e -> circular e = false.

(** No command can be sent: there is no client, it is closed, or the
    server does not answer. *)
Definition unavailable (w : World) : Prop :=
  match redisClient w with
  | None => True
  | Some c => isOpen c = false \/ online c = false
  end.

(** The client is open and the server answers; [c] is its state. *)
Definition serving (c : RedisClient) (w : World) : Prop :=
  redisClient w = Some c /\ isOpen c = true /\ online c = true.

(** The key holds nothing that has not expired. *)
Definition absent (key : string) (w : World) : Prop :=
  match redisClient w with
  | None => True
  | Some c =>
      match store c !! key with
      | Some e => live (now w) e = false
      | None => True
      end
  end.

Definition defined (v : value) : bool :=
  match v with VUndef => false | _ => true end.

(** The seven properties of an [AnalysisResponse], [reasons] an array,
    [model] and [provider] strings: what every response the parsers build
    has, whatever the reply was. The types of the interface are those of
    [is_AnalysisResponse] below. *)
Definition is_response (v : value) : bool :=
  match v with
  | VObj [(k1, s); (k2, l); (k3, VArr _); (k4, e); (k5, c); (k6, VStr _); (k7, VStr _)] =>
      String.eqb k1 "score" && String.eqb k2 "label" && String.eqb k3 "reasons"
      && String.eqb k4 "explanation" && String.eqb k5 "confidence"
      && String.eqb k6 "model" && String.eqb k7 "provider"
      && defined s && defined l && defined e && defined c
  | _ => false
  end.

(** A number of the unit interval. *)
Definition in_unit (v : value) : Prop :=
  match v with
  | VNum (Fin q) => (0 <= q /\ q <= 1)%Q
  | _ => False
  end.

Definition field (v : value) (name : string) : value := get_opt v name.

Definition is_number (v : value) : bool :=
  match v with VNum _ => true | _ => false end.

Definition is_string (v : value) : bool :=
  match v with VStr _ => true | _ => false end.

(** ['suspicious' | 'clean' | 'uncertain']. *)
Definition is_label (v : value) : bool :=
  match v with
  | VStr s => String.eqb s "suspicious" || String.eqb s "clean" || String.eqb s "uncertain"
  | _ => false
  end.

(** An [AnalysisResponse] as the interface of [modelBridge.d.ts] declares
    it: [score] and [confidence] numbers, [label] one of the three labels,
    [reasons] an array of strings, [explanation], [model] and [provider]
    strings. *)
Definition is_AnalysisResponse (v : value) : bool :=
  match v with
  | VObj _ =>
      is_number (field v "score") && is_label (field v "label")
      && match field v "reasons" with
         | VArr items => forallb is_string items
         | _ => false
         end
      && is_string (field v "explanation") && is_number (field v "confidence")
      && is_string (field v "model") && is_string (field v "provider")
  | _ => false
  end.

Section Invariant.
Context `{Host}.

(** What [cache.get] reads from a stored string, when it reads one. *)
Definition decoded (t : redis_string) : option value :=
  match t with
  | JsonText v => Some v
  | PlainText s => if string_nonempty s then JSON_parse s else Some VNull
  end.

(** The invariant of the cache: what the keys of the analysis operation
    hold reads back as an [AnalysisResponse]. It holds of the empty cache
    and of a world without Redis. *)
Definition store_wf (c : option RedisClient) : Prop :=
  forall c' key e v,
    c = Some c' -> store c' !! key = Some e ->
    startsWith "analysis:" key = true ->
    decoded (fst e) = Some v -> truthy v = true -> is_response v = true.

Definition cache_wf (w : World) : Prop := store_wf (redisClient w).

End Invariant.

(** What a computation may do to the records of the world: [calls] and the
    clock stay, [log] and [posts] grow. *)
Record extends (w w' : World) : Prop := {
  ext_calls : calls w' = calls w;
  ext_now : now w' = now w;
  ext_log : exists l, log w' = (l ++ log w)%list;
  ext_posts : exists l, posts w' = (l ++ posts w)%list;
}.

Definition preserves {A} (m : M A) : Prop :=
  forall w res w', m w = (res, w') -> extends w w'.

(** The call the bridge makes through a slot. *)
Definition call_of (slot : Slot) (r : nat) (request : AnalysisRequest) : Call :=
  {| call_slot := slot; call_inst := r; call_req := Analysis request |}.

Definition through (slot : Slot) (c : Call) : bool :=
  match call_slot c, slot with
  | PrimarySlot, PrimarySlot | FallbackSlot, FallbackSlot => true
  | _, _ => false
  end.

(** Two worlds that differ in the log only. *)
Definition log_only (w w' : World) : Prop :=
  redisClient w' = redisClient w /\ now w' = now w /\ replies w' = replies w /\
  posts w' = posts w /\ calls w' = calls w.

(** The log of [w'] is the log of [w] with, at most, lines of [cache.get]
    added. *)
Definition lookup_logged (w w' : World) : Prop :=
  forall entry, In entry (log w') -> In entry (log w) \/ text entry = "Cache get error:".

(** The next HTTP request will be rejected: there is no answer, the answer
    times out, the connection fails, or the status is not 2xx. *)
Definition next_rejected (w : World) : Prop :=
  match replies w with
  | [] => True
  | Response status _ :: _ => is_2xx status = false
  | TimedOut :: _ => True
  | NetworkError _ :: _ => True
  end.

(** The next HTTP request will be answered with [data] and a 2xx status. *)
Definition next_resolves (data : value) (w : World) : Prop :=
  exists status rest, replies w = Response status data :: rest /\ is_2xx status = true.

Section Shapes.
Context `{Host}.

(** The lookup of [key] finds nothing the code takes for a cached value. *)
Definition misses (key : string) (w : World) : Prop :=
  exists v w1, cache_get key w = (Normal v, w1) /\ truthy v = false.

(** The common text of the four remote methods ([analyzeText] and [chat] of
    the Gemini and OpenAI providers), which differ in their messages, URL,
    parser, key and lifetime only. *)
Definition remote_call (hit_msg err_msg fail_msg url : string)
    (parse : value -> M value) (key : string) (ttl : Z) : M value :=
  cached <- cache_get key ;;
  if truthy cached then
    logger LDebug hit_msg None ;;;
    ret cached
  else
    try_catch
      (data <- axios_post url ;;
       result <- parse data ;;
       cache_set key result ttl ;;;
       ret result)
      (fun error =>
         logger LError err_msg (Some error) ;;;
         throw (Err (fail_msg +:+ message error))).

(** The URL an instance posts to. *)
Definition url_of (p : ModelProvider) : string :=
  match class p with
  | GeminiProvider => Gemini_url p
  | OpenAIProvider => OpenAI_url p
  | LocalProvider => EmptyString
  end.

(** The body of the [try] of the instance's [parseAnalysisResponse]. *)
Definition parse_of (p : ModelProvider) (data : value) : Completion value :=
  match class p with
  | GeminiProvider => Gemini_parse p data
  | OpenAIProvider => OpenAI_parse p data
  | LocalProvider => Throw (Err EmptyString)
  end.

Definition remote (p : ModelProvider) : Prop := class p <> LocalProvider.

(** The name the messages of an instance's class carry. *)
Definition who (p : ModelProvider) : string :=
  match class p with
  | GeminiProvider => "Gemini"
  | OpenAIProvider => "OpenAI"
  | LocalProvider => "Local"
  end.

(** [this.parseAnalysisResponse(data)] and [this.parseChatResponse(data)],
    which the local provider does not have. *)
Definition parseAnalysisResponse (p : ModelProvider) (data : value) : M value :=
  match class p with
  | GeminiProvider => Gemini_parseAnalysisResponse p data
  | OpenAIProvider => OpenAI_parseAnalysisResponse p data
  | LocalProvider => throw (TypeError "this.parseAnalysisResponse is not a function")
  end.

Definition parseChatResponse (p : ModelProvider) (data : value) : M value :=
  match class p with
  | GeminiProvider => Gemini_parseChatResponse p data
  | OpenAIProvider => OpenAI_parseChatResponse p data
  | LocalProvider => throw (TypeError "this.parseChatResponse is not a function")
  end.

(** The client after [key] was set to the text of [j], to expire at [exp]. *)
Definition stored_in (c : RedisClient) (key : string) (j : value) (exp : Z) : RedisClient :=
  {| isOpen := isOpen c; online := online c;
     store := <[key := (JsonText j, exp)]> (store c) |}.

Definition analysis_key (p : ModelProvider) (request : AnalysisRequest) : string :=
  generateCacheKey p (req_text request) "analysis".

Definition chat_key (p : ModelProvider) (request : ChatRequest) : string :=
  generateCacheKey p (chat_text request) "chat".

End Shapes.

(** The messages of the remote methods of an instance. *)
Definition hit_msg (p : ModelProvider) (op : string) : string :=
  "Using cached " +:+ who p +:+ " " +:+ op +:+ " result".

Definition err_msg (p : ModelProvider) (op : string) : string :=
  who p +:+ " " +:+ op +:+ " error:".

Definition fail_msg (p : ModelProvider) (op : string) : string :=
  who p +:+ " " +:+ op +:+ " failed: ".

Definition parse_err_msg (p : ModelProvider) : string :=
  "Failed to parse " +:+ who p +:+ " analysis response:".

(** The instance [initializeProviders] builds for the configured provider,
    if it builds one, and the one it builds otherwise. *)
Definition primary_instance (config : Config) : option ModelProvider :=
  match modelProvider config with
  | gemini =>
      if key_given (geminiApiKey config)
      then Some {| class := GeminiProvider; apiKey := geminiApiKey config;
                   modelName := ConfigTs.modelName config; provider := "gemini" |}
      else None
  | openai =>
      if key_given (openaiApiKey config)
      then Some {| class := OpenAIProvider; apiKey := openaiApiKey config;
                   modelName := ConfigTs.modelName config; provider := "openai" |}
      else None
  | local =>
      Some {| class := LocalProvider; apiKey := None;
              modelName := ConfigTs.modelName config; provider := "local" |}
  end.

Definition spare_instance (config : Config) : ModelProvider :=
  if key_given (geminiApiKey config)
  then {| class := GeminiProvider; apiKey := geminiApiKey config;
          modelName := "gemini-free"; provider := "gemini" |}
  else {| class := LocalProvider; apiKey := None; modelName := "local"; provider := "local" |}.

Create HintDb frame.

(** Splits a goal [preserves m] along the text of [m]; [on_bind] and
    [on_try] are the lemmas for sequencing and for [try ... catch]. *)
Ltac frame_with on_bind on_try :=
  repeat first
    [ progress intros
    | solve [auto with frame]
    | apply on_bind
    | apply on_try
    | match goal with
      | |- preserves (if ?b then _ else _) => destruct b
      | |- preserves (match ?x with _ => _ end) => destruct x
      end ].

Create HintDb plain.

(** Splits a goal [plain c] along the text of [c]; [on_then] is the lemma
    for sequencing. *)
Ltac plain_with on_then :=
  repeat first
    [ progress intros
    | solve [auto with plain]
    | apply on_then
    | match goal with
      | |- plain (if ?b then _ else _) => destruct b
      | |- plain (match ?x with _ => _ end) => destruct x
      end ].

(** ** Sample inputs *)

Definition dquote : string := String (ascii_of_nat 34) EmptyString.

Definition quoted (s : string) : string := dquote +:+ s +:+ dquote.

(** The text [{"score":"high"}]. *)
Definition score_high_text : string :=
  "{" +:+ quoted "score" +:+ ":" +:+ quoted "high" +:+ "}".

(** The text [{"label":42}]. *)
Definition label_42_text : string := "{" +:+ quoted "label" +:+ ":42}".

(** The text
    [{"score":0.9,"label":"suspicious","reasons":["Urgent language"],
      "explanation":"Asks to verify an account","confidence":0.8}]. *)
Definition verdict_text : string :=
  "{" +:+ quoted "score" +:+ ":0.9," +:+ quoted "label" +:+ ":" +:+ quoted "suspicious"
  +:+ "," +:+ quoted "reasons" +:+ ":[" +:+ quoted "Urgent language" +:+ "],"
  +:+ quoted "explanation" +:+ ":" +:+ quoted "Asks to verify an account" +:+ ","
  +:+ quoted "confidence" +:+ ":0.8}".

Definition verdict : value :=
  VObj [("score", num (9#10));
        ("label", VStr "suspicious");
        ("reasons", VArr [VStr "Urgent language"]);
        ("explanation", VStr "Asks to verify an account");
        ("confidence", num (8#10))].

(** A host that agrees with JavaScript on the texts used below; what it
    does on other texts plays no part. *)
Definition sample_host : Host := {|
  JSON_parse s :=
    if String.eqb s score_high_text then Some (VObj [("score", VStr "high")])
    else if String.eqb s label_42_text then Some (VObj [("label", num 42)])
    else if String.eqb s verdict_text then Some verdict
    else if String.eqb s "{}" then Some (VObj [])
    else None;
  StringToNumber s := if string_nonempty s then NaN else Fin 0;
  Array_toString _ := Some EmptyString;
  String_trim s := s;
  sha256_hex s :=
    if String.eqb s "Verify your account now"
    then "1406f00b198a38b71f18158b4cd6cd19e341d0531b1bbf5fc0360b9b8b3e789f"
    else if String.eqb s "Why was this flagged?:Is it safe?"
    then "3fa2144ff0596dbe566de75d34afd6cdbf8ef5fd34ca939e55625fd94b79a69b"
    else "e3b0c44298fc1c149afbf4c8996fb92427ae41e4649b934ca495991b7852b855";
  parseFloat s :=
    if String.eqb s "0.3" then Fin (3#10)
    else if String.eqb s "0.7" then Fin (7#10)
    else if String.eqb s "0.8" then Fin (8#10)
    else NaN;
|}.

(** The body of a Gemini reply whose first candidate carries [t]. *)
Definition gemini_reply (t : value) : value :=
  VObj [("candidates",
         VArr [VObj [("content", VObj [("parts", VArr [VObj [("text", t)]])])]])].

Definition sample_gemini : ModelProvider :=
  {| class := GeminiProvider; apiKey := Some "secret"; modelName := "gemini-free";
     provider := "gemini" |}.

Definition sample_request : AnalysisRequest :=
  {| req_text := "Verify your account now"; req_url := None |}.

Definition sample_chat : ChatRequest :=
  {| context := "Why was this flagged?"; question := "Is it safe?" |}.

Definition sample_config : Config :=
  {| modelProvider := gemini; ConfigTs.modelName := "gemini-free";
     geminiApiKey := Some "secret"; openaiApiKey := None;
     lowThreshold := Fin (3#10); highThreshold := Fin (7#10);
     reportThreshold := Fin (8#10) |}.

Definition empty_redis : RedisClient :=
  {| isOpen := true; online := true; store := ∅ |}.

(** Redis answers and holds nothing. *)
Definition world_up (answers : list HttpReply) : World :=
  {| redisClient := Some empty_redis; now := 1000; replies := answers;
     log := []; posts := []; calls := [] |}.

(** The connection to Redis was lost and the client closed. *)
Definition world_down (answers : list HttpReply) : World :=
  {| redisClient := Some {| isOpen := false; online := false; store := ∅ |};
     now := 1000; replies := answers; log := []; posts := []; calls := [] |}.

(** The bridge [initializeProviders] builds from [sample_config]. *)
Definition sample_bridge : ModelBridge :=
  {| heap := [sample_gemini]; providers := {["primary" := 0%nat]}; fallbackProvider := 0 |}.

(** An environment with a threshold that is no number. *)
Definition env_bad_threshold : Env :=
  <["JWT_SECRET" := "secret"]>
    (<["DATABASE_URL" := "postgres://localhost/smartshield"]>
       (<["LOW_THRESHOLD" := "abc"]> ∅)).

(** ** [config/redis.js]: the [session] helper *)

Section Sessions.
Context `{Host}.

(** [`session:${sessionId}`]. *)
Definition session_key (sessionId : string) : string := "session:" +:+ sessionId.

(** [session.set(sessionId, data, ttlSeconds = 86400)]; a call without its
    third argument is [None]. *)
Definition session_set (sessionId : string) (data : value) (ttlSeconds : option Z)
    : M unit :=
  let ttlSeconds := default 86400 ttlSeconds in
  try_catch
    (client <- getRedisClient ;;
     text <- stringify data ;;
     client_setEx client (session_key sessionId) ttlSeconds text)
    (fun error =>
       logger LError "Session set error:" (Some error)).

(** [session.get(sessionId)]. *)
Definition session_get (sessionId : string) : M value :=
  try_catch
    (client <- getRedisClient ;;
     stored <- client_get client (session_key sessionId) ;;
     parse_stored stored)
    (fun error =>
       logger LError "Session get error:" (Some error) ;;;
       ret VNull).

(** [session.delete(sessionId)]. *)
Definition session_delete (sessionId : string) : M unit :=
  try_catch
    (client <- getRedisClient ;;
     client_del client (session_key sessionId))
    (fun error =>
       logger LError "Session delete error:" (Some error)).

End Sessions.

(** ** [services/modelBridge.js]: what the bridge reports *)

(** [Array.from(this.providers.keys())]. A [Map] lists its keys in the
    order of their insertion; the maps [initializeProviders] builds hold one
    key at most, and no order is at stake. *)
Definition getAvailableProviders (b : ModelBridge) : list string :=
  (map_to_list (providers b)).*1.

Record ProviderInfo : Type := {
  info_primary : string;
  info_fallback : string;
  info_available : list string;
}.

(** [instance.provider], through a reference. *)
Definition provider_at (b : ModelBridge) (r : nat) : Completion string :=
  match heap b !! r with
  | Some p => Normal (provider p)
  | None => Throw (TypeError "Cannot read properties of undefined (reading 'provider')")
  end.

(** [getProviderInfo()]. *)
Definition getProviderInfo (b : ModelBridge) : Completion ProviderInfo :=
  primary <~ match providers b !! "primary" with
             | Some primaryProvider => provider_at b primaryProvider
             | None => Normal "none"
             end ;;
  fallback <~ provider_at b (fallbackProvider b) ;;
  let available :=
    if (0 <? size (providers b))%nat then getAvailableProviders b else ["none"] in
  Normal {| info_primary := primary; info_fallback := fallback;
            info_available := available |}.

(** ** [routes/health.js]: the model bridge's check *)

Record ModelHealth : Type := {
  health_status : string;
  health_details : list (string * value);
}.

(** [checkModelHealth()], on the bridge and the configuration in use. *)
Definition checkModelHealth (b : ModelBridge) (config : Config) : ModelHealth :=
  match getProviderInfo b with
  | Normal providerInfo =>
      {| health_status := "healthy";
         health_details :=
           [("primary_provider", VStr (info_primary providerInfo));
            ("fallback_provider", VStr (info_fallback providerInfo));
            ("available_providers", VArr (VStr <$> info_available providerInfo));
            ("model_provider", VStr (provider_name (modelProvider config)));
            ("model_name", VStr (ConfigTs.modelName config))] |}
  | Throw error =>
      {| health_status := "unhealthy";
         health_details := [("error", VStr (message error))] |}
  end.

(** ** Vocabulary of the statements about chat *)

Section ChatShapes.
Context `{Host}.

(** The content the instance's parsers read in a reply. *)
Definition content_of (p : ModelProvider) (data : value) : Completion value :=
  match class p with
  | GeminiProvider => Gemini_content data
  | OpenAIProvider => OpenAI_content data
  | LocalProvider => Throw (Err EmptyString)
  end.

(** The source an instance's [parseChatResponse] names. *)
Definition chat_source (p : ModelProvider) : string :=
  match class p with
  | GeminiProvider => "Gemini AI Model"
  | OpenAIProvider => "OpenAI GPT Model"
  | LocalProvider => EmptyString
  end.

(** What a reply is worth as a chat answer: its content trimmed when that
    is a string that is not empty, the apology otherwise. *)
Definition chat_result (p : ModelProvider) (data : value) : value :=
  match content_of p data with
  | Normal (VStr s) =>
      if string_nonempty s
      then chat_response p (VStr (String_trim s)) [VStr (chat_source p)] (8#10)
      else chat_failure_response p
  | _ => chat_failure_response p
  end.

End ChatShapes.

(** ** [config/redis.js]: the [rateLimit] helper *)

(** A sorted set of the server: its members with their scores, in no
    order, and the millisecond at which its key expires, if it has a time
    to live. A key that exists holds one member at least. *)
Record SortedSet : Type := {
  members : list (string * Z);
  deadline : option Z;
}.

(** What rate limiting adds to the world: the clock of [Date.now()], in
    milliseconds (an integer, below 10^21, that prints as its digits); the
    sorted sets of the server, by key; the numbers [Math.random()] will
    return, as they print, and how many of them were drawn. The strings of
    [store] and the sorted sets are kept apart: this module writes its
    strings under the prefixes of [generateKey] and under [session:], its
    sorted sets under [rate_limit:]. The clock stands still during a call. *)
Record Limits : Type := {
  outer : World;
  millis : Z;
  sorted : gmap string SortedSet;
  random : nat -> string;
  drawn : nat;
}.

Definition with_outer (w : World) (s : Limits) : Limits :=
  {| outer := w; millis := millis s; sorted := sorted s;
     random := random s; drawn := drawn s |}.

Definition with_sorted (m : gmap string SortedSet) (s : Limits) : Limits :=
  {| outer := outer s; millis := millis s; sorted := m;
     random := random s; drawn := drawn s |}.

(** The clock reads [t]. *)
Definition at_time (t : Z) (s : Limits) : Limits :=
  {| outer := outer s; millis := t; sorted := sorted s;
     random := random s; drawn := drawn s |}.

(** Computations of the rate limiter. *)
Definition L (A : Type) : Type := Limits -> Completion A * Limits.

Definition retL {A} (a : A) : L A := fun s => (Normal a, s).

Definition throwL {A} (e : Error) : L A := fun s => (Throw e, s).

Definition bindL {A B} (m : L A) (k : A -> L B) : L B :=
  fun s =>
    match m s with
    | (Normal a, s') => k a s'
    | (Throw e, s') => (Throw e, s')
    end.

Definition try_catchL {A} (m : L A) (h : Error -> L A) : L A :=
  fun s =>
    match m s with
    | (Normal a, s') => (Normal a, s')
    | (Throw e, s') => h e s'
    end.

(** A computation of the rest of the module, run from the rate limiter. *)
Definition in_world {A} (m : M A) : L A :=
  fun s => let '(r, w') := m (outer s) in (r, with_outer w' s).

Notation "x <<- m ;; k" := (bindL m (fun x => k))
  (at level 100, m at next level, right associativity).

(** [Date.now()]. *)
Definition Date_now : L Z := fun s => (Normal (millis s), s).

(** [Math.random()], printed. *)
Definition Math_random : L string :=
  fun s =>
    (Normal (random s (drawn s)),
     {| outer := outer s; millis := millis s; sorted := sorted s;
        random := random s; drawn := S (drawn s) |}).

(** The commands the rate limiter sends. [ZRemRangeByScore key max] is
    [ZREMRANGEBYSCORE key -inf max]. *)
Inductive Command : Type :=
| ZRemRangeByScore (key : string) (max : Z)
| ZCard (key : string)
| ZAdd (key : string) (score : Z) (member : string)
| Expire (key : string) (seconds : Z).

(** The sorted set under a key at time [t]: a key whose time to live has
    passed is gone. *)
Definition current (t : Z) (k : option SortedSet) : option SortedSet :=
  match k with
  | Some z =>
      match deadline z with
      | Some d => if (t <? d)%Z then Some z else None
      | None => Some z
      end
  | None => None
  end.

(** What is left of a set without its members of score [max] or less, and
    how many these were; a set left empty is removed. *)
Definition zremrangebyscore (max : Z) (k : option SortedSet) : option SortedSet * Z :=
  match k with
  | Some z =>
      let kept := List.filter (fun m => (max <? snd m)%Z) (members z) in
      (match kept with
       | [] => None
       | _ :: _ => Some {| members := kept; deadline := deadline z |}
       end,
       (Z.of_nat (length (members z)) - Z.of_nat (length kept))%Z)
  | None => (None, 0%Z)
  end.

Definition zcard (k : option SortedSet) : Z :=
  match k with
  | Some z => Z.of_nat (length (members z))
  | None => 0%Z
  end.

(** [ZADD]: a member that is in the set takes the new score, another one
    is added; it answers with the number of members added. *)
Definition zadd (score : Z) (member : string) (k : option SortedSet) : option SortedSet * Z :=
  match k with
  | Some z =>
      if existsb (fun m => String.eqb (fst m) member) (members z) then
        (Some {| members := map (fun m => if String.eqb (fst m) member
                                          then (member, score) else m) (members z);
                 deadline := deadline z |}, 0%Z)
      else
        (Some {| members := (members z ++ [(member, score)])%list;
                 deadline := deadline z |}, 1%Z)
  | None => (Some {| members := [(member, score)]; deadline := None |}, 1%Z)
  end.

(** [EXPIRE]: the key will expire in [seconds]; with a time that is not
    positive it is removed at once. It answers with 1 if the key exists. *)
Definition expire (t seconds : Z) (k : option SortedSet) : option SortedSet * Z :=
  match k with
  | Some z =>
      if (0 <? seconds)%Z
      then (Some {| members := members z; deadline := Some (t + seconds * 1000)%Z |}, 1%Z)
      else (None, 1%Z)
  | None => (None, 0%Z)
  end.

Definition key_of (cmd : Command) : string :=
  match cmd with
  | ZRemRangeByScore key _ | ZCard key | ZAdd key _ _ | Expire key _ => key
  end.

(** The server runs a command at time [t]: the sorted sets afterwards and
    its reply. *)
Definition run (t : Z) (cmd : Command) (m : gmap string SortedSet)
    : gmap string SortedSet * Z :=
  let k := current t (m !! key_of cmd) in
  let '(k', reply) :=
    match cmd with
    | ZRemRangeByScore _ max => zremrangebyscore max k
    | ZCard _ => (k, zcard k)
    | ZAdd _ score member => zadd score member k
    | Expire _ seconds => expire t seconds k
    end in
  (match k' with
   | Some z => <[key_of cmd := z]> m
   | None => delete (key_of cmd) m
   end, reply).

(** The commands of a queue, run in their order: the sets afterwards and
    the replies. *)
Fixpoint run_all (t : Z) (queue : list Command) (m : gmap string SortedSet)
    : gmap string SortedSet * list Z :=
  match queue with
  | [] => (m, [])
  | cmd :: rest =>
      let '(m1, reply) := run t cmd m in
      let '(m2, replies) := run_all t rest m1 in
      (m2, reply :: replies)
  end.

(** [client.multi() ... .exec()]: the queued commands are sent at [exec],
    run as one transaction, and answered together. *)
Definition exec (client : RedisClient) (queue : list Command) : L (list Z) :=
  fun s =>
    if online client then
      let '(m, replies) := run_all (millis s) queue (sorted s) in
      (Normal replies, with_sorted m s)
    else (Throw (Err "The client is closed"), s).

(** A command sent on its own. *)
Definition send (client : RedisClient) (cmd : Command) : L Z :=
  fun s =>
    if online client then
      let '(m, reply) := run (millis s) cmd (sorted s) in
      (Normal reply, with_sorted m s)
    else (Throw (Err "The client is closed"), s).

Record LimitCheck : Type := {
  allowed : bool;
  remaining : Z;
  resetTime : Z;
}.

Record LimitInfo : Type := {
  count : Z;
  info_resetTime : Z;
}.

(** [`rate_limit:${identifier}`]. *)
Definition limit_key (identifier : string) : string := "rate_limit:" +:+ identifier.

(** [`${now}-${Math.random()}`]. *)
Definition member_name (now : Z) (r : string) : string := pretty now +:+ "-" +:+ r.

(** [rateLimit.checkLimit(identifier, limit, windowSeconds)]; [limit] and
    [windowSeconds] are integers, as a count and a number of seconds are. *)
Definition checkLimit (identifier : string) (limit windowSeconds : Z) : L LimitCheck :=
  try_catchL
    (client <<- in_world getRedisClient ;;
     let key := limit_key identifier in
     now <<- Date_now ;;
     let window := (windowSeconds * 1000)%Z in
     r <<- Math_random ;;
     let pipeline :=
       [ZRemRangeByScore key (now - window)%Z;
        ZCard key;
        ZAdd key now (member_name now r);
        Expire key windowSeconds] in
     results <<- exec client pipeline ;;
     if (length results <? 2)%nat then throwL (Err "Pipeline execution failed")
     else
       let currentCount := nth 1 results 0%Z in
       let allowed := (currentCount <? limit)%Z in
       let remaining := Z.max 0 (limit - currentCount) in
       let resetTime := (now + window)%Z in
       retL {| allowed := allowed; remaining := remaining; resetTime := resetTime |})
    (fun error =>
       _ <<- in_world (logger LError "Rate limit check error:" (Some error)) ;;
       now <<- Date_now ;;
       retL {| allowed := true; remaining := limit;
               resetTime := (now + windowSeconds * 1000)%Z |}).

(** [rateLimit.getLimitInfo(identifier, windowSeconds)]. *)
Definition getLimitInfo (identifier : string) (windowSeconds : Z) : L LimitInfo :=
  try_catchL
    (client <<- in_world getRedisClient ;;
     let key := limit_key identifier in
     now <<- Date_now ;;
     let window := (windowSeconds * 1000)%Z in
     _ <<- send client (ZRemRangeByScore key (now - window)%Z) ;;
     count <<- send client (ZCard key) ;;
     retL {| count := count; info_resetTime := (now + window)%Z |})
    (fun error =>
       _ <<- in_world (logger LError "Rate limit info error:" (Some error)) ;;
       now <<- Date_now ;;
       retL {| count := 0; info_resetTime := (now + windowSeconds * 1000)%Z |}).

(** Requests of one identifier, checked one after the other at the given
    times: the answers, and the world afterwards. *)
Fixpoint checked_at (identifier : string) (limit windowSeconds : Z) (times : list Z)
    (s : Limits) : list (Completion LimitCheck) * Limits :=
  match times with
  | [] => ([], s)
  | t :: rest =>
      let '(r, s1) := checkLimit identifier limit windowSeconds (at_time t s) in
      let '(rs, s2) := checked_at identifier limit windowSeconds rest s1 in
      (r :: rs, s2)
  end.

(** The names the members of these requests are given. *)
Definition names_at (times : list Z) (s : Limits) : list string :=
  imap (fun i t => member_name t (random s (drawn s + i))) times.

(** The requests of a key that count at time [t] for a window of
    [windowSeconds]. *)
Definition in_window (identifier : string) (windowSeconds : Z) (s : Limits) : Z :=
  zcard (fst (zremrangebyscore (millis s - windowSeconds * 1000)
                (current (millis s) (sorted s !! limit_key identifier)))).

(** The key has not expired at [t]. *)
Definition alive (t : Z) (k : option SortedSet) : Prop :=
  match k with
  | Some z => match deadline z with Some d => (t < d)%Z | None => True end
  | None => True
  end.


(** Splits the reply of a command from the set it leaves. *)
Ltac split_reply :=
  match goal with
  | |- context [zremrangebyscore ?a ?b] => destruct (zremrangebyscore a b) as [[?|] ?]
  | |- context [zadd ?a ?b ?c] => destruct (zadd a b c) as [[?|] ?]
  | |- context [expire ?a ?b ?c] => destruct (expire a b c) as [[?|] ?]
  | |- context [zcard (current ?t ?k)] => destruct (current t k) as [?|]
  end.

(** The members of the set under a key, none if the key does not exist. *)
Definition members_of (k : option SortedSet) : list (string * Z) :=
  match k with
  | Some z => members z
  | None => []
  end.

(** ** [config/logger.js]: what the log format removes

    The values are finite trees, as [JSON.parse] builds them (a request
    body, a reply); what the format does on an object that refers to
    itself is in [logger] above. A string is its sequence of code units,
    all below 256 here: on these [toLowerCase] is the function below, and
    a string with a code unit beyond them is outside this development. *)

(** [toLowerCase] on a code unit: the capital letters of ASCII and of
    Latin-1 ([À] to [Þ], the sign [×] apart) have their small letter 32
    places further. *)
Definition lower_unit (c : ascii) : ascii :=
  let n := nat_of_ascii c in
  if ((65 <=? n) && (n <=? 90))%nat
     || ((192 <=? n) && (n <=? 222) && negb (n =? 215))%nat
  then ascii_of_nat (n + 32) else c.

(** [key.toLowerCase()]. *)
Fixpoint toLowerCase (s : string) : string :=
  match s with
  | EmptyString => EmptyString
  | String c rest => String (lower_unit c) (toLowerCase rest)
  end.

Definition sensitiveKeys : list string :=
  ["password"; "token"; "apiKey"; "secret"; "authorization";
   "email"; "phone"; "ssn"; "creditCard"; "bankAccount"].

(** [sensitiveKeys.some(sensitive => lowerKey.includes(sensitive))]. *)
Definition is_sensitive (key : string) : bool :=
  let lowerKey := toLowerCase key in
  existsb (fun sensitive => includes sensitive lowerKey) sensitiveKeys.

(** [typeof value === 'object' && value !== null]. *)
Definition is_object (v : value) : bool :=
  match v with
  | VArr _ | VObj _ => true
  | _ => false
  end.

(** [sanitizeLogData(data)]. The entries of an array are its elements
    under their indices, which hold digits and none of the words: an
    element is never redacted for its key. In an object
    [sanitized[key] = ...] adds the property [key], but for the key
    [__proto__]: that assignment goes to the setter of [Object.prototype],
    which makes an object or [null] the prototype of [sanitized] and does
    nothing with another value, so that [sanitized] gets no property of
    that name. *)
Fixpoint sanitizeLogData (data : value) : value :=
  match data with
  | VArr items =>
      VArr (map (fun value => if is_object value then sanitizeLogData value else value)
              items)
  | VObj fields =>
      VObj ((fix entries (l : list (string * value)) : list (string * value) :=
               match l with
               | [] => []
               | (key, value) :: rest =>
                   let assigned :=
                     if is_sensitive key then VStr "[REDACTED]"
                     else if is_object value then sanitizeLogData value
                     else value in
                   if String.eqb key "__proto__" then entries rest
                   else (key, assigned) :: entries rest
               end) fields)
  | _ => data
  end.

(** No object, at any depth, has a property of its own named [__proto__]. *)
Fixpoint proto_free (v : value) : bool :=
  match v with
  | VArr items => forallb proto_free items
  | VObj fields =>
      (fix all (l : list (string * value)) : bool :=
         match l with
         | [] => true
         | (key, x) :: rest =>
             negb (String.eqb key "__proto__") && proto_free x && all rest
         end) fields
  | _ => true
  end.

(** The keys [sanitized[key] = ...] adds a property for. *)
Definition adds_property (key : string) : bool := negb (String.eqb key "__proto__").

(** No property, at any depth, has a name that is sensitive and a value
    other than the mark of redaction. *)
Fixpoint redacted (v : value) : bool :=
  match v with
  | VArr items => forallb redacted items
  | VObj fields =>
      (fix all (l : list (string * value)) : bool :=
         match l with
         | [] => true
         | (key, x) :: rest =>
             (if is_sensitive key
              then match x with VStr s => String.eqb s "[REDACTED]" | _ => false end
              else redacted x) && all rest
         end) fields
  | _ => true
  end.

(** The names of the properties of an object, in their order. *)
Definition keys_of (v : value) : list string :=
  match v with
  | VObj fields => fields.*1
  | _ => []
  end.

(** A code unit occurs in a string. *)
Fixpoint has_unit (a : ascii) (s : string) : bool :=
  match s with
  | EmptyString => false
  | String c rest => Ascii.eqb a c || has_unit a rest
  end.

(** A capital letter of ASCII. *)
Definition is_capital (c : ascii) : bool :=
  ((65 <=? nat_of_ascii c) && (nat_of_ascii c <=? 90))%nat.

(** The entries of the object [sanitizeLogData] returns. *)
Definition sanitized_entry (kv : string * value) : string * value :=
  (fst kv, if is_sensitive (fst kv) then VStr "[REDACTED]" else sanitizeLogData (snd kv)).

(** An entry is as [redacted] wants it. *)
Definition entry_redacted (kv : string * value) : bool :=
  if is_sensitive (fst kv)
  then match snd kv with VStr s => String.eqb s "[REDACTED]" | _ => false end
  else redacted (snd kv).

(** An entry is as [proto_free] wants it. *)
Definition entry_proto_free (kv : string * value) : bool :=
  adds_property (fst kv) && proto_free (snd kv).

Section ValueInduction.
Variable P : value -> Prop.
Hypothesis on_undefined : P VUndef.
Hypothesis on_null : P VNull.
Hypothesis on_bool : forall b, P (VBool b).
Hypothesis on_number : forall n, P (VNum n).
Hypothesis on_string : forall s, P (VStr s).
Hypothesis on_array : forall items, Forall P items -> P (VArr items).
Hypothesis on_object : forall fields, Forall (fun kv => P (snd kv)) fields -> P (VObj fields).

(** Induction on a value, through its elements and properties. *)
Fixpoint value_induction (v : value) : P v :=
  match v with
  | VUndef => on_undefined
  | VNull => on_null
  | VBool b => on_bool b
  | VNum n => on_number n
  | VStr s => on_string s
  | VArr items =>
      on_array items
        ((fix all (l : list value) : Forall P l :=
            match l with
            | [] => @List.Forall_nil _ P
            | x :: rest => @List.Forall_cons _ P x rest (value_induction x) (all rest)
            end) items)
  | VObj fields =>
      on_object fields
        ((fix all (l : list (string * value)) : Forall (fun kv => P (snd kv)) l :=
            match l with
            | [] => @List.Forall_nil _ (fun kv => P (snd kv))
            | kv :: rest =>
                @List.Forall_cons _ (fun kv => P (snd kv)) kv rest
                  (value_induction (snd kv)) (all rest)
            end) fields)
  end.

End ValueInduction.

(** ** [config/redis.js]: the [reconnectStrategy] of [connectRedis]

    The client calls it with the number of attempts made so far when the
    connection is lost; [false] ([None] here) stops it from trying again,
    a number is the delay in milliseconds before the next attempt. *)
Definition reconnectStrategy (retries : Z) : M (option Z) :=
  if (10 <? retries)%Z then
    logger LError "Redis connection failed after 10 retries" None ;;;
    ret None
  else ret (Some (Z.min (retries * 100) 3000)).

(** The body of an OpenAI reply whose first choice carries [t]. *)
Definition openai_reply (t : value) : value :=
  VObj [("choices", VArr [VObj [("message", VObj [("content", t)])]])].

(** A limiter that has recorded nothing, a little after 22:13 UTC on
    14 November 2023. *)
Definition sample_limits (w : World) : Limits :=
  {| outer := w; millis := 1700000000000; sorted := ∅;
     random := fun n => "0." +:+ pretty n +:+ "1"; drawn := 0 |}.

(** * Properties *)

(** ** The logger *)

(** An error without a cycle is logged with its message. *)
Lemma logger_plain (lvl : LogLevel) (msg : string) (e : Error) (w : World) :
  circular e = false ->
  logger lvl msg (Some e) w
  = (Normal tt, add_log {| level := lvl; text := msg; detail := Some (message e) |} w).
Proof. unfold logger. cbn. intros ->. reflexivity. Qed.

(** An error that holds a cycle is not: the call throws. *)
Lemma logger_circular (lvl : LogLevel) (msg : string) (e : Error) (w : World) :
  circular e = true -> logger lvl msg (Some e) w = (Throw stack_exhausted, w).
Proof. unfold logger. cbn. intros ->. reflexivity. Qed.

(** ** What the computations leave alone *)

Lemma extends_refl (w : World) : extends w w.
Proof. split; try reflexivity; exists []; reflexivity. Qed.

Lemma extends_trans (w1 w2 w3 : World) :
  extends w1 w2 -> extends w2 w3 -> extends w1 w3.
Proof.
  intros [c1 n1 [l1 L1] [p1 P1]] [c2 n2 [l2 L2] [p2 P2]]. split.
  - congruence.
  - congruence.
  - exists (l2 ++ l1)%list. rewrite L2, L1. apply app_assoc.
  - exists (p2 ++ p1)%list. rewrite P2, P1. apply app_assoc.
Qed.

Lemma extends_add_log (e : LogEntry) (w : World) : extends w (add_log e w).
Proof. split; try reflexivity; [exists [e] | exists []]; reflexivity. Qed.

Lemma extends_add_post (u : string) (w : World) : extends w (add_post u w).
Proof. split; try reflexivity; [exists [] | exists [u]]; reflexivity. Qed.

Lemma extends_set_replies (r : list HttpReply) (w : World) : extends w (set_replies r w).
Proof. split; try reflexivity; exists []; reflexivity. Qed.

Lemma extends_set_redis (c : option RedisClient) (w : World) : extends w (set_redis c w).
Proof. split; try reflexivity; exists []; reflexivity. Qed.

Lemma preserves_ret {A} (a : A) : preserves (ret a).
Proof. intros w res w' [= <- <-]. apply extends_refl. Qed.

Lemma preserves_throw {A} (e : Error) : preserves (@throw A e).
Proof. intros w res w' [= <- <-]. apply extends_refl. Qed.

Lemma preserves_lift {A} (c : Completion A) : preserves (lift c).
Proof. intros w res w' [= <- <-]. apply extends_refl. Qed.

Lemma preserves_bind {A B} (m : M A) (k : A -> M B) :
  preserves m -> (forall a, preserves (k a)) -> preserves (bind m k).
Proof.
  intros Hm Hk w res w'. unfold bind.
  destruct (m w) as [[a|e] w1] eqn:E.
  - intros E'. eapply extends_trans; [eapply Hm, E | eapply Hk, E'].
  - intros [= <- <-]. eapply Hm, E.
Qed.

Lemma preserves_try_catch {A} (m : M A) (h : Error -> M A) :
  preserves m -> (forall e, preserves (h e)) -> preserves (try_catch m h).
Proof.
  intros Hm Hh w res w'. unfold try_catch.
  destruct (m w) as [[a|e] w1] eqn:E.
  - intros [= <- <-]. eapply Hm, E.
  - intros E'. eapply extends_trans; [eapply Hm, E | eapply Hh, E'].
Qed.

Lemma preserves_logger (lvl : LogLevel) (msg : string) (err : option Error) :
  preserves (logger lvl msg err).
Proof.
  intros w res w'. unfold logger.
  destruct (from_option circular false err); intros [= <- <-];
    [apply extends_refl|apply extends_add_log].
Qed.

Lemma preserves_getRedisClient : preserves getRedisClient.
Proof.
  intros w res w'. unfold getRedisClient.
  destruct (redisClient w) as [c|]; [destruct (isOpen c)|];
    intros [= <- <-]; apply extends_refl.
Qed.

Lemma preserves_client_get (c : RedisClient) (key : string) : preserves (client_get c key).
Proof.
  intros w res w'. unfold client_get.
  destruct (online c); [destruct (store c !! key) as [e|]; [destruct (live (now w) e)|]|];
    intros [= <- <-]; apply extends_refl.
Qed.

Lemma preserves_client_setEx (c : RedisClient) (key : string) (ttl : Z) (t : redis_string) :
  preserves (client_setEx c key ttl t).
Proof.
  intros w res w'. unfold client_setEx.
  destruct (online c); [destruct (0 <? ttl)%Z|];
    intros [= <- <-]; auto using extends_refl, extends_set_redis.
Qed.

Lemma preserves_client_del (c : RedisClient) (key : string) : preserves (client_del c key).
Proof.
  intros w res w'. unfold client_del.
  destruct (online c); intros [= <- <-]; auto using extends_refl, extends_set_redis.
Qed.

Lemma preserves_axios_post (url : string) : preserves (axios_post url).
Proof.
  intros w res w'. unfold axios_post, posted.
  destruct (head (replies w)) as [[status data| |msg]|];
    [destruct (is_2xx status)|..];
    intros [= <- <-];
    eauto using extends_trans, extends_add_post, extends_set_replies.
Qed.

#[export] Hint Resolve preserves_ret preserves_throw preserves_lift preserves_logger
  preserves_getRedisClient preserves_client_get preserves_client_setEx
  preserves_client_del preserves_axios_post : frame.

Section Frames.
Context `{Host}.

Lemma preserves_parse_stored (stored : option redis_string) : preserves (parse_stored stored).
Proof. unfold parse_stored.
  frame_with @preserves_bind @preserves_try_catch.
Qed.

Lemma preserves_stringify (v : value) : preserves (stringify v).
Proof. unfold stringify.
  frame_with @preserves_bind @preserves_try_catch.
Qed.

Hint Resolve preserves_parse_stored preserves_stringify : frame.

Lemma preserves_cache_get (key : string) : preserves (cache_get key).
Proof. unfold cache_get, redis_get.
  frame_with @preserves_bind @preserves_try_catch.
Qed.

Lemma preserves_cache_set (key : string) (v : value) (ttl : Z) : preserves (cache_set key v ttl).
Proof. unfold cache_set, redis_set.
  frame_with @preserves_bind @preserves_try_catch.
Qed.

Lemma preserves_cache_delete (key : string) : preserves (cache_delete key).
Proof. unfold cache_delete, redis_del.
  frame_with @preserves_bind @preserves_try_catch.
Qed.

Hint Resolve preserves_cache_get preserves_cache_set preserves_cache_delete : frame.

Lemma preserves_analyzeText (p : ModelProvider) (request : AnalysisRequest) :
  preserves (analyzeText p request).
Proof.
  unfold analyzeText, Gemini_analyzeText, OpenAI_analyzeText, Local_analyzeText,
    Gemini_parseAnalysisResponse, OpenAI_parseAnalysisResponse.
  destruct (class p); frame_with @preserves_bind @preserves_try_catch.
Qed.

Lemma preserves_chat (p : ModelProvider) (request : ChatRequest) :
  preserves (chat p request).
Proof.
  unfold chat, Gemini_chat, OpenAI_chat, Local_chat,
    Gemini_parseChatResponse, OpenAI_parseChatResponse.
  destruct (class p); frame_with @preserves_bind @preserves_try_catch.
Qed.

End Frames.

(** ** The cache helper never raises *)

Section CacheFacts.
Context `{Host}.

Lemma getRedisClient_unavailable (w : World) :
  redisClient w = None \/ (exists c, redisClient w = Some c /\ isOpen c = false) ->
  getRedisClient w = (Throw not_connected, w).
Proof.
  unfold getRedisClient. intros [-> | (c & -> & ->)]; reflexivity.
Qed.

Lemma redis_get_unavailable (key : string) (w : World) :
  unavailable w -> exists e, redis_get key w = (Throw e, w).
Proof.
  unfold unavailable, redis_get, bind, getRedisClient, client_get.
  destruct (redisClient w) as [c|]; [|eauto].
  destruct (isOpen c); [|eauto].
  intros [?| ->]; [discriminate|eauto].
Qed.

Lemma redis_set_unavailable (key : string) (v : value) (ttl : Z) (w : World) :
  unavailable w -> exists e, redis_set key v ttl w = (Throw e, w).
Proof.
  unfold unavailable, redis_set, bind, getRedisClient, stringify, client_setEx.
  destruct (redisClient w) as [c|]; [|eauto].
  destruct (isOpen c); [|eauto].
  intros [?| ->]; [discriminate|].
  destruct (json_image v); cbn; eauto.
Qed.

Lemma redis_del_unavailable (key : string) (w : World) :
  unavailable w -> exists e, redis_del key w = (Throw e, w).
Proof.
  unfold unavailable, redis_del, bind, getRedisClient, client_del.
  destruct (redisClient w) as [c|]; [|eauto].
  destruct (isOpen c); [|eauto].
  intros [?| ->]; [discriminate|eauto].
Qed.

(** The commands fail with errors of the client and of the language,
    which hold no cycle. *)
Lemma redis_get_plain (key : string) (w w1 : World) (e : Error) :
  redis_get key w = (Throw e, w1) -> circular e = false.
Proof.
  unfold redis_get, bind, getRedisClient, client_get, parse_stored, ret, throw.
  destruct (redisClient w) as [c|]; [|now intros [= <- _]].
  destruct (isOpen c); [|now intros [= <- _]].
  destruct (online c); [|now intros [= <- _]].
  destruct (store c !! key) as [[[v|s] exp]|]; cbn; try discriminate.
  - destruct (live (now w) _); discriminate.
  - destruct (live (now w) _); [|discriminate].
    destruct (string_nonempty s); [destruct (JSON_parse s)|]; try discriminate.
    now intros [= <- _].
Qed.

Lemma redis_set_plain (key : string) (v : value) (ttl : Z) (w w1 : World) (e : Error) :
  redis_set key v ttl w = (Throw e, w1) -> circular e = false.
Proof.
  unfold redis_set, bind, getRedisClient, stringify, client_setEx, ret, throw.
  destruct (redisClient w) as [c|]; [|now intros [= <- _]].
  destruct (isOpen c); [|now intros [= <- _]].
  destruct (json_image v); [|now intros [= <- _]].
  destruct (online c); [|now intros [= <- _]].
  destruct (0 <? ttl)%Z; [discriminate|now intros [= <- _]].
Qed.

Lemma redis_del_plain (key : string) (w w1 : World) (e : Error) :
  redis_del key w = (Throw e, w1) -> circular e = false.
Proof.
  unfold redis_del, bind, getRedisClient, client_del.
  destruct (redisClient w) as [c|]; [|now intros [= <- _]].
  destruct (isOpen c); [|now intros [= <- _]].
  destruct (online c); [discriminate|now intros [= <- _]].
Qed.

Lemma cache_get_cases (key : string) (w : World) :
  (exists x w1, redis_get key w = (Normal x, w1) /\ cache_get key w = (Normal x, w1)) \/
  (exists e w1, redis_get key w = (Throw e, w1) /\
     cache_get key w = (Normal VNull, add_log (error_entry "Cache get error:" e) w1)).
Proof.
  unfold cache_get, try_catch.
  destruct (redis_get key w) as [[x|e] w1] eqn:E; [left; eauto|right].
  exists e, w1. split; [reflexivity|].
  unfold bind. now rewrite (logger_plain _ _ _ _ (redis_get_plain _ _ _ _ E)).
Qed.

Lemma cache_set_cases (key : string) (v : value) (ttl : Z) (w : World) :
  (exists w1, redis_set key v ttl w = (Normal tt, w1) /\ cache_set key v ttl w = (Normal tt, w1)) \/
  (exists e w1, redis_set key v ttl w = (Throw e, w1) /\
     cache_set key v ttl w = (Normal tt, add_log (error_entry "Cache set error:" e) w1)).
Proof.
  unfold cache_set, try_catch.
  destruct (redis_set key v ttl w) as [[[]|e] w1] eqn:E; [left; eauto|right].
  exists e, w1. split; [reflexivity|].
  now rewrite (logger_plain _ _ _ _ (redis_set_plain _ _ _ _ _ _ E)).
Qed.

Lemma cache_delete_cases (key : string) (w : World) :
  (exists w1, redis_del key w = (Normal tt, w1) /\ cache_delete key w = (Normal tt, w1)) \/
  (exists e w1, redis_del key w = (Throw e, w1) /\
     cache_delete key w = (Normal tt, add_log (error_entry "Cache delete error:" e) w1)).
Proof.
  unfold cache_delete, try_catch.
  destruct (redis_del key w) as [[[]|e] w1] eqn:E; [left; eauto|right].
  exists e, w1. split; [reflexivity|].
  now rewrite (logger_plain _ _ _ _ (redis_del_plain _ _ _ _ E)).
Qed.

Lemma cache_get_absent (key : string) (w : World) :
  ~ unavailable w -> absent key w -> cache_get key w = (Normal VNull, w).
Proof.
  unfold unavailable, absent, cache_get, try_catch, redis_get, bind, getRedisClient, client_get.
  destruct (redisClient w) as [c|]; [|tauto].
  destruct (isOpen c); [|tauto]. destruct (online c); [|tauto].
  intros _. destruct (store c !! key) as [e|]; [intros ->|]; reflexivity.
Qed.

End CacheFacts.


(** C7. Every operation of the cache helper is best-effort. Whatever the
    state of Redis, [cache.get], [cache.set] and [cache.delete] return
    normally; when the underlying command fails (no client, closed
    client, unanswered command, unreadable text), [cache.get] logs the
    error and returns [null], which is also what it returns for a key that
    is absent, and [cache.set] and [cache.delete] log the error and return. *)
Theorem cache_operations_best_effort `{Host} (key : string) (v : value) (ttl : Z) (w : World) :
  (exists x w', cache_get key w = (Normal x, w')) /\
  (exists w', cache_set key v ttl w = (Normal tt, w')) /\
  (exists w', cache_delete key w = (Normal tt, w')) /\
  (forall e w1, redis_get key w = (Throw e, w1) ->
     cache_get key w = (Normal VNull, add_log (error_entry "Cache get error:" e) w1)) /\
  (forall e w1, redis_set key v ttl w = (Throw e, w1) ->
     cache_set key v ttl w = (Normal tt, add_log (error_entry "Cache set error:" e) w1)) /\
  (forall e w1, redis_del key w = (Throw e, w1) ->
     cache_delete key w = (Normal tt, add_log (error_entry "Cache delete error:" e) w1)) /\
  (unavailable w ->
     (exists e, redis_get key w = (Throw e, w)) /\
     (exists e, redis_set key v ttl w = (Throw e, w)) /\
     (exists e, redis_del key w = (Throw e, w))) /\
  (~ unavailable w -> absent key w -> cache_get key w = (Normal VNull, w)).
Proof.
  repeat split.
  - destruct (cache_get_cases key w) as [(x & w1 & _ & E)|(e & w1 & _ & E)]; eauto.
  - destruct (cache_set_cases key v ttl w) as [(w1 & _ & E)|(e & w1 & _ & E)]; eauto.
  - destruct (cache_delete_cases key w) as [(w1 & _ & E)|(e & w1 & _ & E)]; eauto.
  - intros e w1 E.
    destruct (cache_get_cases key w) as [(x & w' & E' & _)|(e' & w' & E' & G)];
      rewrite E in E'; [discriminate|]. now injection E' as <- <-.
  - intros e w1 E.
    destruct (cache_set_cases key v ttl w) as [(w' & E' & _)|(e' & w' & E' & G)];
      rewrite E in E'; [discriminate|]. now injection E' as <- <-.
  - intros e w1 E.
    destruct (cache_delete_cases key w) as [(w' & E' & _)|(e' & w' & E' & G)];
      rewrite E in E'; [discriminate|]. now injection E' as <- <-.
  - now apply redis_get_unavailable.
  - now apply redis_set_unavailable.
  - now apply redis_del_unavailable.
  - apply cache_get_absent.
Qed.

(** The connection is lost: the lookup is logged and answers [null]. *)
Example cache_get_without_redis :
  @cache_get sample_host "analysis:1406f00b198a38b7:gemini-free" (world_down [])
  = (Normal VNull,
     add_log (error_entry "Cache get error:" not_connected) (world_down [])).
Proof. reflexivity. Qed.

(** The key holds a text that is no JSON: logged, and [null] again. *)
Example cache_get_unreadable_text :
  exists w',
    @cache_get sample_host "analysis:1406f00b198a38b7:gemini-free"
      (set_redis
         (Some {| isOpen := true; online := true;
                  store := {["analysis:1406f00b198a38b7:gemini-free"
                             := (PlainText "<html>", 9999%Z)]} |})
         (world_up []))
    = (Normal VNull, w') /\
    log w' = [error_entry "Cache get error:" (Err "Unexpected token in JSON")].
Proof. eexists. split; vm_compute; reflexivity. Qed.

(** ** Responses are well formed *)

Section Responses.
Context `{Host}.

Lemma or_else_defined (a b : value) : defined b = true -> defined (or_else a b) = true.
Proof. unfold or_else. destruct a; cbn; auto. destruct b0; auto. destruct (negb _); auto. destruct (string_nonempty s); auto. Qed.

Lemma clamp01_num (x v : value) : clamp01 x = Normal v -> exists n, v = VNum n.
Proof.
  unfold clamp01, and_then. destruct (ToNumber x); [|discriminate].
  intros [= <-]. eauto.
Qed.

Lemma response_of_parsed_shape (p : ModelProvider) (parsed r : value) :
  response_of_parsed p parsed = Normal r -> is_response r = true.
Proof.
  unfold response_of_parsed, and_then.
  destruct (get parsed "score") as [s|]; [|discriminate].
  destruct (clamp01 (or_else s (num 0))) as [s'|] eqn:Es; [|discriminate].
  destruct (get parsed "label") as [l|]; [|discriminate].
  destruct (get parsed "reasons") as [rs|]; [|discriminate].
  destruct (get parsed "explanation") as [ex|]; [|discriminate].
  destruct (get parsed "confidence") as [c|]; [|discriminate].
  destruct (clamp01 (or_else c (num (1 # 2)))) as [c'|] eqn:Ec; [|discriminate].
  intros [= <-].
  apply clamp01_num in Es as [n ->]. apply clamp01_num in Ec as [m ->].
  assert (Hl : defined (or_else l (VStr "uncertain")) = true) by now apply or_else_defined.
  assert (He : defined (or_else ex (VStr "Analysis completed")) = true) by now apply or_else_defined.
  destruct rs; cbn; rewrite Hl, He; reflexivity.
Qed.

Lemma parse_content_shape (p : ModelProvider) (content : value) (who : string) (r : value) :
  parse_content p content who = Normal r -> is_response r = true.
Proof.
  unfold parse_content, and_then.
  destruct (negb (truthy content)); [discriminate|].
  destruct (content_match content) as [jm|]; [|discriminate].
  destruct jm as [matched|]; [|discriminate].
  destruct (JSON_parse matched); [|discriminate].
  apply response_of_parsed_shape.
Qed.

Lemma parse_of_shape (p : ModelProvider) (data r : value) :
  parse_of p data = Normal r -> is_response r = true.
Proof.
  unfold parse_of, Gemini_parse, OpenAI_parse, and_then.
  destruct (class p); [| |discriminate].
  - destruct (Gemini_content data); [|discriminate]. apply parse_content_shape.
  - destruct (OpenAI_content data); [|discriminate]. apply parse_content_shape.
Qed.

Lemma parse_failure_shape (p : ModelProvider) : is_response (parse_failure_response p) = true.
Proof. reflexivity. Qed.

Lemma json_image_defined (v : value) :
  defined v = true -> exists j, json_image v = Some j /\ defined j = true.
Proof.
  destruct v as [| | |[]| | |]; cbn; intros; try discriminate; eauto.
Qed.

Lemma is_response_inv (r : value) :
  is_response r = true ->
  exists s l items e c m pr,
    r = VObj [("score", s); ("label", l); ("reasons", VArr items); ("explanation", e);
              ("confidence", c); ("model", VStr m); ("provider", VStr pr)]
    /\ defined s = true /\ defined l = true /\ defined e = true /\ defined c = true.
Proof.
  intros Hr. unfold is_response in Hr.
  repeat match type of Hr with
         | context [match ?x with _ => _ end] => destruct x; try discriminate Hr
         end.
  rewrite !andb_true_iff in Hr.
  destruct Hr as [[[[[[[[[[K1 K2] K3] K4] K5] K6] K7] Ds] Dl] De] Dc].
  apply String.eqb_eq in K1, K2, K3, K4, K5, K6, K7. subst.
  repeat eexists; eauto.
Qed.

Lemma json_image_response (r : value) :
  is_response r = true -> exists j, json_image r = Some j /\ is_response j = true.
Proof.
  intros (s & l & items & e & c & m & pr & -> & Ds & Dl & De & Dc)%is_response_inv.
  destruct (json_image_defined _ Ds) as (s' & Es & Ds').
  destruct (json_image_defined _ Dl) as (l' & El & Dl').
  destruct (json_image_defined _ De) as (e' & Ee & De').
  destruct (json_image_defined _ Dc) as (c' & Ec & Dc').
  eexists. split.
  - cbn [json_image]. rewrite Es, El, Ee, Ec. reflexivity.
  - cbn [is_response String.eqb Ascii.eqb Bool.eqb andb]. rewrite Ds', Dl', De', Dc'. reflexivity.
Qed.

Lemma response_truthy (r : value) : is_response r = true -> truthy r = true.
Proof. destruct r; try discriminate. reflexivity. Qed.

End Responses.

(** ** The errors of the parsers

    What the parsers throw are errors of the language and their own: the
    logger writes them. *)

Lemma plain_normal {A} (a : A) : plain (Normal a).
Proof. intros e. discriminate. Qed.

Lemma plain_err {A} (msg : string) : plain (@Throw A (Err msg)).
Proof. now intros e [= <-]. Qed.

Lemma plain_and_then {A B} (c : Completion A) (k : A -> Completion B) :
  plain c -> (forall a, plain (k a)) -> plain (and_then c k).
Proof.
  intros Hc Hk e. destruct c as [a|e']; cbn; [apply Hk|].
  intros [= <-]. now apply Hc.
Qed.

Lemma plain_get (v : value) (name : string) : plain (get v name).
Proof. destruct v; first [apply plain_normal | apply plain_err]. Qed.

#[export] Hint Resolve plain_normal plain_err plain_get : plain.

Section ParserErrors.
Context `{Host}.

Lemma plain_clamp01 (x : value) : plain (clamp01 x).
Proof. unfold clamp01, ToNumber, TypeError. plain_with @plain_and_then. Qed.

Hint Resolve plain_clamp01 : plain.

Lemma plain_response_of_parsed (p : ModelProvider) (parsed : value) :
  plain (response_of_parsed p parsed).
Proof. unfold response_of_parsed. plain_with @plain_and_then. Qed.

Hint Resolve plain_response_of_parsed : plain.

Lemma plain_parse_content (p : ModelProvider) (content : value) (who : string) :
  plain (parse_content p content who).
Proof. unfold parse_content, content_match, TypeError. plain_with @plain_and_then. Qed.

Hint Resolve plain_parse_content : plain.

Lemma plain_parse_of (p : ModelProvider) (data : value) : plain (parse_of p data).
Proof.
  unfold parse_of, Gemini_parse, OpenAI_parse, Gemini_content, OpenAI_content.
  plain_with @plain_and_then.
Qed.

End ParserErrors.

(** ** The remote methods, case by case *)

Lemma log_only_refl (w : World) : log_only w w.
Proof. repeat split. Qed.

Lemma log_only_trans (w1 w2 w3 : World) : log_only w1 w2 -> log_only w2 w3 -> log_only w1 w3.
Proof. unfold log_only. intuition congruence. Qed.

Lemma log_only_add_log (e : LogEntry) (w : World) : log_only w (add_log e w).
Proof. repeat split. Qed.

Lemma log_only_serving (c : RedisClient) (w w' : World) :
  log_only w w' -> serving c w -> serving c w'.
Proof. intros (E & _) (S1 & S2 & S3). repeat split; congruence. Qed.

Section RemoteCalls.
Context `{Host}.

Lemma redis_get_world (key : string) (w w1 : World) (res : Completion value) :
  redis_get key w = (res, w1) -> w1 = w.
Proof.
  unfold redis_get, bind, getRedisClient, client_get, parse_stored, ret, throw.
  destruct (redisClient w) as [c|]; [|congruence].
  destruct (isOpen c); [|congruence]. destruct (online c); [|congruence].
  destruct (store c !! key) as [[[v|s] exp]|]; cbn; try congruence.
  - destruct (live (now w) _); congruence.
  - destruct (live (now w) _); [|congruence].
    destruct (string_nonempty s); [destruct (JSON_parse s)|]; congruence.
Qed.

Lemma cache_get_world (key : string) (w w1 : World) (res : Completion value) :
  cache_get key w = (res, w1) -> (exists v, res = Normal v) /\ log_only w w1.
Proof.
  destruct (cache_get_cases key w) as [(x & w' & E & ->)|(e & w' & E & ->)];
    apply redis_get_world in E as ->; intros [= <- <-]; split; eauto.
  - apply log_only_refl.
  - apply log_only_add_log.
Qed.

Lemma cache_get_log (key : string) (w w1 : World) (res : Completion value) :
  cache_get key w = (res, w1) -> lookup_logged w w1.
Proof.
  destruct (cache_get_cases key w) as [(x & w' & E & ->)|(e & w' & E & ->)];
    apply redis_get_world in E as ->; intros [= <- <-] entry; [now left|].
  intros [<-|I]; [now right|now left].
Qed.

Lemma misses_world (key : string) (w : World) :
  misses key w ->
  exists v w1, cache_get key w = (Normal v, w1) /\ truthy v = false /\ log_only w w1.
Proof.
  intros (v & w1 & E & T). exists v, w1. repeat split; auto; now apply (cache_get_world _ _ _ _ E).
Qed.

Lemma axios_post_resolved (url : string) (data : value) (w : World) :
  next_resolves data w -> axios_post url w = (Normal data, posted url w).
Proof.
  intros (status & rest & E & S). unfold axios_post. rewrite E. cbn. rewrite S. reflexivity.
Qed.

Lemma axios_post_rejected (url : string) (w : World) :
  next_rejected w -> exists msg, axios_post url w = (Throw (AxiosError msg), posted url w).
Proof.
  unfold next_rejected, axios_post.
  destruct (replies w) as [|[status data| |msg] rest]; cbn; eauto.
  intros ->. eauto.
Qed.

(** Every error of [axios.post] holds the request. *)
Lemma axios_post_circular (url : string) (w w' : World) (e : Error) :
  axios_post url w = (Throw e, w') -> circular e = true.
Proof.
  unfold axios_post.
  destruct (head (replies w)) as [[status data| |msg]|];
    [destruct (is_2xx status); [discriminate|]|..]; now intros [= <- _].
Qed.

Lemma next_resolves_log_only (data : value) (w w' : World) :
  log_only w w' -> next_resolves data w -> next_resolves data w'.
Proof. intros (_ & _ & E & _). unfold next_resolves. now rewrite E. Qed.

Lemma next_rejected_log_only (w w' : World) :
  log_only w w' -> next_rejected w -> next_rejected w'.
Proof. intros (_ & _ & E & _). unfold next_rejected. now rewrite E. Qed.

Lemma cache_set_serving (key : string) (v j : value) (ttl : Z) (c : RedisClient) (w : World) :
  serving c w -> json_image v = Some j -> (0 < ttl)%Z ->
  cache_set key v ttl w = (Normal tt, set_redis (Some (stored_in c key j (now w + ttl)%Z)) w).
Proof.
  intros (E & O & L) J T.
  unfold cache_set, try_catch, redis_set, bind, getRedisClient, stringify, client_setEx,
    stored_in.
  rewrite E, O, J. cbn. rewrite L.
  destruct (Z.ltb_spec 0 ttl); [|lia]. rewrite ?O, ?L. reflexivity.
Qed.

Lemma cache_get_live (key : string) (j : value) (exp : Z) (c : RedisClient) (w : World) :
  serving c w -> store c !! key = Some (JsonText j, exp) -> (now w < exp)%Z ->
  cache_get key w = (Normal j, w).
Proof.
  intros (E & O & L) S T.
  unfold cache_get, try_catch, redis_get, bind, getRedisClient, client_get, live.
  rewrite E, O, L, S. cbn.
  destruct (Z.ltb_spec (now w) exp); [reflexivity|lia].
Qed.

Section Generic.
Variables (hit_msg err_msg fail_msg url : string) (parse : value -> M value)
  (key : string) (ttl : Z).

Lemma remote_call_hit (v : value) (w w1 : World) :
  cache_get key w = (Normal v, w1) -> truthy v = true ->
  remote_call hit_msg err_msg fail_msg url parse key ttl w = (Normal v, add_log (debug_entry hit_msg) w1).
Proof.
  intros E T. unfold remote_call, bind. rewrite E, T. reflexivity.
Qed.

(** A rejected request: the call of [logger.error] in the [catch] throws
    on the error of [axios], and the method fails with that error of the
    logger, its own line not written and its own error not thrown. *)
Lemma remote_call_rejected (w : World) :
  misses key w -> next_rejected w ->
  exists w1,
    log_only w w1 /\ lookup_logged w w1 /\
    remote_call hit_msg err_msg fail_msg url parse key ttl w
    = (Throw stack_exhausted, posted url w1).
Proof.
  intros (v & w1 & E & T & L)%misses_world R.
  destruct (axios_post_rejected url w1) as [msg P]; [eapply next_rejected_log_only; eauto|].
  exists w1. split; [assumption|]. split; [exact (cache_get_log _ _ _ _ E)|].
  unfold remote_call, bind, try_catch. rewrite E, T, P. reflexivity.
Qed.

(** Whatever made the method fail, the error it throws holds no cycle: it
    is the error of the logger or the method's own. *)
Lemma remote_call_plain (w w' : World) (e : Error) :
  remote_call hit_msg err_msg fail_msg url parse key ttl w = (Throw e, w') ->
  circular e = false.
Proof.
  unfold remote_call, bind.
  destruct (cache_get key w) as [cached w1] eqn:G.
  destruct (cache_get_world _ _ _ _ G) as ((v & ->) & _).
  destruct (truthy v); [discriminate|].
  unfold try_catch, bind, logger, throw.
  destruct (axios_post url w1) as [[data|e0] w2]; cbn [from_option].
  - destruct (parse data w2) as [[r|e1] w3].
    + destruct (cache_set key r ttl w3) as [[[]|e2] w4]; [discriminate|].
      destruct (circular e2); now intros [= <- _].
    + destruct (circular e1); now intros [= <- _].
  - destruct (circular e0); now intros [= <- _].
Qed.

Lemma remote_call_resolved (data : value) (w : World) :
  (forall w', exists r w'', parse data w' = (Normal r, w'')) ->
  misses key w -> next_resolves data w ->
  exists r w1 w2 w3,
    log_only w w1 /\
    parse data (posted url w1) = (Normal r, w2) /\
    cache_set key r ttl w2 = (Normal tt, w3) /\
    remote_call hit_msg err_msg fail_msg url parse key ttl w = (Normal r, w3).
Proof.
  intros Hp (v & w1 & E & T & L)%misses_world R.
  pose proof (axios_post_resolved url data w1 (next_resolves_log_only _ _ _ L R)) as P.
  destruct (Hp (posted url w1)) as (r & w2 & Er).
  assert (exists w3, cache_set key r ttl w2 = (Normal tt, w3)) as [w3 Es].
  { destruct (cache_set_cases key r ttl w2) as [(? & _ & ?)|(? & ? & _ & ?)]; eauto. }
  exists r, w1, w2, w3. split; [exact L|]. split; [exact Er|]. split; [exact Es|].
  unfold remote_call, bind, try_catch. rewrite E, T, P, Er, Es. reflexivity.
Qed.

End Generic.

End RemoteCalls.

(** ** The providers *)

Section Providers.
Context `{Host}.

Lemma analyzeText_remote (p : ModelProvider) (request : AnalysisRequest) :
  remote p ->
  analyzeText p request
  = remote_call (hit_msg p "analysis") (err_msg p "analysis") (fail_msg p "analysis")
      (url_of p) (parseAnalysisResponse p) (analysis_key p request) 3600.
Proof.
  unfold remote, analyzeText, hit_msg, err_msg, fail_msg, who, url_of, parseAnalysisResponse.
  destruct (class p); [reflexivity|reflexivity|congruence].
Qed.

Lemma chat_remote (p : ModelProvider) (request : ChatRequest) :
  remote p ->
  chat p request
  = remote_call (hit_msg p "chat") (err_msg p "chat") (fail_msg p "chat")
      (url_of p) (parseChatResponse p) (chat_key p request) 1800.
Proof.
  unfold remote, chat, hit_msg, err_msg, fail_msg, who, url_of, parseChatResponse.
  destruct (class p); [reflexivity|reflexivity|congruence].
Qed.

(** A parser: its steps in a [try], and a [catch] that logs the error and
    returns a value of its own. *)
Lemma try_catch_lift_plain {A} (c : Completion A) (msg : string) (a0 : A) (w : World) :
  plain c ->
  try_catch (lift c) (fun error => logger LError msg (Some error) ;;; ret a0) w
  = match c with
    | Normal a => (Normal a, w)
    | Throw e => (Normal a0, add_log (error_entry msg e) w)
    end.
Proof.
  intros Pl. unfold try_catch, lift, bind. destruct c as [a|e]; [reflexivity|].
  now rewrite logger_plain by now apply Pl.
Qed.

Lemma parseAnalysisResponse_eq (p : ModelProvider) (data : value) (w : World) :
  remote p ->
  parseAnalysisResponse p data w
  = match parse_of p data with
    | Normal r => (Normal r, w)
    | Throw e => (Normal (parse_failure_response p), add_log (error_entry (parse_err_msg p) e) w)
    end.
Proof.
  pose proof (plain_parse_of p data) as Pl. revert Pl.
  unfold remote, parseAnalysisResponse, parse_of, parse_err_msg, who,
    Gemini_parseAnalysisResponse, OpenAI_parseAnalysisResponse, try_catch, lift, bind.
  destruct (class p); [| |congruence]; intros Pl _.
  - destruct (Gemini_parse p data) as [r|e]; [reflexivity|].
    now rewrite logger_plain by now apply Pl.
  - destruct (OpenAI_parse p data) as [r|e]; [reflexivity|].
    now rewrite logger_plain by now apply Pl.
Qed.

Lemma parseAnalysisResponse_total (p : ModelProvider) (data : value) (w : World) :
  remote p ->
  exists r w', parseAnalysisResponse p data w = (Normal r, w')
               /\ log_only w w' /\ is_response r = true.
Proof.
  intros R. rewrite parseAnalysisResponse_eq by assumption.
  destruct (parse_of p data) as [r|e] eqn:E.
  - exists r, w. repeat split. eapply parse_of_shape, E.
  - eexists _, _. split; [reflexivity|]. split; [apply log_only_add_log|reflexivity].
Qed.

Lemma parseChatResponse_total (p : ModelProvider) (data : value) (w : World) :
  remote p ->
  exists fields w', parseChatResponse p data w = (Normal (VObj fields), w') /\ log_only w w'.
Proof.
  unfold remote, parseChatResponse, Gemini_parseChatResponse, OpenAI_parseChatResponse.
  destruct (class p); [| |congruence]; intros _.
  all: rewrite try_catch_lift_plain
    by (unfold Gemini_content, OpenAI_content, content_trim, TypeError;
        plain_with @plain_and_then).
  all: unfold and_then, chat_failure_response, chat_response.
  - destruct (Gemini_content data) as [content|e];
      [destruct (negb (truthy content)); [|destruct (content_trim content)]|];
      eexists _, _; (split; [reflexivity|]);
      first [apply log_only_refl | apply log_only_add_log].
  - destruct (OpenAI_content data) as [content|e];
      [destruct (negb (truthy content)); [|destruct (content_trim content)]|];
      eexists _, _; (split; [reflexivity|]);
      first [apply log_only_refl | apply log_only_add_log].
Qed.

Lemma json_image_object (fields : list (string * value)) :
  exists fields', json_image (VObj fields) = Some (VObj fields').
Proof. cbn. eauto. Qed.

(** A value found in the cache is returned as it is, with a line of log. *)
Lemma analyzeText_cached (p : ModelProvider) (request : AnalysisRequest)
    (c : RedisClient) (j : value) (exp : Z) (w : World) :
  remote p -> serving c w ->
  store c !! analysis_key p request = Some (JsonText j, exp) ->
  (now w < exp)%Z -> truthy j = true ->
  analyzeText p request w = (Normal j, add_log (debug_entry (hit_msg p "analysis")) w).
Proof.
  intros R S L T J. rewrite analyzeText_remote by assumption.
  eapply remote_call_hit; [eapply cache_get_live; eauto|assumption].
Qed.

(** A fresh answer: the request is posted once, the response parsed, and
    its text stored for an hour. *)
Lemma analyzeText_fresh (p : ModelProvider) (request : AnalysisRequest)
    (c : RedisClient) (data : value) (w : World) :
  remote p -> serving c w -> misses (analysis_key p request) w -> next_resolves data w ->
  exists r j w1,
    analyzeText p request w = (Normal r, w1) /\
    is_response r = true /\
    r = match parse_of p data with Normal r' => r' | Throw _ => parse_failure_response p end /\
    json_image r = Some j /\ is_response j = true /\
    redisClient w1 = Some (stored_in c (analysis_key p request) j (now w + 3600)%Z) /\
    posts w1 = url_of p :: posts w /\ replies w1 = tail (replies w) /\
    now w1 = now w /\ calls w1 = calls w.
Proof.
  intros R S M N. rewrite analyzeText_remote by assumption.
  destruct (remote_call_resolved (hit_msg p "analysis") (err_msg p "analysis")
              (fail_msg p "analysis") (url_of p) (parseAnalysisResponse p)
              (analysis_key p request) 3600 data w)
    as (r & w1 & w2 & w3 & L1 & P & C & E); auto.
  { intros w'. destruct (parseAnalysisResponse_total p data w' R) as (r & w'' & ? & _); eauto. }
  destruct (parseAnalysisResponse_total p data (posted (url_of p) w1) R)
    as (r' & w2' & P' & L2 & Shape).
  rewrite P in P'. injection P' as <- <-.
  destruct (json_image_response r Shape) as (j & J & Shape').
  assert (S2 : serving c w2).
  { destruct L1 as (E1 & _), L2 as (E2 & _), S as (S1 & S2 & S3).
    repeat split; auto. rewrite E2. cbn. congruence. }
  rewrite (cache_set_serving _ _ _ _ _ _ S2 J) in C by lia. injection C as <-.
  exists r, j. eexists. split; [exact E|]. split; [exact Shape|]. split.
  { rewrite parseAnalysisResponse_eq in P by assumption.
    destruct (parse_of p data); now injection P as <- _. }
  split; [exact J|]. split; [exact Shape'|].
  destruct L1 as (_ & N1 & R1 & P1 & C1), L2 as (_ & N2 & R2 & P2 & C2). cbn in *.
  repeat split; congruence.
Qed.

(** A rejected request: the provider fails with the error of the logger. *)
Lemma analyzeText_rejected (p : ModelProvider) (request : AnalysisRequest) (w : World) :
  remote p -> misses (analysis_key p request) w -> next_rejected w ->
  exists w1,
    log_only w w1 /\ lookup_logged w w1 /\
    analyzeText p request w = (Throw stack_exhausted, posted (url_of p) w1).
Proof.
  intros R M N. rewrite analyzeText_remote by assumption.
  now apply remote_call_rejected.
Qed.

(** The errors of the providers hold no cycle. *)
Lemma analyzeText_plain (p : ModelProvider) (request : AnalysisRequest) (w w' : World)
    (e : Error) :
  analyzeText p request w = (Throw e, w') -> circular e = false.
Proof.
  destruct (class p) eqn:Cl.
  3: { unfold analyzeText. rewrite Cl. discriminate. }
  all: rewrite analyzeText_remote by (unfold remote; congruence).
  all: apply remote_call_plain.
Qed.

Lemma chat_plain (p : ModelProvider) (request : ChatRequest) (w w' : World) (e : Error) :
  chat p request w = (Throw e, w') -> circular e = false.
Proof.
  destruct (class p) eqn:Cl.
  3: { unfold chat. rewrite Cl. discriminate. }
  all: rewrite chat_remote by (unfold remote; congruence).
  all: apply remote_call_plain.
Qed.

(** The local provider answers with its placeholder, whatever the world. *)
Lemma analyzeText_local (p : ModelProvider) (request : AnalysisRequest) (w : World) :
  class p = LocalProvider ->
  exists r w', analyzeText p request w = (Normal r, w') /\ is_response r = true /\ log_only w w'.
Proof.
  intros E. unfold analyzeText. rewrite E. eexists _, _. split; [reflexivity|].
  split; [reflexivity|apply log_only_add_log].
Qed.

End Providers.

(** ** The bridge *)

Section BridgeFacts.
Context `{Host}.

Lemma cache_get_frame (key : string) (w w' : World) :
  redisClient w' = redisClient w -> now w' = now w ->
  fst (cache_get key w') = fst (cache_get key w).
Proof.
  intros E N.
  unfold cache_get, try_catch, redis_get, bind, getRedisClient, client_get, parse_stored,
    logger, ret, throw.
  rewrite E.
  destruct (redisClient w) as [c|]; [|reflexivity].
  destruct (isOpen c); [|reflexivity]. destruct (online c); [|reflexivity].
  rewrite N.
  destruct (store c !! key) as [[[v|s] exp]|]; cbn; try reflexivity.
  - destruct (live (now w) _); reflexivity.
  - destruct (live (now w) _); [|reflexivity].
    destruct (string_nonempty s); [destruct (JSON_parse s)|]; reflexivity.
Qed.

Lemma misses_frame (key : string) (w w' : World) :
  redisClient w' = redisClient w -> now w' = now w -> misses key w -> misses key w'.
Proof.
  intros E N (v & w1 & G & T).
  pose proof (cache_get_frame key w w' E N) as F. rewrite G in F. cbn in F.
  destruct (cache_get key w') as [res w1'] eqn:G'. cbn in F. subst res.
  exists v, w1'. split; [exact G'|assumption].
Qed.

Lemma initializeProviders_shape (config : Config) (w0 w0' : World) (b : ModelBridge) :
  initializeProviders config w0 = (Normal b, w0') ->
  fallbackProvider b = 0%nat /\
  match primary_instance config with
  | Some p => heap b = [p] /\ providers b !! "primary" = Some 0%nat
  | None => heap b = [spare_instance config] /\ providers b !! "primary" = None
  end.
Proof.
  unfold initializeProviders, primary_instance, spare_instance, getModelConfig, new, bind,
    logger, ret.
  destruct config as [mp mn gk ok lo hi rep]. cbn.
  intros E. cbn in E.
  destruct mp; cbn in E;
    destruct (key_given gk) eqn:G, (key_given ok) eqn:O;
    repeat first [ rewrite lookup_insert_eq in E
                 | rewrite lookup_empty in E
                 | rewrite lookup_insert_ne in E by discriminate
                 | progress cbn in E ];
    injection E as <- _; cbn;
    repeat first [ rewrite lookup_insert_eq
                 | rewrite lookup_empty
                 | rewrite lookup_insert_ne by discriminate ];
    auto.
Qed.

Lemma initializeProviders_total (config : Config) (w0 : World) :
  exists b w0', initializeProviders config w0 = (Normal b, w0').
Proof.
  unfold initializeProviders, bind, logger, ret. cbn [from_option].
  repeat match goal with
         | |- context [let '(_, _) := ?x in _] => destruct x
         end.
  eauto.
Qed.

Lemma call_analyzeText_eq (b : ModelBridge) (slot : Slot) (r : nat) (p : ModelProvider)
    (request : AnalysisRequest) (w : World) :
  heap b !! r = Some p ->
  call_analyzeText b slot r request w
  = analyzeText p request (add_call (call_of slot r request) w).
Proof. unfold call_analyzeText. intros ->. reflexivity. Qed.

Lemma primary_analyzeText_eq (b : ModelBridge) (r : nat) (p : ModelProvider)
    (request : AnalysisRequest) (w : World) :
  providers b !! "primary" = Some r -> heap b !! r = Some p ->
  primary_analyzeText b request w
  = analyzeText p request (add_call (call_of PrimarySlot r request) w).
Proof. unfold primary_analyzeText. intros ->. apply call_analyzeText_eq. Qed.

Lemma call_analyzeText_plain (b : ModelBridge) (slot : Slot) (r : nat)
    (request : AnalysisRequest) (w w' : World) (e : Error) :
  call_analyzeText b slot r request w = (Throw e, w') -> circular e = false.
Proof.
  unfold call_analyzeText. destruct (heap b !! r) as [p|].
  - apply analyzeText_plain.
  - now intros [= <- _].
Qed.

Lemma call_chat_plain (b : ModelBridge) (slot : Slot) (r : nat)
    (request : ChatRequest) (w w' : World) (e : Error) :
  call_chat b slot r request w = (Throw e, w') -> circular e = false.
Proof.
  unfold call_chat. destruct (heap b !! r) as [p|].
  - apply chat_plain.
  - now intros [= <- _].
Qed.

Lemma primary_analyzeText_plain (b : ModelBridge) (request : AnalysisRequest)
    (w w' : World) (e : Error) :
  primary_analyzeText b request w = (Throw e, w') -> circular e = false.
Proof.
  unfold primary_analyzeText. destruct (providers b !! "primary") as [r|].
  - apply call_analyzeText_plain.
  - now intros [= <- _].
Qed.

Lemma bridge_primary_answers (b : ModelBridge) (request : AnalysisRequest)
    (w w1 : World) (r : value) :
  primary_analyzeText b request w = (Normal r, w1) ->
  ModelBridge_analyzeText b request w = (Normal r, w1).
Proof. unfold ModelBridge_analyzeText, try_catch. intros ->. reflexivity. Qed.

Lemma bridge_primary_fails (b : ModelBridge) (request : AnalysisRequest)
    (w w1 : World) (e : Error) :
  primary_analyzeText b request w = (Throw e, w1) ->
  ModelBridge_analyzeText b request w
  = match fallback_analyzeText b request
            (add_log (warn_entry "Primary model provider failed, trying fallback:" e) w1) with
    | (Normal r, w2) => (Normal r, w2)
    | (Throw e2, w2) =>
        (Normal emergency_response,
         add_log (error_entry "All model providers failed:" e2) w2)
    end.
Proof.
  intros P. unfold ModelBridge_analyzeText, try_catch, bind. rewrite P.
  rewrite logger_plain by exact (primary_analyzeText_plain _ _ _ _ _ P).
  fold (warn_entry "Primary model provider failed, trying fallback:" e).
  destruct (fallback_analyzeText b request _) as [[r|e2] w2] eqn:F; [reflexivity|].
  now rewrite logger_plain by exact (call_analyzeText_plain _ _ _ _ _ _ _ F).
Qed.

End BridgeFacts.

(** ** The bridge always answers *)

Section WellFormed.
Context `{Host}.

Lemma cache_wf_log_only (w w' : World) : log_only w w' -> cache_wf w -> cache_wf w'.
Proof. intros (E & _). unfold cache_wf. now rewrite E. Qed.

Lemma analysis_key_prefix (p : ModelProvider) (request : AnalysisRequest) :
  startsWith "analysis:" (analysis_key p request) = true.
Proof. reflexivity. Qed.

Lemma redis_get_decoded (key : string) (w w1 : World) (v : value) :
  redis_get key w = (Normal v, w1) ->
  v = VNull \/
  exists c e, redisClient w = Some c /\ store c !! key = Some e /\ decoded (fst e) = Some v.
Proof.
  unfold redis_get, bind, getRedisClient, client_get, parse_stored, ret, throw.
  destruct (redisClient w) as [c|]; [|discriminate].
  destruct (isOpen c); [|discriminate]. destruct (online c); [|discriminate].
  destruct (store c !! key) as [[t exp]|] eqn:S; cbn; [|intros [= <- _]; auto].
  destruct (live (now w) _); [|intros [= <- _]; auto].
  destruct t as [j|s]; cbn.
  - intros [= -> _]. right. exists c, (JsonText v, exp). auto.
  - destruct (string_nonempty s) eqn:Ne; [|intros [= <- _]; auto].
    destruct (JSON_parse s) eqn:J; [|discriminate].
    intros [= -> _]. right. exists c, (PlainText s, exp). cbn. rewrite Ne. auto.
Qed.

Lemma cache_get_wf (key : string) (w w1 : World) (v : value) :
  cache_wf w -> startsWith "analysis:" key = true ->
  cache_get key w = (Normal v, w1) -> truthy v = true -> is_response v = true.
Proof.
  intros Wf K G T.
  destruct (cache_get_cases key w) as [(x & w' & E & G')|(e & w' & _ & G')];
    rewrite G in G'; injection G' as -> ->; [|discriminate].
  apply redis_get_decoded in E as [->|(c & e & C & S & D)]; [discriminate|].
  exact (Wf c key e x C S K D T).
Qed.

Lemma cache_set_wf (key : string) (r : value) (ttl : Z) (w w' : World)
    (res : Completion unit) :
  cache_wf w -> is_response r = true ->
  cache_set key r ttl w = (res, w') -> cache_wf w'.
Proof.
  intros Wf Shape.
  destruct (json_image_response r Shape) as (j & J & Shape').
  unfold cache_set, try_catch, redis_set, bind, getRedisClient, stringify, client_setEx,
    logger, ret, throw.
  rewrite J.
  destruct (redisClient w) as [c|] eqn:C; [|intros [= _ <-]; exact Wf].
  destruct (isOpen c); [|intros [= _ <-]; exact Wf]. cbn.
  destruct (online c); [|intros [= _ <-]; exact Wf].
  destruct (0 <? ttl)%Z; [|intros [= _ <-]; exact Wf].
  intros [= _ <-]. unfold cache_wf. cbn.
  intros c' key' e v [= <-]. cbn. rewrite lookup_insert.
  destruct (decide (key = key')) as [->|Ne].
  - intros [= <-]. cbn. intros _ [= <-] _. exact Shape'.
  - intros S. exact (Wf c key' e v C S).
Qed.

Lemma analyzeText_wf (p : ModelProvider) (request : AnalysisRequest) (w w' : World)
    (res : Completion value) :
  cache_wf w -> analyzeText p request w = (res, w') ->
  cache_wf w' /\ forall r, res = Normal r -> is_response r = true.
Proof.
  intros Wf. destruct (class p) eqn:Cl.
  3: { destruct (analyzeText_local p request w Cl) as (r & w1 & -> & Shape & L).
       intros [= <- <-]. split; [eapply cache_wf_log_only; eauto|]. now intros ? [= <-]. }
  all: assert (R : remote p) by (unfold remote; congruence).
  all: rewrite analyzeText_remote by assumption; unfold remote_call, bind.
  all: destruct (cache_get (analysis_key p request) w) as [cached w1] eqn:G.
  all: destruct (cache_get_world _ _ _ _ G) as ((v & ->) & L1).
  all: pose proof (cache_wf_log_only _ _ L1 Wf) as Wf1.
  all: destruct (truthy v) eqn:T.
  1,3: intros [= <- <-]; split; [exact Wf1|]; intros ? [= <-];
       exact (cache_get_wf _ w w1 v Wf (analysis_key_prefix p request) G T).
  all: unfold try_catch, bind, ret, throw.
  all: destruct (axios_post (url_of p) w1) as [[data|e] w2] eqn:P.
  2,4: rewrite (logger_circular _ _ _ _ (axios_post_circular _ _ _ _ P));
       intros [= <- <-]; split; [|discriminate];
       unfold axios_post in P; unfold cache_wf in *;
       destruct (head (replies w1)) as [[st d| |m]|];
       [destruct (is_2xx st)|..]; injection P as _ <-; exact Wf1.
  all: assert (Wf2 : cache_wf w2)
    by (unfold axios_post in P; unfold cache_wf in *;
        destruct (head (replies w1)) as [[st d| |m]|];
        [destruct (is_2xx st)|..]; injection P as _ <-; exact Wf1).
  all: destruct (parseAnalysisResponse_total p data w2 R) as (r & w3 & -> & L3 & Shape).
  all: pose proof (cache_wf_log_only _ _ L3 Wf2) as Wf3.
  all: destruct (cache_set (analysis_key p request) r 3600 w3) as [stored w4] eqn:Cs.
  all: pose proof (cache_set_wf _ _ _ _ _ _ Wf3 Shape Cs) as Wf4.
  all: assert (stored = Normal tt) as ->
    by (destruct (cache_set_cases (analysis_key p request) r 3600 w3)
          as [(? & _ & X)|(? & ? & _ & X)]; rewrite Cs in X; now injection X).
  all: intros [= <- <-]; split; [exact Wf4|]; now intros ? [= <-].
Qed.

Lemma call_analyzeText_wf (b : ModelBridge) (slot : Slot) (r : nat)
    (request : AnalysisRequest) (w w' : World) (res : Completion value) :
  cache_wf w -> call_analyzeText b slot r request w = (res, w') ->
  cache_wf w' /\ forall x, res = Normal x -> is_response x = true.
Proof.
  intros Wf. unfold call_analyzeText.
  destruct (heap b !! r) as [p|].
  - apply analyzeText_wf. exact Wf.
  - intros [= <- <-]. split; [exact Wf|discriminate].
Qed.

Lemma primary_analyzeText_wf (b : ModelBridge) (request : AnalysisRequest) (w w' : World)
    (res : Completion value) :
  cache_wf w -> primary_analyzeText b request w = (res, w') ->
  cache_wf w' /\ forall x, res = Normal x -> is_response x = true.
Proof.
  intros Wf. unfold primary_analyzeText.
  destruct (providers b !! "primary") as [r|].
  - now apply call_analyzeText_wf.
  - intros [= <- <-]. split; [exact Wf|discriminate].
Qed.

Lemma cache_set_elsewhere_wf (key : string) (v : value) (ttl : Z) (w w' : World)
    (res : Completion unit) :
  cache_wf w -> startsWith "analysis:" key = false ->
  cache_set key v ttl w = (res, w') -> cache_wf w'.
Proof.
  intros Wf K.
  unfold cache_set, try_catch, redis_set, bind, getRedisClient, stringify, client_setEx,
    logger, ret, throw.
  destruct (redisClient w) as [c|] eqn:C; [|intros [= _ <-]; exact Wf].
  destruct (isOpen c); [|intros [= _ <-]; exact Wf].
  destruct (json_image v) as [j|]; [|intros [= _ <-]; exact Wf]. cbn.
  destruct (online c); [|intros [= _ <-]; exact Wf].
  destruct (0 <? ttl)%Z; [|intros [= _ <-]; exact Wf].
  intros [= _ <-]. unfold cache_wf. cbn [redisClient set_redis].
  intros c' key' e x [= <-]. cbn [store]. rewrite lookup_insert.
  destruct (decide (key = key')) as [->|Ne].
  - intros _ K'. congruence.
  - intros S. exact (Wf c key' e x C S).
Qed.

Lemma chat_key_elsewhere (p : ModelProvider) (request : ChatRequest) :
  startsWith "analysis:" (chat_key p request) = false.
Proof. reflexivity. Qed.

(** The chat methods write under keys of their own and keep the invariant. *)
Lemma chat_wf (p : ModelProvider) (request : ChatRequest) (w w' : World)
    (res : Completion value) :
  cache_wf w -> chat p request w = (res, w') -> cache_wf w'.
Proof.
  intros Wf. destruct (class p) eqn:Cl.
  3: { unfold chat, Local_chat, bind, logger, ret. rewrite Cl. intros [= _ <-]. exact Wf. }
  all: assert (R : remote p) by (unfold remote; congruence).
  all: rewrite chat_remote by assumption; unfold remote_call, bind.
  all: destruct (cache_get (chat_key p request) w) as [cached w1] eqn:G.
  all: destruct (cache_get_world _ _ _ _ G) as ((v & ->) & L1).
  all: pose proof (cache_wf_log_only _ _ L1 Wf) as Wf1.
  all: destruct (truthy v); [intros [= _ <-]; exact Wf1|].
  all: unfold try_catch, bind, ret, throw.
  all: destruct (axios_post (url_of p) w1) as [[data|e] w2] eqn:P.
  all: assert (Wf2 : cache_wf w2)
    by (unfold axios_post in P; unfold cache_wf in *;
        destruct (head (replies w1)) as [[st d| |m]|];
        [destruct (is_2xx st)|..]; injection P as _ <-; exact Wf1).
  2,4: rewrite (logger_circular _ _ _ _ (axios_post_circular _ _ _ _ P));
       intros [= _ <-]; exact Wf2.
  all: destruct (parseChatResponse_total p data w2 R) as (f & w3 & -> & L3).
  all: pose proof (cache_wf_log_only _ _ L3 Wf2) as Wf3.
  all: destruct (cache_set (chat_key p request) (VObj f) 1800 w3) as [stored w4] eqn:Cs.
  all: pose proof (cache_set_elsewhere_wf _ _ _ _ _ _ Wf3 (chat_key_elsewhere p request) Cs)
    as Wf4.
  all: assert (stored = Normal tt) as ->
    by (destruct (cache_set_cases (chat_key p request) (VObj f) 1800 w3)
          as [(? & _ & X)|(? & ? & _ & X)]; rewrite Cs in X; now injection X).
  all: intros [= _ <-]; exact Wf4.
Qed.

(** The invariant holds where the cache is empty or out of reach. *)
Lemma cache_wf_empty (w : World) :
  (forall c, redisClient w = Some c -> store c = ∅) -> cache_wf w.
Proof.
  intros E c key e v C S. rewrite (E c C), lookup_empty in S. discriminate.
Qed.

End WellFormed.

(** The bridge always answers. For every request, bridge and state of the
    world, [ModelBridge.analyzeText] returns normally; when the cache holds
    only what the service stores in it the value returned has the seven
    properties of an [AnalysisResponse] (and the cache stays so); and when
    the call of the primary provider throws and the call of the fallback
    provider throws too, the value is the emergency response: score 0.5,
    label uncertain, confidence 0.1, and the reason that model analysis is
    unavailable. *)
Lemma ModelBridge_analyzeText_resolves `{Host} (b : ModelBridge) (request : AnalysisRequest)
    (w : World) :
  exists r w',
    ModelBridge_analyzeText b request w = (Normal r, w') /\
    (cache_wf w -> is_response r = true /\ cache_wf w') /\
    (forall e1 w1 e2 w2,
       primary_analyzeText b request w = (Throw e1, w1) ->
       fallback_analyzeText b request
         (add_log (warn_entry "Primary model provider failed, trying fallback:" e1) w1)
       = (Throw e2, w2) ->
       r = emergency_response /\
       field r "score" = num (1#2) /\
       field r "label" = VStr "uncertain" /\
       field r "confidence" = num (1#10) /\
       field r "reasons" = VArr [VStr "Model analysis unavailable"]).
Proof.
  destruct (primary_analyzeText b request w) as [[r|e] w1] eqn:P.
  - exists r, w1. split; [now apply bridge_primary_answers|]. split.
    + intros Wf. destruct (primary_analyzeText_wf _ _ _ _ _ Wf P) as (Wf' & Shape). auto.
    + intros ? ? ? ? [=].
  - rewrite (bridge_primary_fails _ _ _ _ _ P).
    destruct (fallback_analyzeText b request _) as [[r|e2] w2] eqn:F.
    + exists r, w2. split; [reflexivity|]. split.
      * intros Wf. destruct (primary_analyzeText_wf _ _ _ _ _ Wf P) as (Wf1 & _).
        destruct (call_analyzeText_wf _ _ _ _ _ _ _ (cache_wf_log_only _ _ (log_only_add_log _ _) Wf1) F)
          as (Wf2 & Shape). auto.
      * intros e1 w1' e2 w2' [= <- <-]. rewrite F. discriminate.
    + eexists _, _. split; [reflexivity|]. split.
      * intros Wf. destruct (primary_analyzeText_wf _ _ _ _ _ Wf P) as (Wf1 & _).
        destruct (call_analyzeText_wf _ _ _ _ _ _ _ (cache_wf_log_only _ _ (log_only_add_log _ _) Wf1) F)
          as (Wf2 & _).
        split; [reflexivity|]. eapply cache_wf_log_only; [apply log_only_add_log|exact Wf2].
      * intros. repeat split.
Qed.

(** [ModelBridge.chat] has the same shape and returns normally too. *)
Lemma chat_always_resolves `{Host} (b : ModelBridge) (request : ChatRequest) (w : World) :
  exists r w', ModelBridge_chat b request w = (Normal r, w').
Proof.
  unfold ModelBridge_chat, try_catch, bind.
  destruct (match providers b !! "primary" with
            | Some primary => call_chat b PrimarySlot primary request
            | None => throw (Err "No primary provider available")
            end w) as [[r|e] w1] eqn:P; [eauto|].
  assert (Pe : circular e = false).
  { destruct (providers b !! "primary"); [eapply call_chat_plain; eauto|].
    now injection P as <- _. }
  rewrite logger_plain by exact Pe.
  destruct (call_chat b FallbackSlot (fallbackProvider b) request _) as [[r|e2] w2] eqn:F;
    [eauto|].
  rewrite logger_plain by exact (call_chat_plain _ _ _ _ _ _ _ F). unfold ret. eauto.
Qed.

Lemma initializeProviders_sample (w : World) :
  exists w', initializeProviders sample_config w = (Normal sample_bridge, w').
Proof. eexists. reflexivity. Qed.

(** Both calls time out: the logger throws on either error of [axios],
    the bridge logs the two failures, and answers with the emergency
    response. *)
Example both_calls_time_out :
  exists w',
    @ModelBridge_analyzeText sample_host sample_bridge sample_request
      (world_down [TimedOut; TimedOut]) = (Normal emergency_response, w') /\
    is_AnalysisResponse emergency_response = true /\
    posts w' = [Gemini_url sample_gemini; Gemini_url sample_gemini] /\
    List.filter (fun entry => negb (String.eqb (text entry) "Cache get error:")) (log w')
    = [error_entry "All model providers failed:" stack_exhausted;
       warn_entry "Primary model provider failed, trying fallback:" stack_exhausted].
Proof. eexists. repeat split; vm_compute; reflexivity. Qed.

(** What the parsers build is an [AnalysisResponse] of the interface when
    the properties of the parsed object have the types the prompt asks
    for, or are missing. *)
Lemma response_of_parsed_typed `{Host} (p : ModelProvider) (fields : list (string * value)) :
  (forall x, assoc "score" fields = Some x -> is_number x = true) ->
  (forall x, assoc "label" fields = Some x -> is_label x = true) ->
  (forall x, assoc "reasons" fields = Some x ->
     match x with VArr items => forallb is_string items = true | _ => True end) ->
  (forall x, assoc "explanation" fields = Some x -> is_string x = true) ->
  (forall x, assoc "confidence" fields = Some x -> is_number x = true) ->
  exists r, response_of_parsed p (VObj fields) = Normal r /\ is_AnalysisResponse r = true.
Proof.
  intros Hs Hl Hr He Hc. unfold response_of_parsed. cbn [get and_then].
  assert (Ns : forall x d, (forall y, x = Some y -> is_number y = true) ->
                 exists n, clamp01 (or_else (default VUndef x) (num d)) = Normal (VNum n)).
  { intros [y|] d Hy; cbn [default from_option id]; [|cbn; eauto].
    specialize (Hy y eq_refl). destruct y; try discriminate Hy.
    unfold or_else. cbn [truthy].
    match goal with |- context [if ?c then _ else _] => destruct c end; cbn; eauto. }
  destruct (Ns _ 0%Q Hs) as (s & ->). destruct (Ns _ (1#2)%Q Hc) as (c & ->).
  cbn [and_then]. eexists. split; [reflexivity|].
  assert (L : is_label (or_else (default VUndef (assoc "label" fields)) (VStr "uncertain"))
              = true).
  { destruct (assoc "label" fields) as [y|]; [|reflexivity].
    specialize (Hl y eq_refl). unfold or_else. cbn [default from_option id].
    destruct (truthy y); [exact Hl|reflexivity]. }
  assert (E : is_string (or_else (default VUndef (assoc "explanation" fields))
                           (VStr "Analysis completed")) = true).
  { destruct (assoc "explanation" fields) as [y|]; [|reflexivity].
    specialize (He y eq_refl). unfold or_else. cbn [default from_option id].
    destruct (truthy y); [exact He|reflexivity]. }
  assert (R : match (if isArray (default VUndef (assoc "reasons" fields))
                     then default VUndef (assoc "reasons" fields) else VArr []) with
              | VArr items => forallb is_string items
              | _ => false
              end = true).
  { destruct (assoc "reasons" fields) as [y|]; [|reflexivity].
    specialize (Hr y eq_refl). cbn [default from_option id]. destruct y; try reflexivity. exact Hr. }
  unfold is_AnalysisResponse, field. cbn -[or_else isArray is_label is_string forallb].
  rewrite L, E, R. reflexivity.
Qed.

(** C1, on the input the code gets wrong. The provider answers
    [{"label":42}]. [parseAnalysisResponse] checks [reasons] with
    [Array.isArray] and gives the properties that are missing their
    defaults, and lets a label that is there through as it is:
    [ModelBridge.analyzeText] returns a response whose label is the number
    42, which is no [AnalysisResponse] of the interface. *)
Theorem ill_typed_label_reaches_the_caller `{Host} (b : ModelBridge) (r0 : nat)
    (p : ModelProvider) (request : AnalysisRequest) (w : World) :
  JSON_parse label_42_text = Some (VObj [("label", num 42)]) ->
  providers b !! "primary" = Some r0 -> heap b !! r0 = Some p ->
  class p = GeminiProvider ->
  misses (analysis_key p request) w ->
  next_resolves (gemini_reply (VStr label_42_text)) w ->
  exists r w',
    ModelBridge_analyzeText b request w = (Normal r, w') /\
    r = VObj [("score", num 0); ("label", num 42); ("reasons", VArr []);
              ("explanation", VStr "Analysis completed"); ("confidence", num (1#2));
              ("model", VStr (modelName p)); ("provider", VStr (provider p))] /\
    is_label (field r "label") = false /\
    is_AnalysisResponse r = false.
Proof.
  intros J Hp Hh Cl M N.
  assert (R : remote p) by (unfold remote; congruence).
  set (cl := call_of PrimarySlot r0 request).
  assert (M' : misses (analysis_key p request) (add_call cl w))
    by (eapply misses_frame; [| |exact M]; reflexivity).
  destruct (remote_call_resolved (hit_msg p "analysis") (err_msg p "analysis")
              (fail_msg p "analysis") (url_of p) (parseAnalysisResponse p)
              (analysis_key p request) 3600 (gemini_reply (VStr label_42_text))
              (add_call cl w))
    as (r & w1 & w2 & w3 & L1 & P & C & E); auto.
  { intros w'.
    destruct (parseAnalysisResponse_total p (gemini_reply (VStr label_42_text)) w' R)
      as (r & w'' & ? & _); eauto. }
  rewrite <- analyzeText_remote in E by assumption.
  rewrite <- (primary_analyzeText_eq b r0 p) in E by assumption.
  apply bridge_primary_answers in E.
  rewrite parseAnalysisResponse_eq in P by assumption.
  assert (Pd : parse_of p (gemini_reply (VStr label_42_text))
               = Normal (VObj [("score", num 0); ("label", num 42); ("reasons", VArr []);
                               ("explanation", VStr "Analysis completed");
                               ("confidence", num (1#2));
                               ("model", VStr (modelName p));
                               ("provider", VStr (provider p))])).
  { unfold parse_of, Gemini_parse, parse_content. rewrite Cl.
    cbn -[label_42_text]. change (match_braces label_42_text) with (Some label_42_text).
    cbn -[label_42_text]. rewrite J. reflexivity. }
  rewrite Pd in P. injection P as <- _.
  eexists _, w3. split; [exact E|]. repeat split.
Qed.

Lemma ill_typed_label_reaches_the_caller_witness :
  exists r w',
    @ModelBridge_analyzeText sample_host sample_bridge sample_request
      (world_up [Response 200 (gemini_reply (VStr label_42_text))]) = (Normal r, w') /\
    field r "label" = num 42 /\
    is_AnalysisResponse r = false.
Proof.
  destruct (@ill_typed_label_reaches_the_caller sample_host sample_bridge 0%nat
              sample_gemini sample_request
              (world_up [Response 200 (gemini_reply (VStr label_42_text))]))
    as (r & w' & E & -> & _ & W); try reflexivity.
  - eexists VNull, _. split; reflexivity.
  - exists 200%Z, []. split; reflexivity.
  - eexists. exists w'. split; [exact E|]. split; [reflexivity|exact W].
Defined.

(** ** Failure of the primary provider *)

Section Fallback.
Context `{Host}.

Lemma primary_analyzeText_calls (b : ModelBridge) (request : AnalysisRequest) (w w1 : World)
    (res : Completion value) :
  primary_analyzeText b request w = (res, w1) ->
  List.filter (through FallbackSlot) (calls w1) = List.filter (through FallbackSlot) (calls w)
  /\ exists l, log w1 = (l ++ log w)%list.
Proof.
  unfold primary_analyzeText, call_analyzeText.
  destruct (providers b !! "primary") as [r|]; [destruct (heap b !! r) as [p|]|].
  - intros E. apply preserves_analyzeText in E as [C _ L _].
    rewrite C. split; [reflexivity|exact L].
  - intros [= _ <-]. split; [reflexivity|now exists []].
  - intros [= _ <-]. split; [reflexivity|now exists []].
Qed.

Lemma bridge_world (b : ModelBridge) (request : AnalysisRequest) (w w1 w2 : World)
    (e : Error) (pf : ModelProvider) (res : Completion value) :
  primary_analyzeText b request w = (Throw e, w1) ->
  heap b !! fallbackProvider b = Some pf ->
  analyzeText pf request
    (add_call (call_of FallbackSlot (fallbackProvider b) request)
       (add_log (warn_entry "Primary model provider failed, trying fallback:" e) w1))
  = (res, w2) ->
  exists r w',
    ModelBridge_analyzeText b request w = (Normal r, w') /\
    calls w' = call_of FallbackSlot (fallbackProvider b) request :: calls w1 /\
    exists l, log w'
              = (l ++ warn_entry "Primary model provider failed, trying fallback:" e :: log w1)%list.
Proof.
  intros P Hf F.
  rewrite (bridge_primary_fails _ _ _ _ _ P).
  unfold fallback_analyzeText. rewrite (call_analyzeText_eq _ _ _ pf) by assumption.
  rewrite F. apply preserves_analyzeText in F as [C _ [l L] _]. cbn in C, L.
  destruct res as [r|e2].
  - exists r, w2. split; [reflexivity|]. split; [exact C|]. exists l. exact L.
  - eexists _, _. split; [reflexivity|]. split; [exact C|].
    exists (error_entry "All model providers failed:" e2 :: l). cbn. now rewrite L.
Qed.

End Fallback.




(** C3, as the code has it. When the call of the primary provider throws,
    the bridge makes exactly one call through the fallback slot, with the
    same request. The bridge holds one provider instance: if a primary
    provider was built, the fallback slot holds that very instance, so the
    provider that failed is the one called again; only when none was built
    does the slot hold another provider, a Gemini instance on the model
    [gemini-free] if a Gemini key is configured and the local stub if not. *)
Theorem fallback_runs_once_on_the_held_instance `{Host} (config : Config) (w0 w0' : World)
    (b : ModelBridge) :
  initializeProviders config w0 = (Normal b, w0') ->
  (forall request w e w1,
     primary_analyzeText b request w = (Throw e, w1) ->
     exists r w',
       ModelBridge_analyzeText b request w = (Normal r, w') /\
       List.filter (through FallbackSlot) (calls w')
       = call_of FallbackSlot (fallbackProvider b) request
         :: List.filter (through FallbackSlot) (calls w)) /\
  length (heap b) = 1%nat /\
  (forall r, providers b !! "primary" = Some r -> fallbackProvider b = r) /\
  (providers b !! "primary" = None ->
   heap b !! fallbackProvider b
   = Some (if key_given (geminiApiKey config)
           then {| class := GeminiProvider; apiKey := geminiApiKey config;
                   modelName := "gemini-free"; provider := "gemini" |}
           else {| class := LocalProvider; apiKey := None;
                   modelName := "local"; provider := "local" |})).
Proof.
  intros I. destruct (initializeProviders_shape _ _ _ _ I) as (Fb & Sh).
  assert (exists pf, heap b = [pf]) as (pf & Hh).
  { destruct (primary_instance config); destruct Sh as (-> & _); eauto. }
  split; [|split; [|split]].
  - intros request w e w1 P.
    destruct (primary_analyzeText_calls _ _ _ _ _ P) as (C1 & _).
    destruct (analyzeText pf request
                (add_call (call_of FallbackSlot (fallbackProvider b) request)
                   (add_log (warn_entry "Primary model provider failed, trying fallback:" e)
                      w1))) as [res w2] eqn:F.
    destruct (bridge_world b request w w1 w2 e pf res P) as (r & w' & B & C & _).
    { now rewrite Fb, Hh. }
    { exact F. }
    exists r, w'. split; [exact B|]. rewrite C. cbn. now rewrite C1.
  - now rewrite Hh.
  - intros r Hr. destruct (primary_instance config); destruct Sh as (_ & Hp); congruence.
  - intros Hn. destruct (primary_instance config); destruct Sh as (Hs & Hp); [congruence|].
    rewrite Fb, Hs. reflexivity.
Qed.

(** The primary provider times out, and the call through the fallback slot
    goes to the same instance, which posts to the same URL again. *)
Lemma fallback_retries_the_failed_instance :
  exists w0 e w1 r w',
    initializeProviders sample_config (world_down []) = (Normal sample_bridge, w0) /\
    @primary_analyzeText sample_host sample_bridge sample_request
      (world_down [TimedOut; Response 200 (gemini_reply (VStr verdict_text))]) = (Throw e, w1) /\
    @ModelBridge_analyzeText sample_host sample_bridge sample_request
      (world_down [TimedOut; Response 200 (gemini_reply (VStr verdict_text))]) = (Normal r, w') /\
    calls w' = [call_of FallbackSlot 0 sample_request; call_of PrimarySlot 0 sample_request] /\
    posts w' = [Gemini_url sample_gemini; Gemini_url sample_gemini] /\
    providers sample_bridge !! "primary" = Some (fallbackProvider sample_bridge).
Proof.
  do 5 eexists. split; [reflexivity|]. split; [vm_compute; reflexivity|].
  split; [vm_compute; reflexivity|]. repeat split.
Qed.

Lemma fallback_runs_once_on_the_held_instance_witness :
  length (heap sample_bridge) = 1%nat /\
  fallbackProvider sample_bridge = 0%nat /\
  exists r w',
    @ModelBridge_analyzeText sample_host sample_bridge sample_request
      (world_down [TimedOut; TimedOut]) = (Normal r, w') /\
    List.filter (through FallbackSlot) (calls w') = [call_of FallbackSlot 0 sample_request].
Proof.
  destruct (initializeProviders_sample (world_down [])) as (w0 & I).
  destruct (@fallback_runs_once_on_the_held_instance sample_host sample_config _ _ _ I)
    as (Once & Len & Same & _).
  split; [exact Len|]. split; [apply Same; reflexivity|].
  destruct (Once sample_request (world_down [TimedOut; TimedOut]) stack_exhausted
              (snd (@primary_analyzeText sample_host sample_bridge sample_request
                      (world_down [TimedOut; TimedOut]))))
    as (r & w' & E & C).
  - vm_compute. reflexivity.
  - exists r, w'. split; [exact E|exact C].
Defined.

(** ** Cache idempotence *)

(** C5, as the code has it. When Redis answers and the provider's reply
    arrives, the request is posted once and the text of the result is
    stored under the key of the request for 3600 seconds; from then on and
    until that time has passed, an identical request returns the stored
    value (the first result as JSON keeps it) and posts nothing. *)
Theorem repeated_request_served_from_cache `{Host} (p : ModelProvider)
    (request : AnalysisRequest) (c : RedisClient) (data : value) (w : World) :
  remote p -> serving c w -> misses (analysis_key p request) w -> next_resolves data w ->
  exists r j w1,
    analyzeText p request w = (Normal r, w1) /\
    json_image r = Some j /\
    redisClient w1 = Some (stored_in c (analysis_key p request) j (now w + 3600)%Z) /\
    posts w1 = url_of p :: posts w /\
    forall w2,
      redisClient w2 = redisClient w1 -> (now w <= now w2 < now w + 3600)%Z ->
      analyzeText p request w2
      = (Normal j, add_log (debug_entry (hit_msg p "analysis")) w2).
Proof.
  intros R S M N.
  destruct (analyzeText_fresh p request c data w R S M N)
    as (r & j & w1 & E & _ & _ & J & Shape & C1 & P1 & _).
  exists r, j, w1. repeat split; auto.
  intros w2 E2 T.
  eapply analyzeText_cached with (c := stored_in c (analysis_key p request) j (now w + 3600)%Z)
                                 (exp := (now w + 3600)%Z); auto.
  - destruct S as (_ & O & L). repeat split; auto. congruence.
  - cbn. apply lookup_insert_eq.
  - lia.
  - now apply response_truthy.
Qed.

(** With Redis unreachable nothing is stored, and two identical requests
    one minute apart are both posted to the provider. *)
Lemma repeated_request_posted_twice :
  exists r1 w1 r2 w2,
    @analyzeText sample_host sample_gemini sample_request
      (world_down [Response 200 (gemini_reply (VStr verdict_text));
                   Response 200 (gemini_reply (VStr verdict_text))])
    = (Normal r1, w1) /\
    @analyzeText sample_host sample_gemini sample_request (elapse 60 w1) = (Normal r2, w2) /\
    posts w2 = [Gemini_url sample_gemini; Gemini_url sample_gemini].
Proof. do 4 eexists. split; [reflexivity|]. split; reflexivity. Qed.

Lemma repeated_request_served_from_cache_witness :
  exists r j w1,
    @analyzeText sample_host sample_gemini sample_request
      (world_up [Response 200 (gemini_reply (VStr verdict_text))]) = (Normal r, w1) /\
    json_image r = Some j /\
    @analyzeText sample_host sample_gemini sample_request (elapse 60 w1)
    = (Normal j, add_log (debug_entry (hit_msg sample_gemini "analysis")) (elapse 60 w1)).
Proof.
  destruct (@repeated_request_served_from_cache sample_host sample_gemini sample_request
              empty_redis (gemini_reply (VStr verdict_text))
              (world_up [Response 200 (gemini_reply (VStr verdict_text))]))
    as (r & j & w1 & E & J & C & _ & Again).
  - unfold remote. cbn. congruence.
  - repeat split.
  - exists VNull, (world_up [Response 200 (gemini_reply (VStr verdict_text))]).
    split; reflexivity.
  - exists 200%Z, []. split; reflexivity.
  - exists r, j, w1. split; [exact E|]. split; [exact J|].
    apply Again; [reflexivity|].
    assert (N : now w1 = 1000%Z).
    { apply (f_equal snd) in E. cbn in E. rewrite <- E. reflexivity. }
    cbn. lia.
Defined.

(** ** Normalisation of a provider's reply *)

Section Clamp.
Context `{Host}.

Lemma Qle_bool_false (a b : Q) : Qle_bool a b = false -> (b < a)%Q.
Proof.
  intros E. apply Qnot_le_lt. intros L. apply Qle_bool_iff in L. congruence.
Qed.

(** On a number that is not [NaN] the clamp gives a number of [[0, 1]]. *)
Lemma clamp_number (n : number) :
  n <> NaN -> in_unit (VNum (Math_max (Fin 0) (Math_min (Fin 1) n))).
Proof.
  destruct n as [| |q|]; [congruence| | |]; intros _; cbn; try (split; discriminate).
  unfold Math_min, Math_max. cbn.
  destruct (Qle_bool 1 q) eqn:E1; cbn.
  - split; discriminate.
  - apply Qle_bool_false in E1.
    destruct (Qle_bool q 0) eqn:E0; cbn.
    + split; discriminate.
    + apply Qle_bool_false in E0. split; apply Qlt_le_weak; assumption.
Qed.

(** [x || d] for a number [d]: a missing or zero score gives [d]. *)
Lemma clamp01_of_number (x : value) (d q : Q) :
  x = VUndef \/ x = VNull \/ (exists n, x = VNum n) ->
  exists v, clamp01 (or_else x (num d)) = Normal v /\ in_unit v.
Proof.
  intros [->|[->|(n & ->)]]; cbn.
  1,2: eexists; split; [reflexivity|]; apply (clamp_number (Fin d)); discriminate.
  unfold or_else. cbn. destruct n as [| |q'|]; cbn.
  - eexists; split; [reflexivity|]; apply (clamp_number (Fin d)); discriminate.
  - eexists; split; [reflexivity|]. apply (clamp_number NegInf). discriminate.
  - destruct (Qeq_bool q' 0); cbn; eexists; (split; [reflexivity|]).
    + apply (clamp_number (Fin d)); discriminate.
    + apply (clamp_number (Fin q')); discriminate.
  - eexists; split; [reflexivity|]. apply (clamp_number PosInf). discriminate.
Qed.

(** What [parseAnalysisResponse] makes of a parsed object whose [score] and
    [confidence] are numbers or missing: both end in [[0, 1]], a missing
    [label] becomes ['uncertain'], missing [reasons] the empty array, a
    missing [explanation] ['Analysis completed']. *)
Lemma response_of_parsed_numbers (p : ModelProvider) (fields : list (string * value)) :
  (forall x, assoc "score" fields = Some x -> x = VNull \/ exists n, x = VNum n) ->
  (forall x, assoc "confidence" fields = Some x -> x = VNull \/ exists n, x = VNum n) ->
  exists r,
    response_of_parsed p (VObj fields) = Normal r /\
    in_unit (field r "score") /\ in_unit (field r "confidence") /\
    (assoc "label" fields = None -> field r "label" = VStr "uncertain") /\
    (assoc "reasons" fields = None -> field r "reasons" = VArr []) /\
    (assoc "explanation" fields = None -> field r "explanation" = VStr "Analysis completed") /\
    field r "model" = VStr (modelName p) /\ field r "provider" = VStr (provider p).
Proof.
  intros Hs Hc. unfold response_of_parsed. cbn [get and_then].
  destruct (clamp01_of_number (default VUndef (assoc "score" fields)) 0 0) as (s & Es & Us).
  { destruct (assoc "score" fields) as [x|] eqn:A; cbn; [|auto].
    destruct (Hs x eq_refl) as [->|?]; auto. }
  destruct (clamp01_of_number (default VUndef (assoc "confidence" fields)) (1#2) 0)
    as (c & Ec & Uc).
  { destruct (assoc "confidence" fields) as [x|] eqn:A; cbn; [|auto].
    destruct (Hc x eq_refl) as [->|?]; auto. }
  rewrite Es, Ec. cbn [and_then]. eexists. split; [reflexivity|].
  cbn. repeat split; auto; intros ->; reflexivity.
Qed.

End Clamp.

(** C6, on the input the code gets wrong. The provider answers
    [{"score":"high"}]: the parsed score is a string that is no number, the
    clamp [Math.max(0, Math.min(1, ...))] yields [NaN], and the response
    returned carries a score outside [[0, 1]]. *)
Theorem nonnumeric_score_is_not_clamped `{Host} (p : ModelProvider) (w : World) :
  JSON_parse score_high_text = Some (VObj [("score", VStr "high")]) ->
  StringToNumber "high" = NaN ->
  exists r,
    Gemini_parseAnalysisResponse p (gemini_reply (VStr score_high_text)) w = (Normal r, w) /\
    field r "score" = VNum NaN /\ ~ in_unit (field r "score") /\
    field r "label" = VStr "uncertain".
Proof.
  intros J S. eexists. split.
  - unfold Gemini_parseAnalysisResponse, try_catch, lift, Gemini_parse, parse_content.
    cbn -[score_high_text]. change (match_braces score_high_text) with (Some score_high_text).
    cbn -[score_high_text]. rewrite J. cbn. rewrite S. cbn. reflexivity.
  - cbn. repeat split. intros [].
Qed.

Lemma nonnumeric_score_is_not_clamped_witness :
  exists r,
    @Gemini_parseAnalysisResponse sample_host sample_gemini
      (gemini_reply (VStr score_high_text)) (world_up []) = (Normal r, world_up []) /\
    field r "score" = VNum NaN.
Proof.
  destruct (@nonnumeric_score_is_not_clamped sample_host sample_gemini (world_up []))
    as (r & E & S & _); [reflexivity|reflexivity|].
  exists r. split; [exact E|exact S].
Defined.

(** The same reply seen from the caller: the bridge returns the score
    [NaN], and what the cache keeps of it is [null]. *)
Example nonnumeric_score_reaches_the_caller :
  exists r w' c,
    @ModelBridge_analyzeText sample_host sample_bridge sample_request
      (world_up [Response 200 (gemini_reply (VStr score_high_text))]) = (Normal r, w') /\
    field r "score" = VNum NaN /\
    redisClient w' = Some c /\
    (fun e => match fst e with JsonText j => field j "score" | PlainText _ => VUndef end)
      <$> store c !! "analysis:1406f00b198a38b7:gemini-free" = Some VNull.
Proof.
  do 3 eexists. split; [vm_compute; reflexivity|]. split; [reflexivity|].
  split; [reflexivity|]. vm_compute. reflexivity.
Qed.

(** ** Thresholds and labels *)

(** The label is a function of the score and of [low] and [high] alone. *)
Lemma label_of_spec (low high score : Q) :
  (low < high)%Q ->
  (label_of low high score = clean <-> (score < low)%Q) /\
  (label_of low high score = suspicious <-> (low <= score /\ score < high)%Q) /\
  (label_of low high score = phishing <-> (high <= score)%Q).
Proof.
  intros LH. unfold label_of.
  destruct (Qle_bool low score) eqn:E1; cbn.
  - apply Qle_bool_iff in E1.
    destruct (Qle_bool high score) eqn:E2; cbn.
    + apply Qle_bool_iff in E2. repeat split; try discriminate; auto; intros F; exfalso.
      * apply (Qlt_irrefl score). eapply Qlt_le_trans; eauto.
      * destruct F as [_ F]. apply (Qlt_irrefl score). eapply Qlt_le_trans; eauto.
    + apply Qle_bool_false in E2. repeat split; try discriminate; auto; intros F; exfalso.
      * apply (Qlt_irrefl score). eapply Qlt_le_trans; eauto.
      * apply (Qlt_irrefl score). eapply Qlt_le_trans; eauto.
  - apply Qle_bool_false in E1. repeat split; try discriminate; auto; intros F; exfalso.
    + destruct F as [F _]. apply (Qlt_irrefl score). eapply Qlt_le_trans; eauto.
    + apply (Qlt_irrefl score). eapply Qlt_le_trans; [exact E1|].
      eapply Qle_trans; [apply Qlt_le_weak, LH|exact F].
Qed.

Example label_just_below_low : label_of (3#10) (7#10) (29#100) = clean.
Proof. reflexivity. Qed.

Example label_just_above_low : label_of (3#10) (7#10) (31#100) = suspicious.
Proof. reflexivity. Qed.

(** Three thresholds that are numbers are refused unless
    [low < high < report]. *)
Lemma thresholds_refused_numbers (low high report : Q) :
  thresholds_refused (Fin low) (Fin high) (Fin report) = false
  <-> (low < high /\ high < report)%Q.
Proof.
  unfold thresholds_refused. cbn. rewrite orb_false_iff. split.
  - intros [A B]. split; now apply Qle_bool_false.
  - intros [A B]. split.
    + destruct (Qle_bool high low) eqn:E; [|reflexivity].
      apply Qle_bool_iff in E. exfalso. apply (Qlt_irrefl low). eapply Qlt_le_trans; eauto.
    + destruct (Qle_bool report high) eqn:E; [|reflexivity].
      apply Qle_bool_iff in E. exfalso. apply (Qlt_irrefl high). eapply Qlt_le_trans; eauto.
Qed.

(** C4, on the input the code gets wrong. With [LOW_THRESHOLD=abc] the
    threshold parses to [NaN], both comparisons of the check are false,
    and the configuration is accepted although [low < high] does not
    hold. *)
Theorem nan_threshold_is_accepted `{Host} :
  parseFloat "abc" = NaN -> parseFloat "0.7" = Fin (7#10) -> parseFloat "0.8" = Fin (8#10) ->
  validateConfig env_bad_threshold = Normal tt /\
  exists config,
    loadConfig env_bad_threshold = Some config /\
    getThresholds config = (NaN, Fin (7#10), Fin (8#10)) /\
    lt (lowThreshold config) (highThreshold config) = false.
Proof.
  intros A B C.
  assert (V : validateConfig env_bad_threshold = Normal tt).
  { unfold validateConfig.
    change (env_bad_threshold !! "DATABASE_URL") with (Some "postgres://localhost/smartshield").
    change (env_bad_threshold !! "MODEL_PROVIDER") with (@None string).
    change (env_or env_bad_threshold "LOW_THRESHOLD" "0.3") with "abc".
    change (env_or env_bad_threshold "HIGH_THRESHOLD" "0.7") with "0.7".
    change (env_or env_bad_threshold "REPORT_THRESHOLD" "0.8") with "0.8".
    rewrite A, B, C. reflexivity. }
  split; [exact V|].
  unfold loadConfig. rewrite V. eexists. split; [reflexivity|].
  unfold getThresholds. cbn [lowThreshold highThreshold reportThreshold].
  change (env_or env_bad_threshold "LOW_THRESHOLD" "0.3") with "abc".
  change (env_or env_bad_threshold "HIGH_THRESHOLD" "0.7") with "0.7".
  change (env_or env_bad_threshold "REPORT_THRESHOLD" "0.8") with "0.8".
  rewrite A, B, C. split; reflexivity.
Qed.

Lemma nan_threshold_is_accepted_witness :
  @validateConfig sample_host env_bad_threshold = Normal tt.
Proof.
  destruct (@nan_threshold_is_accepted sample_host) as [V _];
    [reflexivity|reflexivity|reflexivity|exact V].
Defined.

(** ** Edit distance *)

Section LevenshteinFacts.
Context {A : Type} `{EqDecision A}.

Lemma lev_rec_nil_r (s : list A) : lev_rec s [] = length s.
Proof. destruct s; reflexivity. Qed.

Lemma lev_rec_cons (x y : A) (s t : list A) :
  lev_rec (x :: s) (y :: t)
  = cell x y (lev_rec s t) (lev_rec (x :: s) t) (lev_rec s (y :: t)).
Proof. reflexivity. Qed.

Lemma cell_sym (x y : A) (d l u : nat) : cell x y d l u = cell y x d u l.
Proof.
  unfold cell. destruct (decide (x = y)) as [->|Hne].
  - rewrite decide_True; reflexivity.
  - rewrite decide_False by congruence. f_equal. lia.
Qed.

Lemma lev_rec_sym (s t : list A) : lev_rec s t = lev_rec t s.
Proof.
  revert t. induction s as [|x s IHs]; intros t.
  - symmetry. apply lev_rec_nil_r.
  - induction t as [|y t IHt].
    + reflexivity.
    + rewrite !lev_rec_cons, cell_sym. rewrite IHs, IHt, (IHs (y :: t)). reflexivity.
Qed.

Lemma fill_row_step (x y : A) (s b acc : list A) (d left : nat) :
  fill_row x (y :: b) (d :: row_of s (y :: acc) b) left
  = cell x y d left (lev_rec s (y :: acc))
    :: fill_row x b (row_of s (y :: acc) b) (cell x y d left (lev_rec s (y :: acc))).
Proof. destruct b; reflexivity. Qed.

Lemma fill_row_spec (x : A) (s b acc : list A) :
  fill_row x b (row_of s acc b) (lev_rec (x :: s) acc)
  = List.tail (row_of (x :: s) acc b).
Proof.
  revert acc. induction b as [|y b IH]; intros acc.
  - reflexivity.
  - change (row_of s acc (y :: b)) with (lev_rec s acc :: row_of s (y :: acc) b).
    rewrite fill_row_step, <- lev_rec_cons, IH.
    change (row_of (x :: s) acc (y :: b))
      with (lev_rec (x :: s) acc :: row_of (x :: s) (y :: acc) b).
    cbn [List.tail]. destruct b; reflexivity.
Qed.

Lemma next_row_spec (x : A) (s b : list A) :
  next_row b (row_of s [] b) x = row_of (x :: s) [] b.
Proof.
  unfold next_row. destruct b as [|y b].
  - cbn. rewrite lev_rec_nil_r. reflexivity.
  - change (row_of s [] (y :: b)) with (lev_rec s [] :: row_of s [y] b).
    rewrite lev_rec_nil_r.
    change (S (length s)) with (lev_rec (x :: s) []).
    rewrite <- (lev_rec_nil_r s).
    change (lev_rec s [] :: row_of s [y] b) with (row_of s [] (y :: b)).
    rewrite fill_row_spec. reflexivity.
Qed.

Lemma row_of_nil (acc b : list A) :
  row_of [] acc b = seq (length acc) (S (length b)).
Proof.
  revert acc. induction b as [|y b IH]; intros acc.
  - reflexivity.
  - cbn [row_of length seq]. rewrite IH. reflexivity.
Qed.

Lemma fold_rows (a s b : list A) :
  fold_left (next_row b) a (row_of s [] b) = row_of (rev a ++ s) [] b.
Proof.
  revert s. induction a as [|x a IH]; intros s.
  - reflexivity.
  - cbn [fold_left rev]. rewrite next_row_spec, IH, <- app_assoc. reflexivity.
Qed.

Lemma last_row_of (s acc b : list A) :
  List.last (row_of s acc b) 0%nat = lev_rec s (rev b ++ acc).
Proof.
  revert acc. induction b as [|y b IH]; intros acc.
  - reflexivity.
  - cbn [rev]. rewrite <- app_assoc. cbn [app]. rewrite <- IH.
    cbn [row_of]. destruct b; reflexivity.
Qed.

(** The table computes the recurrence. *)
Lemma levenshtein_rec (a b : list A) :
  levenshtein a b = lev_rec (rev a) (rev b).
Proof.
  unfold levenshtein.
  change (seq 0 (S (length b))) with (seq (length (@nil A)) (S (length b))).
  rewrite <- row_of_nil, fold_rows, last_row_of, !app_nil_r. reflexivity.
Qed.

Lemma levenshtein_sym (a b : list A) : levenshtein a b = levenshtein b a.
Proof. rewrite !levenshtein_rec. apply lev_rec_sym. Qed.

(** The classic recurrence, on the last characters. *)
Lemma levenshtein_nil_l (b : list A) : levenshtein [] b = length b.
Proof. rewrite levenshtein_rec. cbn. apply length_rev. Qed.

Lemma levenshtein_nil_r (a : list A) : levenshtein a [] = length a.
Proof. rewrite levenshtein_rec, lev_rec_nil_r. apply length_rev. Qed.

Lemma levenshtein_snoc (a b : list A) (x y : A) :
  levenshtein (a ++ [x]) (b ++ [y])
  = if decide (x = y) then levenshtein a b
    else S (Nat.min (levenshtein a b)
              (Nat.min (levenshtein (a ++ [x]) b) (levenshtein a (b ++ [y])))).
Proof.
  rewrite !levenshtein_rec, !rev_app_distr. cbn [rev app]. apply lev_rec_cons.
Qed.

End LevenshteinFacts.

(** C9. The edit distance is the classic Levenshtein distance: the length
    of the other string against the empty string, and on two strings with
    last characters [x] and [y] the distance of the rest if [x = y], else
    one more than the least of the three neighbouring distances
    (substitution, insertion, deletion, each of cost 1). It is symmetric,
    ["paypal.com"] and ["paypa1.com"] are at distance 1, and
    ["paypal.com"] is at distance 0 from itself. *)
Theorem levenshteinDistance_classic_symmetric :
  (forall a b : string, levenshteinDistance a b = levenshteinDistance b a) /\
  levenshteinDistance "paypal.com" "paypa1.com" = 1%nat /\
  levenshteinDistance "paypal.com" "paypal.com" = 0%nat /\
  (forall b : list ascii, levenshtein [] b = length b) /\
  (forall a : list ascii, levenshtein a [] = length a) /\
  (forall (a b : list ascii) (x y : ascii),
     levenshtein (a ++ [x]) (b ++ [y])
     = if decide (x = y) then levenshtein a b
       else S (Nat.min (levenshtein a b)
                 (Nat.min (levenshtein (a ++ [x]) b) (levenshtein a (b ++ [y]))))).
Proof.
  split; [|split; [|split; [|split; [|split]]]].
  - intros a b. apply levenshtein_sym.
  - reflexivity.
  - reflexivity.
  - apply levenshtein_nil_l.
  - apply levenshtein_nil_r.
  - apply levenshtein_snoc.
Qed.

(** ** Unparseable replies are cached too *)

Lemma json_image_parse_failure (p : ModelProvider) :
  json_image (parse_failure_response p) = Some (parse_failure_response p).
Proof. reflexivity. Qed.




(** ** The cache helper as a store *)

Section CacheStore.
Context `{Host}.

(** What a served client reads under a key. *)
Lemma cache_get_served (key : string) (c : RedisClient) (w : World) :
  serving c w ->
  fst (cache_get key w)
  = match store c !! key with
    | Some e =>
        if live (now w) e then
          match decoded (fst e) with Some v => Normal v | None => Normal VNull end
        else Normal VNull
    | None => Normal VNull
    end.
Proof.
  intros (C & O & L).
  unfold cache_get, try_catch, redis_get, bind, getRedisClient, client_get.
  rewrite C, O, L.
  destruct (store c !! key) as [e|]; [|reflexivity].
  destruct (live (now w) e); [|reflexivity].
  unfold parse_stored, decoded.
  destruct (fst e) as [x|s]; [reflexivity|].
  destruct (string_nonempty s); [|reflexivity].
  destruct (JSON_parse s); reflexivity.
Qed.

(** Two served clients that agree on a key read the same under it. *)
Lemma cache_get_agree (key : string) (c c' : RedisClient) (w w' : World) :
  serving c w -> serving c' w' -> now w' = now w ->
  store c' !! key = store c !! key ->
  fst (cache_get key w') = fst (cache_get key w).
Proof.
  intros S S' T E.
  rewrite (cache_get_served key c w S), (cache_get_served key c' w' S'), E, T.
  reflexivity.
Qed.

Lemma cache_get_expired (key : string) (c : RedisClient) (t : redis_string) (exp : Z)
    (w : World) :
  serving c w -> store c !! key = Some (t, exp) -> (exp <= now w)%Z ->
  cache_get key w = (Normal VNull, w).
Proof.
  intros (C & O & L) E T.
  apply cache_get_absent.
  - unfold unavailable. rewrite C. intros [X|X]; congruence.
  - unfold absent. rewrite C, E. unfold live. cbn. apply Z.ltb_ge. lia.
Qed.

Lemma cache_delete_serving (key : string) (c : RedisClient) (w : World) :
  serving c w ->
  cache_delete key w
  = (Normal tt,
     set_redis (Some {| isOpen := isOpen c; online := online c;
                        store := delete key (store c) |}) w).
Proof.
  intros (C & O & L).
  unfold cache_delete, try_catch, redis_del, bind, getRedisClient, client_del.
  rewrite C, O, L, ?O, ?L. reflexivity.
Qed.

End CacheStore.

(** ** Lifetimes and keys of the cached results *)

Section Lifetimes.
Context `{Host}.

Lemma remote_call_stored (hit err fail url : string) (parse : value -> M value)
    (key : string) (ttl : Z) (data : value) (w : World) :
  (forall w', exists fields w'', parse data w' = (Normal (VObj fields), w'') /\ log_only w' w'') ->
  (0 < ttl)%Z -> misses key w -> next_resolves data w ->
  exists r w0 w1,
    remote_call hit err fail url parse key ttl w = (Normal r, w1) /\
    cache_set key r ttl w0 = (Normal tt, w1) /\
    forall c, serving c w ->
      exists j, json_image r = Some j /\
                redisClient w1 = Some (stored_in c key j (now w + ttl)%Z).
Proof.
  intros Hp T M N.
  destruct (remote_call_resolved hit err fail url parse key ttl data w)
    as (r & w1 & w2 & w3 & L1 & P & C & E); auto.
  { intros w'. destruct (Hp w') as (f & w'' & ? & _). eauto. }
  destruct (Hp (posted url w1)) as (f & w2' & P' & L2).
  rewrite P in P'. injection P' as -> <-.
  exists (VObj f), w2, w3. split; [exact E|]. split; [exact C|].
  destruct L1 as (R1 & N1 & _), L2 as (R2 & N2 & _). cbn in *.
  intros c (S1 & S2 & S3).
  destruct (json_image_object f) as (f' & J). exists (VObj f'). split; [exact J|].
  assert (S : serving c w2) by (repeat split; congruence).
  rewrite (cache_set_serving _ _ _ _ _ _ S J T) in C. injection C as <-. cbn.
  do 3 f_equal. congruence.
Qed.

End Lifetimes.




(** ** Writing, reading back, forgetting *)

(** X1. [cache.set] followed by [cache.get]. On a client that is served, a
    value that has a JSON text is stored under its key without a line of
    log; until [ttlSeconds] have passed the key reads back as what
    [JSON.parse] makes of that text, from then on it reads as [null], and
    what any other key reads as is what it read as before. *)
Theorem cache_set_then_get `{Host} (key : string) (v j : value) (ttl : Z)
    (c : RedisClient) (w : World) :
  serving c w -> json_image v = Some j -> (0 < ttl)%Z ->
  exists w1,
    cache_set key v ttl w = (Normal tt, w1) /\
    log w1 = log w /\
    (forall w2, redisClient w2 = redisClient w1 -> (now w2 < now w + ttl)%Z ->
       cache_get key w2 = (Normal j, w2)) /\
    (forall w2, redisClient w2 = redisClient w1 -> (now w + ttl <= now w2)%Z ->
       cache_get key w2 = (Normal VNull, w2)) /\
    (forall key' w2 w2',
       key' <> key ->
       redisClient w2 = redisClient w1 -> redisClient w2' = redisClient w ->
       now w2 = now w2' ->
       fst (cache_get key' w2) = fst (cache_get key' w2')).
Proof.
  intros S J T.
  exists (set_redis (Some (stored_in c key j (now w + ttl)%Z)) w).
  split; [now apply cache_set_serving|].
  split; [reflexivity|].
  assert (S1 : forall w2,
             redisClient w2 = Some (stored_in c key j (now w + ttl)%Z) ->
             serving (stored_in c key j (now w + ttl)%Z) w2).
  { intros w2 E. destruct S as (_ & O & L). repeat split; auto. }
  split; [|split].
  - intros w2 E T2. cbn in E.
    apply cache_get_live with (c := stored_in c key j (now w + ttl)%Z) (exp := (now w + ttl)%Z);
      auto.
    cbn. apply lookup_insert_eq.
  - intros w2 E T2. cbn in E.
    apply cache_get_expired
      with (c := stored_in c key j (now w + ttl)%Z) (t := JsonText j) (exp := (now w + ttl)%Z);
      auto.
    cbn. apply lookup_insert_eq.
  - intros key' w2 w2' D E E' T2. cbn in E.
    apply cache_get_agree with (c := c) (c' := stored_in c key j (now w + ttl)%Z); auto.
    + destruct S as (C & O & L). repeat split; auto. congruence.
    + cbn. now apply lookup_insert_ne.
Qed.

Lemma cache_set_then_get_witness :
  exists w1,
    cache_set "analysis:1406f00b198a38b7:gemini-free" verdict 3600 (world_up [])
    = (Normal tt, w1) /\
    @cache_get sample_host "analysis:1406f00b198a38b7:gemini-free" (elapse 3599 w1)
    = (Normal verdict, elapse 3599 w1) /\
    @cache_get sample_host "analysis:1406f00b198a38b7:gemini-free" (elapse 3600 w1)
    = (Normal VNull, elapse 3600 w1).
Proof.
  destruct (@cache_set_then_get sample_host "analysis:1406f00b198a38b7:gemini-free"
              verdict verdict 3600 empty_redis (world_up []))
    as (w1 & E & _ & Live & Dead & _).
  - repeat split.
  - reflexivity.
  - lia.
  - exists w1. split; [exact E|].
    assert (N : now w1 = 1000%Z).
    { apply (f_equal snd) in E. cbn in E. rewrite <- E. reflexivity. }
    split.
    + apply Live; [reflexivity|]. cbn. lia.
    + apply Dead; [reflexivity|]. cbn. lia.
Defined.

(** X2. [cache.delete]. On a client that is served the key is removed
    without a line of log: it reads as [null] afterwards, at any time, and
    the other keys read as they did. *)
Theorem cache_delete_then_get `{Host} (key : string) (c : RedisClient) (w : World) :
  serving c w ->
  exists w1,
    cache_delete key w = (Normal tt, w1) /\
    log w1 = log w /\
    (forall w2, redisClient w2 = redisClient w1 -> cache_get key w2 = (Normal VNull, w2)) /\
    (forall key' w2 w2',
       key' <> key ->
       redisClient w2 = redisClient w1 -> redisClient w2' = redisClient w ->
       now w2 = now w2' ->
       fst (cache_get key' w2) = fst (cache_get key' w2')).
Proof.
  intros S.
  set (c1 := {| isOpen := isOpen c; online := online c; store := delete key (store c) |}).
  exists (set_redis (Some c1) w).
  split; [now apply cache_delete_serving|].
  split; [reflexivity|].
  assert (S1 : forall w2, redisClient w2 = Some c1 -> serving c1 w2).
  { intros w2 E. destruct S as (_ & O & L). repeat split; auto. }
  split.
  - intros w2 E. cbn in E.
    apply cache_get_absent.
    + unfold unavailable. rewrite E. destruct S as (_ & O & L). cbn. intros [X|X]; congruence.
    + unfold absent. rewrite E. cbn. now rewrite lookup_delete_eq.
  - intros key' w2 w2' D E E' T2. cbn in E.
    apply cache_get_agree with (c := c) (c' := c1); auto.
    + destruct S as (C & O & L). repeat split; auto. congruence.
    + cbn. now apply lookup_delete_ne.
Qed.

Lemma cache_delete_then_get_witness :
  exists w1 w2,
    cache_set "chat:3fa2144ff0596dbe:gemini-free" verdict 1800 (world_up [])
    = (Normal tt, w1) /\
    cache_delete "chat:3fa2144ff0596dbe:gemini-free" w1 = (Normal tt, w2) /\
    @cache_get sample_host "chat:3fa2144ff0596dbe:gemini-free" w2 = (Normal VNull, w2).
Proof.
  eexists.
  destruct (@cache_delete_then_get sample_host "chat:3fa2144ff0596dbe:gemini-free"
              (stored_in empty_redis "chat:3fa2144ff0596dbe:gemini-free" verdict 2800)
              (set_redis (Some (stored_in empty_redis "chat:3fa2144ff0596dbe:gemini-free"
                                  verdict 2800)) (world_up [])))
    as (w2 & E & _ & Gone & _).
  - repeat split.
  - exists w2. split; [reflexivity|]. split; [exact E|]. now apply Gone.
Defined.

(** X3. What [cache.set] cannot store. On a client that is served, a value
    that has no JSON text ([undefined]) and a lifetime that is not positive
    are refused by the client or by Redis: [cache.set] returns all the
    same, having logged the error, and the store is as it was. *)
Theorem cache_set_refusal_is_logged (key : string) (v : value) (ttl : Z)
    (c : RedisClient) (w : World) :
  serving c w -> json_image v = None \/ (ttl <= 0)%Z ->
  exists e,
    cache_set key v ttl w
    = (Normal tt, add_log (error_entry "Cache set error:" e) w).
Proof.
  intros (C & O & L) R.
  unfold cache_set, try_catch, redis_set, bind, getRedisClient, stringify, client_setEx.
  rewrite C, O.
  destruct (json_image v) as [j|] eqn:J.
  - destruct R as [R|R]; [discriminate|].
    cbn. rewrite L.
    assert (F : (0 <? ttl)%Z = false) by (apply Z.ltb_ge; lia).
    rewrite F. now exists (Err "ERR invalid expire time in 'setex' command").
  - cbn. now exists (TypeError "Invalid argument type").
Qed.

Lemma cache_set_refusal_is_logged_witness :
  exists e,
    cache_set "analysis:1406f00b198a38b7:gemini-free" VUndef 3600 (world_up [])
    = (Normal tt, add_log (error_entry "Cache set error:" e) (world_up [])).
Proof.
  apply (cache_set_refusal_is_logged "analysis:1406f00b198a38b7:gemini-free"
           VUndef 3600 empty_redis (world_up [])).
  - repeat split.
  - left. reflexivity.
Defined.

(** ** Sessions *)

Section SessionFacts.
Context `{Host}.

Lemma session_key_inj (a b : string) : session_key a = session_key b -> a = b.
Proof. unfold session_key. cbn. intros E. now injection E. Qed.

(** What [session.get] reads on a client that is served. *)
Lemma session_get_served (sessionId : string) (c : RedisClient) (w : World) :
  serving c w ->
  fst (session_get sessionId w)
  = match store c !! session_key sessionId with
    | Some e =>
        if live (now w) e then
          match decoded (fst e) with Some v => Normal v | None => Normal VNull end
        else Normal VNull
    | None => Normal VNull
    end.
Proof.
  intros (C & O & L).
  unfold session_get, try_catch, bind, getRedisClient, client_get.
  rewrite C, O, L.
  destruct (store c !! session_key sessionId) as [e|]; [|reflexivity].
  destruct (live (now w) e); [|reflexivity].
  unfold parse_stored, decoded.
  destruct (fst e) as [x|s]; [reflexivity|].
  destruct (string_nonempty s); [|reflexivity].
  destruct (JSON_parse s); reflexivity.
Qed.

Lemma session_get_agree (sessionId : string) (c c' : RedisClient) (w w' : World) :
  serving c w -> serving c' w' -> now w' = now w ->
  store c' !! session_key sessionId = store c !! session_key sessionId ->
  fst (session_get sessionId w') = fst (session_get sessionId w).
Proof.
  intros S S' T E.
  rewrite (session_get_served sessionId c w S), (session_get_served sessionId c' w' S'), E, T.
  reflexivity.
Qed.

Lemma session_get_live (sessionId : string) (j : value) (exp : Z) (c : RedisClient)
    (w : World) :
  serving c w -> store c !! session_key sessionId = Some (JsonText j, exp) ->
  (now w < exp)%Z ->
  session_get sessionId w = (Normal j, w).
Proof.
  intros (C & O & L) E T.
  unfold session_get, try_catch, bind, getRedisClient, client_get.
  rewrite C, O, L, E. unfold live. cbn.
  assert (X : (now w <? exp)%Z = true) by (apply Z.ltb_lt; lia).
  rewrite X. reflexivity.
Qed.

Lemma session_get_nothing (sessionId : string) (c : RedisClient) (w : World) :
  serving c w ->
  match store c !! session_key sessionId with
  | Some e => live (now w) e = false
  | None => True
  end ->
  session_get sessionId w = (Normal VNull, w).
Proof.
  intros (C & O & L) E.
  unfold session_get, try_catch, bind, getRedisClient, client_get.
  rewrite C, O, L.
  destruct (store c !! session_key sessionId) as [e|]; [|reflexivity].
  rewrite E. reflexivity.
Qed.

Lemma session_set_serving (sessionId : string) (data j : value) (ttl : option Z)
    (c : RedisClient) (w : World) :
  serving c w -> json_image data = Some j -> (0 < default 86400 ttl)%Z ->
  session_set sessionId data ttl w
  = (Normal tt,
     set_redis (Some (stored_in c (session_key sessionId) j (now w + default 86400 ttl)%Z)) w).
Proof.
  intros (C & O & L) J T.
  unfold session_set, try_catch, bind, getRedisClient, stringify, client_setEx.
  rewrite C, O, J. cbn. rewrite L.
  assert (X : (0 <? default 86400 ttl)%Z = true) by (apply Z.ltb_lt; lia).
  rewrite X. unfold stored_in. rewrite ?O, ?L. reflexivity.
Qed.

Lemma session_delete_serving (sessionId : string) (c : RedisClient) (w : World) :
  serving c w ->
  session_delete sessionId w
  = (Normal tt,
     set_redis (Some {| isOpen := isOpen c; online := online c;
                        store := delete (session_key sessionId) (store c) |}) w).
Proof.
  intros (C & O & L).
  unfold session_delete, try_catch, bind, getRedisClient, client_del.
  rewrite C, O, L, ?O, ?L. reflexivity.
Qed.

(** Without a client that is served, the three [try] bodies throw at their
    first or second step, and the world is as it was. *)
Lemma unavailable_cases (w : World) :
  unavailable w ->
  getRedisClient w = (Throw not_connected, w) \/
  exists c, getRedisClient w = (Normal c, w) /\ online c = false.
Proof.
  unfold unavailable, getRedisClient.
  destruct (redisClient w) as [c|]; [|now left].
  destruct (isOpen c) eqn:O; [|now left].
  intros [X|X]; [discriminate|].
  right. exists c. split; [reflexivity|exact X].
Qed.

(** The three operations have the text of those of the cache, under
    messages of their own. *)
Lemma session_get_eq (sessionId : string) (w : World) :
  session_get sessionId w
  = match redis_get (session_key sessionId) w with
    | (Normal x, w1) => (Normal x, w1)
    | (Throw e, w1) => (Normal VNull, add_log (error_entry "Session get error:" e) w1)
    end.
Proof.
  unfold session_get, try_catch.
  change (client <- getRedisClient ;;
          stored <- client_get client (session_key sessionId) ;;
          parse_stored stored)
    with (redis_get (session_key sessionId)).
  destruct (redis_get (session_key sessionId) w) as [[x|e] w1] eqn:E; [reflexivity|].
  unfold bind. now rewrite (logger_plain _ _ _ _ (redis_get_plain _ _ _ _ E)).
Qed.

Lemma session_set_eq (sessionId : string) (data : value) (ttl : option Z) (w : World) :
  session_set sessionId data ttl w
  = match redis_set (session_key sessionId) data (default 86400 ttl) w with
    | (Normal x, w1) => (Normal x, w1)
    | (Throw e, w1) => (Normal tt, add_log (error_entry "Session set error:" e) w1)
    end.
Proof.
  unfold session_set, try_catch.
  change (client <- getRedisClient ;;
          text <- stringify data ;;
          client_setEx client (session_key sessionId) (default 86400 ttl) text)
    with (redis_set (session_key sessionId) data (default 86400 ttl)).
  destruct (redis_set _ data _ w) as [[x|e] w1] eqn:E; [reflexivity|].
  now rewrite (logger_plain _ _ _ _ (redis_set_plain _ _ _ _ _ _ E)).
Qed.

Lemma session_delete_eq (sessionId : string) (w : World) :
  session_delete sessionId w
  = match redis_del (session_key sessionId) w with
    | (Normal x, w1) => (Normal x, w1)
    | (Throw e, w1) => (Normal tt, add_log (error_entry "Session delete error:" e) w1)
    end.
Proof.
  unfold session_delete, try_catch.
  change (client <- getRedisClient ;; client_del client (session_key sessionId))
    with (redis_del (session_key sessionId)).
  destruct (redis_del _ w) as [[x|e] w1] eqn:E; [reflexivity|].
  now rewrite (logger_plain _ _ _ _ (redis_del_plain _ _ _ _ E)).
Qed.

End SessionFacts.

(** X4. [session.set] followed by [session.get]. On a client that is
    served, data that has a JSON text is stored under [session:<id>] for
    [ttlSeconds], or for 86400 seconds when the call gives none; until then
    [session.get] of that id returns what [JSON.parse] makes of the text,
    from then on [null], and the other sessions read as they did. *)
Theorem session_set_then_get `{Host} (sessionId : string) (data j : value)
    (ttl : option Z) (c : RedisClient) (w : World) :
  serving c w -> json_image data = Some j -> (0 < default 86400 ttl)%Z ->
  exists w1,
    session_set sessionId data ttl w = (Normal tt, w1) /\
    log w1 = log w /\
    redisClient w1
    = Some (stored_in c ("session:" +:+ sessionId) j (now w + default 86400 ttl)%Z) /\
    (forall w2, redisClient w2 = redisClient w1 ->
       (now w2 < now w + default 86400 ttl)%Z ->
       session_get sessionId w2 = (Normal j, w2)) /\
    (forall w2, redisClient w2 = redisClient w1 ->
       (now w + default 86400 ttl <= now w2)%Z ->
       session_get sessionId w2 = (Normal VNull, w2)) /\
    (forall other w2 w2',
       other <> sessionId ->
       redisClient w2 = redisClient w1 -> redisClient w2' = redisClient w ->
       now w2 = now w2' ->
       fst (session_get other w2) = fst (session_get other w2')).
Proof.
  intros S J T.
  set (exp := (now w + default 86400 ttl)%Z).
  set (c1 := stored_in c (session_key sessionId) j exp).
  exists (set_redis (Some c1) w).
  split; [now apply session_set_serving|].
  split; [reflexivity|].
  split; [reflexivity|].
  assert (S1 : forall w2, redisClient w2 = Some c1 -> serving c1 w2).
  { intros w2 E. destruct S as (_ & O & L). repeat split; auto. }
  split; [|split].
  - intros w2 E T2. cbn in E.
    apply session_get_live with (c := c1) (exp := exp); auto.
    cbn. apply lookup_insert_eq.
  - intros w2 E T2. cbn in E.
    apply session_get_nothing with (c := c1); auto.
    cbn. rewrite lookup_insert_eq. unfold live. cbn. apply Z.ltb_ge. lia.
  - intros other w2 w2' D E E' T2. cbn in E.
    apply session_get_agree with (c := c) (c' := c1); auto.
    + destruct S as (C & O & L). repeat split; auto. congruence.
    + cbn. apply lookup_insert_ne. intros X. apply D. symmetry. now apply session_key_inj.
Qed.

Lemma session_set_then_get_witness :
  exists w1,
    session_set "4f2c" (VObj [("userId", VStr "u1"); ("draft", VUndef)]) None (world_up [])
    = (Normal tt, w1) /\
    @session_get sample_host "4f2c" (elapse 86399 w1)
    = (Normal (VObj [("userId", VStr "u1")]), elapse 86399 w1) /\
    @session_get sample_host "4f2c" (elapse 86400 w1) = (Normal VNull, elapse 86400 w1).
Proof.
  destruct (@session_set_then_get sample_host "4f2c"
              (VObj [("userId", VStr "u1"); ("draft", VUndef)])
              (VObj [("userId", VStr "u1")]) None empty_redis (world_up []))
    as (w1 & E & _ & _ & Live & Dead & _).
  - repeat split.
  - reflexivity.
  - cbn. lia.
  - exists w1. split; [exact E|].
    assert (N : now w1 = 1000%Z).
    { apply (f_equal snd) in E. cbn in E. rewrite <- E. reflexivity. }
    split.
    + apply Live; [reflexivity|]. cbn. lia.
    + apply Dead; [reflexivity|]. cbn. lia.
Defined.

(** X5. [session.delete]. On a client that is served the session is
    removed without a line of log: [session.get] of that id returns [null]
    afterwards, and the other sessions read as they did. *)
Theorem session_delete_then_get `{Host} (sessionId : string) (c : RedisClient)
    (w : World) :
  serving c w ->
  exists w1,
    session_delete sessionId w = (Normal tt, w1) /\
    log w1 = log w /\
    (forall w2, redisClient w2 = redisClient w1 ->
       session_get sessionId w2 = (Normal VNull, w2)) /\
    (forall other w2 w2',
       other <> sessionId ->
       redisClient w2 = redisClient w1 -> redisClient w2' = redisClient w ->
       now w2 = now w2' ->
       fst (session_get other w2) = fst (session_get other w2')).
Proof.
  intros S.
  set (c1 := {| isOpen := isOpen c; online := online c;
                store := delete (session_key sessionId) (store c) |}).
  exists (set_redis (Some c1) w).
  split; [now apply session_delete_serving|].
  split; [reflexivity|].
  assert (S1 : forall w2, redisClient w2 = Some c1 -> serving c1 w2).
  { intros w2 E. destruct S as (_ & O & L). repeat split; auto. }
  split.
  - intros w2 E. cbn in E.
    apply session_get_nothing with (c := c1); auto.
    cbn. now rewrite lookup_delete_eq.
  - intros other w2 w2' D E E' T2. cbn in E.
    apply session_get_agree with (c := c) (c' := c1); auto.
    + destruct S as (C & O & L). repeat split; auto. congruence.
    + cbn. apply lookup_delete_ne. intros X. apply D. symmetry. now apply session_key_inj.
Qed.

Lemma session_delete_then_get_witness :
  exists w1 w2,
    session_set "4f2c" (VStr "draft") (Some 60%Z) (world_up []) = (Normal tt, w1) /\
    session_delete "4f2c" w1 = (Normal tt, w2) /\
    @session_get sample_host "4f2c" w2 = (Normal VNull, w2).
Proof.
  eexists.
  destruct (@session_delete_then_get sample_host "4f2c"
              (stored_in empty_redis "session:4f2c" (VStr "draft") 1060)
              (set_redis (Some (stored_in empty_redis "session:4f2c" (VStr "draft") 1060))
                 (world_up [])))
    as (w2 & E & _ & Gone & _).
  - repeat split.
  - exists w2. split; [reflexivity|]. split; [exact E|]. now apply Gone.
Defined.

(** X6. The session helper is best effort, as the cache helper is. Its
    three operations return in every world. When no command can be sent
    (no client, a closed client, a server that does not answer) each logs
    one error under its own message and changes nothing else:
    [session.get] returns [null], [session.set] and [session.delete] have
    stored and removed nothing. *)
Theorem session_operations_best_effort `{Host} (sessionId : string) (data : value)
    (ttl : option Z) (w : World) :
  (exists x w', session_get sessionId w = (Normal x, w')) /\
  (exists w', session_set sessionId data ttl w = (Normal tt, w')) /\
  (exists w', session_delete sessionId w = (Normal tt, w')) /\
  (unavailable w ->
     (exists e, session_get sessionId w
                = (Normal VNull, add_log (error_entry "Session get error:" e) w)) /\
     (exists e, session_set sessionId data ttl w
                = (Normal tt, add_log (error_entry "Session set error:" e) w)) /\
     (exists e, session_delete sessionId w
                = (Normal tt, add_log (error_entry "Session delete error:" e) w))).
Proof.
  pose proof (session_get_eq sessionId w) as Eg.
  pose proof (session_set_eq sessionId data ttl w) as Es.
  pose proof (session_delete_eq sessionId w) as Ed.
  split; [|split; [|split]].
  - rewrite Eg. destruct (redis_get _ w) as [[x|e] w1]; eauto.
  - rewrite Es. destruct (redis_set _ data _ w) as [[[]|e] w1]; eauto.
  - rewrite Ed. destruct (redis_del _ w) as [[[]|e] w1]; eauto.
  - intros U. split; [|split].
    + destruct (redis_get_unavailable (session_key sessionId) w U) as (e & E).
      exists e. now rewrite Eg, E.
    + destruct (redis_set_unavailable (session_key sessionId) data (default 86400 ttl) w U)
        as (e & E).
      exists e. now rewrite Es, E.
    + destruct (redis_del_unavailable (session_key sessionId) w U) as (e & E).
      exists e. now rewrite Ed, E.
Qed.

(** ** What the bridge reports about its providers *)

(** The bridge the constructor leaves, in full. *)
Lemma initializeProviders_bridge (config : Config) (w0 w0' : World) (b : ModelBridge) :
  initializeProviders config w0 = (Normal b, w0') ->
  b = match primary_instance config with
      | Some p =>
          {| heap := [p]; providers := {["primary" := 0%nat]}; fallbackProvider := 0 |}
      | None =>
          {| heap := [spare_instance config];
             providers := if key_given (geminiApiKey config)
                          then {["fallback" := 0%nat]} else ∅;
             fallbackProvider := 0 |}
      end.
Proof.
  unfold initializeProviders, primary_instance, spare_instance, getModelConfig, new, bind,
    logger, ret.
  destruct config as [mp mn gk ok lo hi rep]. cbn.
  intros E. cbn in E.
  destruct mp; cbn in E;
    destruct (key_given gk) eqn:G, (key_given ok) eqn:O;
    repeat first [ rewrite lookup_insert_eq in E
                 | rewrite lookup_empty in E
                 | rewrite lookup_insert_ne in E by discriminate
                 | progress cbn in E ];
    injection E as <- _; cbn; rewrite ?insert_empty; reflexivity.
Qed.

(** X7. [getProviderInfo] and [getAvailableProviders] on the bridge the
    constructor builds. The map of providers holds one key at most. When
    the configured provider could be built, it is reported as primary and
    as fallback alike, and ["primary"] is the one key; when it could not
    (its API key is missing) the primary is reported as ["none"], and the
    fallback is gemini under the key ["fallback"] if a Gemini key is
    configured, the local stub under no key otherwise. Neither method
    throws. *)
Theorem provider_info_of_configuration (config : Config) (w0 w0' : World)
    (b : ModelBridge) :
  initializeProviders config w0 = (Normal b, w0') ->
  (length (getAvailableProviders b) <= 1)%nat /\
  match primary_instance config with
  | Some p =>
      getAvailableProviders b = ["primary"] /\
      getProviderInfo b
      = Normal {| info_primary := provider p; info_fallback := provider p;
                  info_available := ["primary"] |}
  | None =>
      if key_given (geminiApiKey config) then
        getAvailableProviders b = ["fallback"] /\
        getProviderInfo b
        = Normal {| info_primary := "none"; info_fallback := "gemini";
                    info_available := ["fallback"] |}
      else
        getAvailableProviders b = [] /\
        getProviderInfo b
        = Normal {| info_primary := "none"; info_fallback := "local";
                    info_available := ["none"] |}
  end.
Proof.
  intros E. apply initializeProviders_bridge in E. subst b.
  unfold getProviderInfo, getAvailableProviders, provider_at, spare_instance.
  destruct (primary_instance config) as [p|]; cbn [providers heap fallbackProvider].
  - rewrite lookup_singleton_eq, map_size_singleton, map_to_list_singleton. cbn.
    split; [lia|]. split; reflexivity.
  - destruct (key_given (geminiApiKey config)).
    + rewrite lookup_singleton_ne by discriminate.
      rewrite map_size_singleton, map_to_list_singleton. cbn.
      split; [lia|]. split; reflexivity.
    + rewrite lookup_empty, map_size_empty, map_to_list_empty. cbn.
      split; [lia|]. split; reflexivity.
Qed.

Lemma provider_info_of_configuration_witness :
  getAvailableProviders sample_bridge = ["primary"] /\
  getProviderInfo sample_bridge
  = Normal {| info_primary := "gemini"; info_fallback := "gemini";
              info_available := ["primary"] |}.
Proof.
  destruct (initializeProviders_sample (world_up [])) as (w' & E).
  exact (proj2 (provider_info_of_configuration sample_config (world_up []) w'
                  sample_bridge E)).
Defined.

(** X8. The health check of the model bridge cannot fail. On the bridge the
    constructor builds, [checkModelHealth] reports ["healthy"] for every
    configuration, also when no provider could be built and it reports the
    primary provider as ["none"]. *)
Theorem checkModelHealth_always_healthy (config : Config) (w0 w0' : World)
    (b : ModelBridge) :
  initializeProviders config w0 = (Normal b, w0') ->
  health_status (checkModelHealth b config) = "healthy" /\
  (primary_instance config = None ->
   assoc "primary_provider" (health_details (checkModelHealth b config))
   = Some (VStr "none")).
Proof.
  intros E. apply initializeProviders_bridge in E. subst b.
  unfold checkModelHealth, getProviderInfo, getAvailableProviders, provider_at, spare_instance.
  destruct (primary_instance config) as [p|]; cbn [providers heap fallbackProvider].
  - rewrite lookup_singleton_eq. cbn. split; [reflexivity|discriminate].
  - destruct (key_given (geminiApiKey config)).
    + rewrite lookup_singleton_ne by discriminate. cbn. split; reflexivity.
    + rewrite lookup_empty. cbn. split; reflexivity.
Qed.

Lemma checkModelHealth_always_healthy_witness :
  health_status
    (checkModelHealth
       {| heap := [{| class := LocalProvider; apiKey := None; modelName := "local";
                      provider := "local" |}];
          providers := ∅; fallbackProvider := 0 |}
       {| modelProvider := openai; ConfigTs.modelName := "gpt-4o-mini";
          geminiApiKey := None; openaiApiKey := None;
          lowThreshold := Fin (3#10); highThreshold := Fin (7#10);
          reportThreshold := Fin (8#10) |})
  = "healthy".
Proof.
  refine (proj1 (checkModelHealth_always_healthy _ (world_up []) _ _ _)).
  reflexivity.
Defined.

(** ** What the key of a cached result leaves out, and when it lapses *)

Section SharedResults.
Context `{Host}.

Lemma next_rejected_replies (w w' : World) :
  replies w' = replies w -> next_rejected w -> next_rejected w'.
Proof. unfold next_rejected. now intros ->. Qed.

Lemma analysis_key_text (p p' : ModelProvider) (request request' : AnalysisRequest) :
  modelName p' = modelName p -> req_text request' = req_text request ->
  analysis_key p' request' = analysis_key p request.
Proof. unfold analysis_key, generateCacheKey. now intros -> ->. Qed.

Lemma chat_rejected (p : ModelProvider) (request : ChatRequest) (w : World) :
  remote p -> misses (chat_key p request) w -> next_rejected w ->
  exists w1,
    log_only w w1 /\ lookup_logged w w1 /\
    chat p request w = (Throw stack_exhausted, posted (url_of p) w1).
Proof.
  intros R M N. rewrite (chat_remote p request R).
  now apply remote_call_rejected.
Qed.

End SharedResults.

(** X9. The key of a cached analysis is made of the text and of the model
    name, and of nothing else. Once a provider stored the result of a
    request, every request with the same text is answered with that result
    for an hour, without a post: whatever its URL, and whichever provider
    instance of the same model name receives it, whatever its class and
    its API key. *)
Theorem cached_analysis_is_shared `{Host} (p p' : ModelProvider)
    (request request' : AnalysisRequest) (c : RedisClient) (data : value) (w : World) :
  remote p -> remote p' ->
  modelName p' = modelName p -> req_text request' = req_text request ->
  serving c w -> misses (analysis_key p request) w -> next_resolves data w ->
  exists r j w1,
    analyzeText p request w = (Normal r, w1) /\
    json_image r = Some j /\
    forall w2,
      redisClient w2 = redisClient w1 -> (now w2 < now w + 3600)%Z ->
      analyzeText p' request' w2
      = (Normal j, add_log (debug_entry (hit_msg p' "analysis")) w2).
Proof.
  intros R R' Em Et S M N.
  destruct (analyzeText_fresh p request c data w R S M N)
    as (r & j & w1 & E & _ & _ & J & Shape & C1 & _).
  exists r, j, w1. split; [exact E|]. split; [exact J|].
  intros w2 E2 T.
  eapply analyzeText_cached with (c := stored_in c (analysis_key p request) j (now w + 3600)%Z)
                                 (exp := (now w + 3600)%Z); auto.
  - destruct S as (_ & O & L). repeat split; auto. congruence.
  - rewrite (analysis_key_text p p' request request' Em Et). cbn. apply lookup_insert_eq.
  - now apply response_truthy.
Qed.

Lemma cached_analysis_is_shared_witness :
  exists r j w1,
    @analyzeText sample_host sample_gemini sample_request
      (world_up [Response 200 (gemini_reply (VStr verdict_text))]) = (Normal r, w1) /\
    json_image r = Some j /\
    @analyzeText sample_host
      {| class := OpenAIProvider; apiKey := Some "sk-1"; modelName := "gemini-free";
         provider := "openai" |}
      {| req_text := "Verify your account now"; req_url := Some "https://example.com/login" |}
      (elapse 60 w1)
    = (Normal j, add_log (debug_entry "Using cached OpenAI analysis result") (elapse 60 w1)).
Proof.
  destruct (@cached_analysis_is_shared sample_host sample_gemini
              {| class := OpenAIProvider; apiKey := Some "sk-1"; modelName := "gemini-free";
                 provider := "openai" |}
              sample_request
              {| req_text := "Verify your account now";
                 req_url := Some "https://example.com/login" |}
              empty_redis (gemini_reply (VStr verdict_text))
              (world_up [Response 200 (gemini_reply (VStr verdict_text))]))
    as (r & j & w1 & E & J & Again).
  - unfold remote. cbn. congruence.
  - unfold remote. cbn. congruence.
  - reflexivity.
  - reflexivity.
  - repeat split.
  - exists VNull, (world_up [Response 200 (gemini_reply (VStr verdict_text))]).
    split; reflexivity.
  - exists 200%Z, []. split; reflexivity.
  - exists r, j, w1. split; [exact E|]. split; [exact J|].
    apply Again; [reflexivity|].
    assert (N : now w1 = 1000%Z).
    { apply (f_equal snd) in E. cbn in E. rewrite <- E. reflexivity. }
    cbn. lia.
Defined.

(** X10. A cached analysis lapses. 3600 seconds after a result was stored
    the lookup of its key misses again, and the request goes to the
    provider once more: it is posted, and the new reply is parsed and
    takes the place of the old result. *)
Theorem cached_analysis_lapses `{Host} (p : ModelProvider) (request : AnalysisRequest)
    (c : RedisClient) (data data' : value) (w : World) :
  remote p -> serving c w -> misses (analysis_key p request) w -> next_resolves data w ->
  exists r w1,
    analyzeText p request w = (Normal r, w1) /\
    forall w2,
      redisClient w2 = redisClient w1 -> (now w + 3600 <= now w2)%Z ->
      misses (analysis_key p request) w2 /\
      (next_resolves data' w2 ->
       exists r' j' w3,
         analyzeText p request w2 = (Normal r', w3) /\
         r' = match parse_of p data' with
              | Normal x => x
              | Throw _ => parse_failure_response p
              end /\
         posts w3 = url_of p :: posts w2 /\
         json_image r' = Some j' /\
         exists c3, redisClient w3 = Some c3 /\
                    store c3 !! analysis_key p request
                    = Some (JsonText j', (now w2 + 3600)%Z)).
Proof.
  intros R S M N.
  destruct (analyzeText_fresh p request c data w R S M N)
    as (r & j & w1 & E & _ & _ & J & Shape & C1 & _).
  exists r, w1. split; [exact E|].
  intros w2 E2 T.
  set (c1 := stored_in c (analysis_key p request) j (now w + 3600)%Z) in *.
  assert (S2 : serving c1 w2).
  { destruct S as (_ & O & L). repeat split; auto. congruence. }
  assert (M2 : misses (analysis_key p request) w2).
  { exists VNull, w2. split; [|reflexivity].
    apply cache_get_expired with (c := c1) (t := JsonText j) (exp := (now w + 3600)%Z); auto.
    cbn. apply lookup_insert_eq. }
  split; [exact M2|].
  intros N2.
  destruct (analyzeText_fresh p request c1 data' w2 R S2 M2 N2)
    as (r' & j' & w3 & E3 & _ & Er & J' & _ & C3 & P3 & _).
  exists r', j', w3. repeat split; auto.
  eexists. split; [exact C3|]. cbn. apply lookup_insert_eq.
Qed.

Lemma cached_analysis_lapses_witness :
  exists r w1 r' w3,
    @analyzeText sample_host sample_gemini sample_request
      (world_up [Response 200 (gemini_reply (VStr "I cannot help with that."));
                 Response 200 (gemini_reply (VStr verdict_text))]) = (Normal r, w1) /\
    @analyzeText sample_host sample_gemini sample_request (elapse 3600 w1) = (Normal r', w3) /\
    posts w3 = [Gemini_url sample_gemini; Gemini_url sample_gemini].
Proof.
  destruct (@cached_analysis_lapses sample_host sample_gemini sample_request empty_redis
              (gemini_reply (VStr "I cannot help with that."))
              (gemini_reply (VStr verdict_text))
              (world_up [Response 200 (gemini_reply (VStr "I cannot help with that."));
                         Response 200 (gemini_reply (VStr verdict_text))]))
    as (r & w1 & E & Later).
  - unfold remote. cbn. congruence.
  - repeat split.
  - eexists VNull, _. split; reflexivity.
  - exists 200%Z, [Response 200 (gemini_reply (VStr verdict_text))]. split; reflexivity.
  - assert (N : now w1 = 1000%Z).
    { apply (f_equal snd) in E. cbn in E. rewrite <- E. reflexivity. }
    assert (Rp : replies w1 = [Response 200 (gemini_reply (VStr verdict_text))]).
    { apply (f_equal snd) in E. cbn in E. rewrite <- E. reflexivity. }
    assert (Ps : posts w1 = [Gemini_url sample_gemini]).
    { apply (f_equal snd) in E. cbn in E. rewrite <- E. reflexivity. }
    destruct (Later (elapse 3600 w1)) as (_ & Fresh).
    + reflexivity.
    + cbn. lia.
    + destruct Fresh as (r' & j' & w3 & E3 & _ & P3 & _).
      * exists 200%Z, []. split; [exact Rp|reflexivity].
      * exists r, w1, r', w3. split; [exact E|]. split; [exact E3|].
        rewrite P3. cbn. now rewrite Ps.
Defined.

(** ** The bridge's chat *)

(** X11. [ModelBridge.chat] on a remote provider that fails. When the
    lookup of the chat's key misses and the provider's request is rejected
    twice in a row, the bridge has called the one instance it holds through
    the primary and then through the fallback slot, posted twice, stored
    nothing, and returned its apology (provider ["fallback"], confidence
    0.1): it does not throw. *)
Theorem chat_fails_over_then_apologises `{Host} (b : ModelBridge) (r0 : nat)
    (p : ModelProvider) (request : ChatRequest) (w : World) :
  providers b !! "primary" = Some r0 -> heap b !! r0 = Some p -> fallbackProvider b = r0 ->
  remote p -> misses (chat_key p request) w ->
  next_rejected w -> next_rejected (posted (url_of p) w) ->
  exists w',
    ModelBridge_chat b request w = (Normal emergency_chat_response, w') /\
    field emergency_chat_response "provider" = VStr "fallback" /\
    field emergency_chat_response "confidence" = num (1#10) /\
    posts w' = url_of p :: url_of p :: posts w /\
    redisClient w' = redisClient w /\
    calls w'
    = {| call_slot := FallbackSlot; call_inst := r0; call_req := Chat request |}
      :: {| call_slot := PrimarySlot; call_inst := r0; call_req := Chat request |}
      :: calls w.
Proof.
  intros Pm Hp Fb R M N1 N2.
  set (c1 := {| call_slot := PrimarySlot; call_inst := r0; call_req := Chat request |}).
  set (c2 := {| call_slot := FallbackSlot; call_inst := r0; call_req := Chat request |}).
  destruct (chat_rejected p request (add_call c1 w) R) as (w1 & L1 & _ & E1).
  { now apply (misses_frame _ w). }
  { now apply (next_rejected_replies w). }
  set (wB := add_log (warn_entry "Primary model provider failed for chat, trying fallback:"
                        stack_exhausted)
               (posted (url_of p) w1)).
  destruct L1 as (Lc & Ln & Lr & Lp & Lk).
  destruct (chat_rejected p request (add_call c2 wB) R) as (w2 & L2 & _ & E2).
  { apply (misses_frame _ w); [exact Lc|exact Ln|exact M]. }
  { apply (next_rejected_replies (posted (url_of p) w)); [|exact N2].
    cbn. now rewrite Lr. }
  destruct L2 as (Lc2 & Ln2 & Lr2 & Lp2 & Lk2).
  eexists. split.
  - unfold ModelBridge_chat, try_catch, call_chat, bind.
    rewrite Pm, Hp, Fb, Hp. fold c1. rewrite E1.
    rewrite logger_plain by reflexivity.
    match goal with
    | |- context [chat p request ?x] => change x with (add_call c2 wB)
    end.
    rewrite E2. now rewrite logger_plain by reflexivity.
  - split; [reflexivity|]. split; [reflexivity|].
    cbn. rewrite Lp2, Lc2, Lk2. cbn. rewrite Lp, Lc, Lk. cbn. repeat split.
Qed.

Lemma chat_fails_over_then_apologises_witness :
  exists w',
    @ModelBridge_chat sample_host sample_bridge sample_chat
      (world_up [TimedOut; Response 503 VNull])
    = (Normal emergency_chat_response, w') /\
    posts w' = [Gemini_url sample_gemini; Gemini_url sample_gemini].
Proof.
  destruct (@chat_fails_over_then_apologises sample_host sample_bridge 0%nat sample_gemini
              sample_chat (world_up [TimedOut; Response 503 VNull]))
    as (w' & E & _ & _ & P & _).
  - reflexivity.
  - reflexivity.
  - reflexivity.
  - unfold remote. cbn. congruence.
  - eexists VNull, _. split; reflexivity.
  - exact I.
  - reflexivity.
  - exists w'. split; [exact E|exact P].
Defined.

(** ** A bridge without a remote provider *)

(** X12. When the configuration names the local provider, or names a
    remote provider whose API key is missing while no Gemini key is
    configured either, [ModelBridge.analyzeText] answers every request with
    the placeholder of the local stub (score 0.5, ["uncertain"],
    confidence 0.1, provider ["local"]): nothing is posted, and the cache
    is neither read nor written. *)
Theorem analysis_without_remote_provider `{Host} (config : Config) (w0 w0' : World)
    (b : ModelBridge) (request : AnalysisRequest) (w : World) :
  initializeProviders config w0 = (Normal b, w0') ->
  modelProvider config = local \/
  (primary_instance config = None /\ key_given (geminiApiKey config) = false) ->
  exists r w',
    ModelBridge_analyzeText b request w = (Normal r, w') /\
    field r "score" = num (1#2) /\
    field r "label" = VStr "uncertain" /\
    field r "reasons" = VArr [VStr "Local model not available"] /\
    field r "confidence" = num (1#10) /\
    field r "provider" = VStr "local" /\
    posts w' = posts w /\ replies w' = replies w /\ redisClient w' = redisClient w.
Proof.
  intros E Hc. apply initializeProviders_bridge in E. subst b.
  destruct Hc as [Hl|(Hn & Hg)].
  - unfold primary_instance. rewrite Hl.
    unfold ModelBridge_analyzeText, try_catch, primary_analyzeText, call_analyzeText.
    cbn [providers heap fallbackProvider]. rewrite lookup_singleton_eq. cbn.
    eexists _, _. split; [reflexivity|]. repeat split.
  - rewrite Hn. unfold spare_instance. rewrite Hg.
    unfold ModelBridge_analyzeText, try_catch, primary_analyzeText, fallback_analyzeText,
      call_analyzeText.
    cbn [providers heap fallbackProvider]. rewrite lookup_empty. cbn.
    eexists _, _. split; [reflexivity|]. repeat split.
Qed.

Lemma analysis_without_remote_provider_witness :
  exists r w',
    @ModelBridge_analyzeText sample_host
      {| heap := [{| class := LocalProvider; apiKey := None; modelName := "local";
                     provider := "local" |}];
         providers := ∅; fallbackProvider := 0 |}
      sample_request
      (world_up [Response 200 (gemini_reply (VStr verdict_text))]) = (Normal r, w') /\
    field r "score" = num (1#2) /\
    posts w' = [].
Proof.
  destruct (@analysis_without_remote_provider sample_host
              {| modelProvider := openai; ConfigTs.modelName := "gpt-4o-mini";
                 geminiApiKey := None; openaiApiKey := None;
                 lowThreshold := Fin (3#10); highThreshold := Fin (7#10);
                 reportThreshold := Fin (8#10) |}
              (world_up []) _ _ sample_request
              (world_up [Response 200 (gemini_reply (VStr verdict_text))]) eq_refl)
    as (r & w' & E & Sc & _ & _ & _ & _ & P & _).
  - right. split; reflexivity.
  - exists r, w'. split; [exact E|]. split; [exact Sc|exact P].
Defined.

(** ** The JSON object inside a reply *)

Section Braces.

Lemma no_char_cons (a c : ascii) (s : string) :
  includes (String a EmptyString) (String c s) = false ->
  Ascii.eqb c a = false /\ includes (String a EmptyString) s = false.
Proof.
  cbn [includes startsWith]. rewrite andb_true_r, Ascii.eqb_sym.
  destruct (Ascii.eqb c a); cbn; [discriminate|]. auto.
Qed.

Lemma append_nil (s : string) : EmptyString +:+ s = s.
Proof. reflexivity. Qed.

Lemma append_cons (c : ascii) (s t : string) : String c s +:+ t = String c (s +:+ t).
Proof. reflexivity. Qed.

Lemma drop_to_open_skip (pre rest : string) :
  includes "{" pre = false ->
  drop_to_open (pre +:+ "{" +:+ rest) = Some ("{" +:+ rest).
Proof.
  induction pre as [|c pre IH]; intros N.
  - reflexivity.
  - apply no_char_cons in N as [Nc Np].
    rewrite append_cons. cbn [drop_to_open]. rewrite Nc. now apply IH.
Qed.

Lemma drop_to_open_none (s : string) :
  includes "{" s = false -> drop_to_open s = None.
Proof.
  induction s as [|c s IH]; intros N; [reflexivity|].
  apply no_char_cons in N as [Nc Np].
  cbn [drop_to_open]. rewrite Nc. now apply IH.
Qed.

Lemma upto_last_close_none (s : string) :
  includes "}" s = false -> upto_last_close s = None.
Proof.
  induction s as [|c s IH]; intros N; [reflexivity|].
  apply no_char_cons in N as [Nc Np].
  cbn [upto_last_close]. rewrite (IH Np), Nc. reflexivity.
Qed.

Lemma upto_last_close_app (body post : string) :
  includes "}" post = false ->
  upto_last_close (body +:+ "}" +:+ post) = Some (body +:+ "}").
Proof.
  intros N. induction body as [|c body IH].
  - change (EmptyString +:+ "}" +:+ post) with (String "}" post).
    cbn [upto_last_close]. rewrite (upto_last_close_none post N). reflexivity.
  - change (String c body +:+ "}" +:+ post) with (String c (body +:+ "}" +:+ post)).
    cbn [upto_last_close]. rewrite IH. reflexivity.
Qed.

Lemma match_braces_found (pre body post : string) :
  includes "{" pre = false -> includes "}" post = false ->
  match_braces (pre +:+ "{" +:+ body +:+ "}" +:+ post) = Some ("{" +:+ body +:+ "}").
Proof.
  intros Np Nq. unfold match_braces.
  rewrite (drop_to_open_skip pre _ Np).
  exact (upto_last_close_app ("{" +:+ body) post Nq).
Qed.

Lemma match_braces_bare (body : string) :
  match_braces ("{" +:+ body +:+ "}") = Some ("{" +:+ body +:+ "}").
Proof. exact (match_braces_found EmptyString body EmptyString eq_refl eq_refl). Qed.

Lemma nonempty_app (pre rest : string) :
  string_nonempty (pre +:+ "{" +:+ rest) = true.
Proof. destruct pre; reflexivity. Qed.

End Braces.

(** X13. The JSON object is found inside prose. When the text of a reply
    is an object's text [{...}] with words before it that hold no opening
    brace and words after it that hold no closing brace (a sentence, a
    Markdown fence), the parsers match exactly the object's text, and the
    reply is parsed as the bare object would be, with the same response
    or the same failure. A reply without an opening brace is never
    parsed: it is a parse failure. *)
Theorem json_found_inside_prose `{Host} (p : ModelProvider) (pre body post : string) :
  includes "{" pre = false -> includes "}" post = false ->
  match_braces (pre +:+ "{" +:+ body +:+ "}" +:+ post) = Some ("{" +:+ body +:+ "}") /\
  (forall w,
     Gemini_parseAnalysisResponse p
       (gemini_reply (VStr (pre +:+ "{" +:+ body +:+ "}" +:+ post))) w
     = Gemini_parseAnalysisResponse p (gemini_reply (VStr ("{" +:+ body +:+ "}"))) w) /\
  (forall w,
     OpenAI_parseAnalysisResponse p
       (openai_reply (VStr (pre +:+ "{" +:+ body +:+ "}" +:+ post))) w
     = OpenAI_parseAnalysisResponse p (openai_reply (VStr ("{" +:+ body +:+ "}"))) w) /\
  (forall s w,
     includes "{" s = false ->
     Gemini_parseAnalysisResponse p (gemini_reply (VStr s)) w
     = (Normal (parse_failure_response p),
        add_log (error_entry "Failed to parse Gemini analysis response:"
                   (Err (if string_nonempty s then "No JSON found in Gemini response"
                         else "No content in Gemini response"))) w)).
Proof.
  intros Np Nq.
  pose proof (match_braces_found pre body post Np Nq) as Found.
  assert (Same : forall who,
             parse_content p (VStr (pre +:+ "{" +:+ body +:+ "}" +:+ post)) who
             = parse_content p (VStr ("{" +:+ body +:+ "}")) who).
  { intros who. unfold parse_content, content_match, and_then.
    cbn [truthy]. rewrite nonempty_app.
    change (string_nonempty ("{" +:+ body +:+ "}")) with true.
    rewrite Found, match_braces_bare. reflexivity. }
  split; [exact Found|].
  split; [|split].
  - intros w. unfold Gemini_parseAnalysisResponse, Gemini_parse, gemini_reply. cbn.
    unfold try_catch, lift. now rewrite Same.
  - intros w. unfold OpenAI_parseAnalysisResponse, OpenAI_parse, openai_reply. cbn.
    unfold try_catch, lift. now rewrite Same.
  - intros s w Ns. unfold Gemini_parseAnalysisResponse, Gemini_parse, gemini_reply. cbn.
    unfold try_catch, lift, parse_content, content_match, and_then, match_braces.
    cbn [truthy]. rewrite (drop_to_open_none s Ns).
    destruct (string_nonempty s); reflexivity.
Qed.

Lemma json_found_inside_prose_witness :
  @Gemini_parseAnalysisResponse sample_host sample_gemini
    (gemini_reply (VStr ("Here is my verdict: " +:+ "{" +:+ "}" +:+ " Stay safe."))) (world_up [])
  = @Gemini_parseAnalysisResponse sample_host sample_gemini
      (gemini_reply (VStr ("{" +:+ "}"))) (world_up []).
Proof.
  refine (proj1 (proj2 (@json_found_inside_prose sample_host sample_gemini
                          "Here is my verdict: " EmptyString " Stay safe." _ _)) (world_up []));
    reflexivity.
Defined.

(** ** The answer to a chat *)

Section ChatFacts.
Context `{Host}.

Lemma parseChatResponse_result (p : ModelProvider) (data : value) (w : World) :
  remote p ->
  exists w', parseChatResponse p data w = (Normal (chat_result p data), w') /\ log_only w w'.
Proof.
  intros R. unfold remote in R.
  unfold parseChatResponse, chat_result, content_of, chat_source,
    Gemini_parseChatResponse, OpenAI_parseChatResponse.
  destruct (class p); [| |congruence].
  all: rewrite try_catch_lift_plain
    by (unfold Gemini_content, OpenAI_content, content_trim, TypeError;
        plain_with @plain_and_then).
  all: unfold and_then, content_trim.
  - destruct (Gemini_content data) as [[| |b|n|s|l|l]|e]; cbn [truthy negb];
      try (eexists; split; [reflexivity|apply log_only_add_log]).
    + destruct b; cbn; eexists; (split; [reflexivity|apply log_only_add_log]).
    + destruct (negb (is_nan n || is_zero n)); cbn;
        eexists; (split; [reflexivity|apply log_only_add_log]).
    + destruct (string_nonempty s); cbn; eexists;
        (split; [reflexivity|first [apply log_only_refl|apply log_only_add_log]]).
  - destruct (OpenAI_content data) as [[| |b|n|s|l|l]|e]; cbn [truthy negb];
      try (eexists; split; [reflexivity|apply log_only_add_log]).
    + destruct b; cbn; eexists; (split; [reflexivity|apply log_only_add_log]).
    + destruct (negb (is_nan n || is_zero n)); cbn;
        eexists; (split; [reflexivity|apply log_only_add_log]).
    + destruct (string_nonempty s); cbn; eexists;
        (split; [reflexivity|first [apply log_only_refl|apply log_only_add_log]]).
Qed.

Lemma json_image_chat_result (p : ModelProvider) (data : value) :
  json_image (chat_result p data) = Some (chat_result p data).
Proof.
  unfold chat_result, chat_failure_response, chat_response.
  destruct (content_of p data) as [[| |b|n|s|l|l]|e]; try reflexivity.
  destruct (string_nonempty s); reflexivity.
Qed.

Lemma chat_result_truthy (p : ModelProvider) (data : value) :
  truthy (chat_result p data) = true.
Proof.
  unfold chat_result, chat_failure_response, chat_response.
  destruct (content_of p data) as [[| |b|n|s|l|l]|e]; try reflexivity.
  destruct (string_nonempty s); reflexivity.
Qed.

Lemma chat_cached (p : ModelProvider) (request : ChatRequest)
    (c : RedisClient) (j : value) (exp : Z) (w : World) :
  remote p -> serving c w ->
  store c !! chat_key p request = Some (JsonText j, exp) ->
  (now w < exp)%Z -> truthy j = true ->
  chat p request w = (Normal j, add_log (debug_entry (hit_msg p "chat")) w).
Proof.
  intros R S E T Tj. rewrite (chat_remote p request R).
  apply remote_call_hit; [|exact Tj].
  now apply cache_get_live with (c := c) (exp := exp).
Qed.

End ChatFacts.

(** X14. What a chat returns, and for how long. When Redis is served, the
    lookup of the chat's key misses and the provider's reply arrives,
    [chat] of a remote provider returns the content of the reply trimmed,
    with confidence 0.8, if that content is a string that is not empty,
    and its apology with confidence 0.1 for every other reply (no
    candidate, an empty text, a content that is no string); it throws for
    none. Either answer is stored for 1800 seconds, the apology too, and is
    what the same chat returns until then, without a post. *)
Theorem chat_answer_is_cached `{Host} (p : ModelProvider) (request : ChatRequest)
    (c : RedisClient) (data : value) (w : World) :
  remote p -> serving c w -> misses (chat_key p request) w -> next_resolves data w ->
  exists w1,
    chat p request w = (Normal (chat_result p data), w1) /\
    posts w1 = url_of p :: posts w /\
    redisClient w1
    = Some (stored_in c (chat_key p request) (chat_result p data) (now w + 1800)%Z) /\
    (forall s, content_of p data = Normal (VStr s) -> string_nonempty s = true ->
       field (chat_result p data) "answer" = VStr (String_trim s) /\
       field (chat_result p data) "confidence" = num (8#10)) /\
    ((forall s, content_of p data = Normal (VStr s) -> string_nonempty s = false) ->
       chat_result p data = chat_failure_response p /\
       field (chat_result p data) "confidence" = num (1#10)) /\
    forall w2,
      redisClient w2 = redisClient w1 -> (now w2 < now w + 1800)%Z ->
      chat p request w2
      = (Normal (chat_result p data), add_log (debug_entry (hit_msg p "chat")) w2).
Proof.
  intros R S M N.
  destruct (misses_world _ _ M) as (v & wa & Eg & Tv & La).
  pose proof (axios_post_resolved (url_of p) data wa (next_resolves_log_only _ _ _ La N)) as Ep.
  destruct (parseChatResponse_result p data (posted (url_of p) wa) R) as (wb & Er & Lb).
  assert (Sb : serving c wb).
  { apply (log_only_serving c (posted (url_of p) wa)); [exact Lb|].
    destruct S as (C & O & L). destruct La as (Ca & _). repeat split; auto.
    cbn. congruence. }
  pose proof (cache_set_serving (chat_key p request) (chat_result p data) (chat_result p data)
                1800 c wb Sb (json_image_chat_result p data) ltac:(lia)) as Es.
  assert (Nb : now wb = now w).
  { destruct Lb as (_ & Nb & _). destruct La as (_ & Na & _). rewrite Nb. cbn. exact Na. }
  assert (Pb : posts wb = url_of p :: posts w).
  { destruct Lb as (_ & _ & _ & Pb & _). destruct La as (_ & _ & _ & Pa & _).
    rewrite Pb. cbn. now rewrite Pa. }
  eexists. split.
  - rewrite (chat_remote p request R).
    unfold remote_call, bind, try_catch. rewrite Eg, Tv, Ep, Er, Es. reflexivity.
  - split; [exact Pb|]. split; [cbn; now rewrite Nb|].
    split; [|split].
    + intros s Ec Ne. unfold chat_result. rewrite Ec, Ne. split; reflexivity.
    + intros Hn. unfold chat_result.
      destruct (content_of p data) as [[| |b|n|s|l|l]|e] eqn:Ec; try (split; reflexivity).
      rewrite (Hn s eq_refl). split; reflexivity.
    + intros w2 E2 T2. cbn in E2.
      apply chat_cached
        with (c := stored_in c (chat_key p request) (chat_result p data) (now wb + 1800)%Z)
             (exp := (now wb + 1800)%Z); auto.
      * destruct S as (_ & O & L). repeat split; auto.
      * cbn. apply lookup_insert_eq.
      * lia.
      * apply chat_result_truthy.
Qed.

Lemma chat_answer_is_cached_witness :
  exists w1,
    @chat sample_host sample_gemini sample_chat
      (world_up [Response 200 (gemini_reply (VStr EmptyString))])
    = (Normal (chat_failure_response sample_gemini), w1) /\
    @chat sample_host sample_gemini sample_chat (elapse 1799 w1)
    = (Normal (chat_failure_response sample_gemini),
       add_log (debug_entry "Using cached Gemini chat result") (elapse 1799 w1)).
Proof.
  destruct (@chat_answer_is_cached sample_host sample_gemini sample_chat empty_redis
              (gemini_reply (VStr EmptyString))
              (world_up [Response 200 (gemini_reply (VStr EmptyString))]))
    as (w1 & E & _ & C1 & _ & _ & Again).
  - unfold remote. cbn. congruence.
  - repeat split.
  - eexists VNull, _. split; reflexivity.
  - exists 200%Z, []. split; reflexivity.
  - exists w1. split; [exact E|].
    apply (Again (elapse 1799 w1)); [reflexivity|].
    assert (Nw : now w1 = 1000%Z).
    { apply (f_equal snd) in E. cbn in E. rewrite <- E. reflexivity. }
    cbn. lia.
Defined.

(** ** What a configuration that loads has been checked for *)

Section ValidationFacts.
Context `{Host}.

Lemma known_provider_spec (s : string) :
  known_provider s = true <-> s = "gemini" \/ s = "openai" \/ s = "local".
Proof.
  unfold known_provider. rewrite !orb_true_iff, !String.eqb_eq. tauto.
Qed.

Lemma string_nonempty_false (s : string) : string_nonempty s = false <-> s = EmptyString.
Proof. destruct s; cbn; split; congruence. Qed.

(** The provider [validateConfig] lets through. *)
Lemma provider_accepted (env : Env) :
  match env !! "MODEL_PROVIDER" with
  | Some s => string_nonempty s && negb (known_provider s)
  | None => false
  end = false
  <-> (forall s, env !! "MODEL_PROVIDER" = Some s ->
         s = EmptyString \/ s = "gemini" \/ s = "openai" \/ s = "local").
Proof.
  destruct (env !! "MODEL_PROVIDER") as [s|]; [|split; [intros _ s; discriminate|auto]].
  split.
  - intros E s' [= <-]. apply andb_false_iff in E as [E|E].
    + left. now apply string_nonempty_false.
    + right. apply known_provider_spec. now apply negb_false_iff.
  - intros Hs. destruct (Hs s eq_refl) as [-> | K]; [reflexivity|].
    apply known_provider_spec in K. rewrite K. apply andb_false_r.
Qed.

(** An environment that [validateConfig] accepts has passed its last two
    checks. *)
Lemma validateConfig_accepted (env : Env) :
  validateConfig env = Normal tt ->
  (forall s, env !! "MODEL_PROVIDER" = Some s ->
     s = EmptyString \/ s = "gemini" \/ s = "openai" \/ s = "local") /\
  ge (parseFloat (env_or env "LOW_THRESHOLD" "0.3"))
     (parseFloat (env_or env "HIGH_THRESHOLD" "0.7")) = false /\
  ge (parseFloat (env_or env "HIGH_THRESHOLD" "0.7"))
     (parseFloat (env_or env "REPORT_THRESHOLD" "0.8")) = false.
Proof.
  unfold validateConfig, thresholds_refused.
  destruct (0 <? length _)%nat; [discriminate|].
  destruct (match env !! "MODEL_PROVIDER" with
            | Some s => string_nonempty s && negb (known_provider s)
            | None => false
            end) eqn:B; [discriminate|].
  destruct (ge _ _ || ge _ _) eqn:T; [discriminate|].
  intros _. apply orb_false_iff in T as [T1 T2].
  split; [now apply provider_accepted|]. now split.
Qed.

End ValidationFacts.

(** X15. [validateConfig] accepts an environment exactly when
    [JWT_SECRET] and [DATABASE_URL] are set and not empty; the three
    Supabase variables are too, if the database URL contains
    [supabase.co]; [MODEL_PROVIDER] is unset, empty or one of the three
    provider names; and neither comparison of the thresholds
    ([low >= high], [high >= report]), read with their defaults 0.3, 0.7
    and 0.8, holds. *)
Theorem validateConfig_accepts_iff `{Host} (env : Env) :
  validateConfig env = Normal tt <->
  env_set env "JWT_SECRET" = true /\
  env_set env "DATABASE_URL" = true /\
  (from_option (includes "supabase.co") false (env !! "DATABASE_URL") = true ->
   env_set env "SUPABASE_URL" = true /\
   env_set env "SUPABASE_ANON_KEY" = true /\
   env_set env "SUPABASE_SERVICE_KEY" = true) /\
  (forall s, env !! "MODEL_PROVIDER" = Some s ->
     s = EmptyString \/ s = "gemini" \/ s = "openai" \/ s = "local") /\
  ge (parseFloat (env_or env "LOW_THRESHOLD" "0.3"))
     (parseFloat (env_or env "HIGH_THRESHOLD" "0.7")) = false /\
  ge (parseFloat (env_or env "HIGH_THRESHOLD" "0.7"))
     (parseFloat (env_or env "REPORT_THRESHOLD" "0.8")) = false.
Proof.
  unfold validateConfig, thresholds_refused.
  pose proof (provider_accepted env) as P.
  destruct (from_option (includes "supabase.co") false (env !! "DATABASE_URL"));
    cbn [app List.filter];
    destruct (env_set env "JWT_SECRET"), (env_set env "DATABASE_URL");
    cbn [negb length Nat.ltb Nat.leb];
    try (split; [discriminate|intros (A & B & _); discriminate]).
  - destruct (env_set env "SUPABASE_URL"), (env_set env "SUPABASE_ANON_KEY"),
      (env_set env "SUPABASE_SERVICE_KEY");
      cbn [negb length Nat.ltb Nat.leb];
      try (split; [discriminate|intros (_ & _ & S & _); destruct (S eq_refl) as (? & ? & ?);
                                discriminate]).
    destruct (match env !! "MODEL_PROVIDER" with
              | Some s => string_nonempty s && negb (known_provider s)
              | None => false
              end) eqn:B.
    + split; [discriminate|]. intros (_ & _ & _ & K & _). apply P in K. discriminate.
    + destruct (ge _ _ || ge _ _) eqn:T.
      * split; [discriminate|]. intros (_ & _ & _ & _ & T1 & T2).
        rewrite T1, T2 in T. discriminate.
      * apply orb_false_iff in T as [T1 T2].
        split; [|reflexivity]. intros _. repeat split; auto. now apply P.
  - destruct (match env !! "MODEL_PROVIDER" with
              | Some s => string_nonempty s && negb (known_provider s)
              | None => false
              end) eqn:B.
    + split; [discriminate|]. intros (_ & _ & _ & K & _). apply P in K. discriminate.
    + destruct (ge _ _ || ge _ _) eqn:T.
      * split; [discriminate|]. intros (_ & _ & _ & _ & T1 & T2).
        rewrite T1, T2 in T. discriminate.
      * apply orb_false_iff in T as [T1 T2].
        split; [|reflexivity]. intros _. repeat split; auto; try discriminate. now apply P.
Qed.

(** X16. The configuration that loads. Its provider is the one
    [MODEL_PROVIDER] names, gemini when the variable is unset or empty:
    the cast of the variable to the three names is sound, and
    [getModelConfig] never meets another. The key [getModelConfig] hands
    to the bridge is the key of that provider, none for the local one; and
    three thresholds that are numbers are in strict order. *)
Theorem loaded_configuration `{Host} (env : Env) (config : Config) :
  loadConfig env = Some config ->
  provider_name (modelProvider config) = env_or env "MODEL_PROVIDER" "gemini" /\
  mc_provider (getModelConfig config) = modelProvider config /\
  mc_apiKey (getModelConfig config)
  = match modelProvider config with
    | gemini => env !! "GEMINI_API_KEY"
    | openai => env !! "OPENAI_API_KEY"
    | local => None
    end /\
  ConfigTs.modelName config = env_or env "MODEL_NAME" "gemini-free" /\
  (forall low high report,
     getThresholds config = (Fin low, Fin high, Fin report) ->
     (low < high /\ high < report)%Q).
Proof.
  unfold loadConfig.
  destruct (validateConfig env) as [[]|e] eqn:V; [|discriminate].
  intros [= <-].
  apply validateConfig_accepted in V as (K & T1 & T2).
  split; [|split; [|split; [|split]]].
  - cbn. unfold read_provider, env_or in *.
    destruct (env !! "MODEL_PROVIDER") as [s|]; [|reflexivity].
    destruct (K s eq_refl) as [-> | [-> | [-> | ->]]]; reflexivity.
  - cbn. destruct (read_provider env); reflexivity.
  - cbn. destruct (read_provider env); reflexivity.
  - reflexivity.
  - cbn. intros low high report [= E1 E2 E3].
    apply thresholds_refused_numbers. unfold thresholds_refused.
    rewrite <- E1, <- E2, <- E3, T1, T2. reflexivity.
Qed.

Lemma loaded_configuration_witness :
  exists config,
    @loadConfig sample_host
      (<["JWT_SECRET" := "secret"]>
         (<["DATABASE_URL" := "postgres://localhost/smartshield"]>
            (<["MODEL_PROVIDER" := "openai"]> (<["GEMINI_API_KEY" := "g-1"]> ∅))))
    = Some config /\
    modelProvider config = openai /\
    mc_apiKey (getModelConfig config) = None.
Proof.
  set (env := <["JWT_SECRET" := "secret"]>
                (<["DATABASE_URL" := "postgres://localhost/smartshield"]>
                   (<["MODEL_PROVIDER" := "openai"]> (<["GEMINI_API_KEY" := "g-1"]> ∅)))).
  destruct (@loadConfig sample_host env) as [config|] eqn:E; [|vm_compute in E; discriminate].
  exists config. split; [reflexivity|].
  destruct (@loaded_configuration sample_host env config E) as (P & _ & K & _).
  assert (O : modelProvider config = openai).
  { assert (X : env_or env "MODEL_PROVIDER" "gemini" = "openai") by reflexivity.
    rewrite X in P. destruct (modelProvider config); [discriminate|reflexivity|discriminate]. }
  split; [exact O|]. rewrite K, O. reflexivity.
Defined.

(** ** Rate limiting *)

Section SortedSets.

Lemma current_alive (t : Z) (k : option SortedSet) : alive t k -> current t k = k.
Proof.
  destruct k as [z|]; [|reflexivity]. cbn.
  destruct (deadline z) as [d|]; [|reflexivity].
  intros D. destruct (Z.ltb_spec t d); [reflexivity|lia].
Qed.

Lemma alive_current (t : Z) (k : option SortedSet) : alive t (current t k).
Proof.
  destruct k as [z|]; [|exact I]. cbn.
  destruct (deadline z) as [d|] eqn:D; [|cbn; now rewrite D].
  destruct (Z.ltb_spec t d); [|exact I]. cbn. now rewrite D.
Qed.

Lemma alive_zremrangebyscore (t max : Z) (k : option SortedSet) :
  alive t k -> alive t (fst (zremrangebyscore max k)).
Proof.
  destruct k as [z|]; [|intros _; exact I]. unfold zremrangebyscore. cbn [fst].
  destruct (List.filter _ (members z)); intros D; [exact I|exact D].
Qed.

Lemma alive_zadd (t score : Z) (member : string) (k : option SortedSet) :
  alive t k -> alive t (fst (zadd score member k)).
Proof.
  destruct k as [z|]; [|intros _; exact I]. unfold zadd.
  destruct (existsb _ (members z)); intros D; exact D.
Qed.

Lemma run_lookup (t : Z) (cmd : Command) (m : gmap string SortedSet) :
  fst (run t cmd m) !! key_of cmd
  = fst (match cmd with
         | ZRemRangeByScore _ max => zremrangebyscore max (current t (m !! key_of cmd))
         | ZCard _ => (current t (m !! key_of cmd), zcard (current t (m !! key_of cmd)))
         | ZAdd _ score member => zadd score member (current t (m !! key_of cmd))
         | Expire _ seconds => expire t seconds (current t (m !! key_of cmd))
         end).
Proof.
  unfold run.
  destruct cmd; cbn [key_of]; split_reply; cbn;
    first [apply lookup_insert_eq | apply lookup_delete_eq].
Qed.

Lemma run_reply (t : Z) (cmd : Command) (m : gmap string SortedSet) :
  snd (run t cmd m)
  = snd (match cmd with
         | ZRemRangeByScore _ max => zremrangebyscore max (current t (m !! key_of cmd))
         | ZCard _ => (current t (m !! key_of cmd), zcard (current t (m !! key_of cmd)))
         | ZAdd _ score member => zadd score member (current t (m !! key_of cmd))
         | Expire _ seconds => expire t seconds (current t (m !! key_of cmd))
         end).
Proof.
  unfold run.
  destruct cmd; cbn [key_of]; split_reply; reflexivity.
Qed.

Lemma run_elsewhere (t : Z) (cmd : Command) (m : gmap string SortedSet) (key : string) :
  key <> key_of cmd -> fst (run t cmd m) !! key = m !! key.
Proof.
  intros D. unfold run.
  destruct cmd; cbn [key_of] in *; split_reply; cbn;
    first [now apply lookup_insert_ne | now apply lookup_delete_ne].
Qed.

(** The four commands of [checkLimit], on one key. *)
Lemma pipeline_spec (t max score seconds : Z) (member key : string)
    (m : gmap string SortedSet) :
  let k0 := current t (m !! key) in
  let k1 := fst (zremrangebyscore max k0) in
  let k2 := fst (zadd score member k1) in
  let k3 := fst (expire t seconds k2) in
  exists m' removed added expired,
    run_all t [ZRemRangeByScore key max; ZCard key; ZAdd key score member;
               Expire key seconds] m
    = (m', [removed; zcard k1; added; expired]) /\
    m' !! key = k3 /\
    forall key', key' <> key -> m' !! key' = m !! key'.
Proof.
  intros k0 k1 k2 k3.
  cbn [run_all].
  destruct (run t (ZRemRangeByScore key max) m) as [m1 r1] eqn:E1.
  destruct (run t (ZCard key) m1) as [m2 r2] eqn:E2.
  destruct (run t (ZAdd key score member) m2) as [m3 r3] eqn:E3.
  destruct (run t (Expire key seconds) m3) as [m4 r4] eqn:E4.
  pose proof (run_lookup t (ZRemRangeByScore key max) m) as L1.
  rewrite E1 in L1. cbn [fst key_of] in L1. fold k0 in L1. fold k1 in L1.
  assert (A1 : alive t k1) by (apply alive_zremrangebyscore, alive_current).
  pose proof (run_lookup t (ZCard key) m1) as L2.
  rewrite E2 in L2. cbn [fst key_of] in L2. rewrite L1, (current_alive t k1 A1) in L2.
  pose proof (run_reply t (ZCard key) m1) as R2.
  rewrite E2 in R2. cbn [snd key_of] in R2. rewrite L1, (current_alive t k1 A1) in R2.
  pose proof (run_lookup t (ZAdd key score member) m2) as L3.
  rewrite E3 in L3. cbn [fst key_of] in L3. rewrite L2, (current_alive t k1 A1) in L3.
  fold k2 in L3.
  assert (A2 : alive t k2) by now apply alive_zadd.
  pose proof (run_lookup t (Expire key seconds) m3) as L4.
  rewrite E4 in L4. cbn [fst key_of] in L4. rewrite L3, (current_alive t k2 A2) in L4.
  fold k3 in L4.
  exists m4, r1, r3, r4. subst r2. split; [reflexivity|]. split; [exact L4|].
  intros key' D.
  pose proof (run_elsewhere t (Expire key seconds) m3 key' D) as X4. rewrite E4 in X4.
  pose proof (run_elsewhere t (ZAdd key score member) m2 key' D) as X3. rewrite E3 in X3.
  pose proof (run_elsewhere t (ZCard key) m1 key' D) as X2. rewrite E2 in X2.
  pose proof (run_elsewhere t (ZRemRangeByScore key max) m key' D) as X1. rewrite E1 in X1.
  cbn [fst] in *. congruence.
Qed.

End SortedSets.

Section LimiterFacts.

(** [checkLimit] on a client that is served. *)
Lemma checkLimit_served (identifier : string) (limit windowSeconds : Z)
    (c : RedisClient) (s : Limits) :
  serving c (outer s) ->
  exists s1,
    checkLimit identifier limit windowSeconds s
    = (Normal {| allowed := (in_window identifier windowSeconds s <? limit)%Z;
                 remaining := Z.max 0 (limit - in_window identifier windowSeconds s);
                 resetTime := (millis s + windowSeconds * 1000)%Z |}, s1) /\
    outer s1 = outer s /\ millis s1 = millis s /\
    random s1 = random s /\ drawn s1 = S (drawn s) /\
    sorted s1 !! limit_key identifier
    = fst (expire (millis s) windowSeconds
             (fst (zadd (millis s) (member_name (millis s) (random s (drawn s)))
                     (fst (zremrangebyscore (millis s - windowSeconds * 1000)
                             (current (millis s) (sorted s !! limit_key identifier))))))) /\
    forall key', key' <> limit_key identifier -> sorted s1 !! key' = sorted s !! key'.
Proof.
  intros (C & O & Ln).
  destruct (pipeline_spec (millis s) (millis s - windowSeconds * 1000) (millis s)
              windowSeconds (member_name (millis s) (random s (drawn s)))
              (limit_key identifier) (sorted s))
    as (m' & removed & added & expired & E & Lk & Lo).
  eexists. split.
  - unfold checkLimit, try_catchL, bindL, in_world, getRedisClient, Date_now, Math_random,
      exec, retL.
    rewrite C, O. cbn [outer millis sorted random drawn with_outer]. rewrite Ln.
    cbn [outer millis sorted random drawn].
    rewrite E. cbn [length Nat.ltb Nat.leb nth]. reflexivity.
  - cbn. repeat split; auto.
Qed.

(** [getLimitInfo] on a client that is served. *)
Lemma getLimitInfo_served (identifier : string) (windowSeconds : Z)
    (c : RedisClient) (s : Limits) :
  serving c (outer s) ->
  exists s1,
    getLimitInfo identifier windowSeconds s
    = (Normal {| count := in_window identifier windowSeconds s;
                 info_resetTime := (millis s + windowSeconds * 1000)%Z |}, s1) /\
    outer s1 = outer s /\ millis s1 = millis s /\ drawn s1 = drawn s /\
    sorted s1 !! limit_key identifier
    = fst (zremrangebyscore (millis s - windowSeconds * 1000)
             (current (millis s) (sorted s !! limit_key identifier))).
Proof.
  intros (C & O & Ln).
  set (key := limit_key identifier).
  set (k1 := fst (zremrangebyscore (millis s - windowSeconds * 1000)
                    (current (millis s) (sorted s !! key)))).
  assert (A1 : alive (millis s) k1) by (apply alive_zremrangebyscore, alive_current).
  pose proof (run_lookup (millis s) (ZRemRangeByScore key (millis s - windowSeconds * 1000))
                (sorted s)) as L1.
  cbn [key_of] in L1. fold k1 in L1.
  destruct (run (millis s) (ZRemRangeByScore key (millis s - windowSeconds * 1000)) (sorted s))
    as [m1 r1] eqn:E1.
  cbn [fst] in L1.
  pose proof (run_lookup (millis s) (ZCard key) m1) as L2.
  pose proof (run_reply (millis s) (ZCard key) m1) as R2.
  cbn [key_of fst snd] in L2, R2. rewrite L1, (current_alive _ _ A1) in L2, R2.
  destruct (run (millis s) (ZCard key) m1) as [m2 r2] eqn:E2.
  cbn [fst snd] in L2, R2. subst r2.
  eexists. split.
  - unfold getLimitInfo, try_catchL, bindL, in_world, getRedisClient, Date_now, send, retL.
    rewrite C, O. cbn [outer millis sorted random drawn with_outer]. rewrite Ln.
    fold key. rewrite E1. cbn [outer millis sorted random drawn with_outer with_sorted].
    rewrite E2. reflexivity.
  - cbn. repeat split; auto.
Qed.

Lemma unavailable_limiter (w : World) :
  unavailable w ->
  getRedisClient w = (Throw not_connected, w) \/
  exists c, getRedisClient w = (Normal c, w) /\ online c = false.
Proof.
  unfold unavailable, getRedisClient.
  destruct (redisClient w) as [c|]; [|now left].
  destruct (isOpen c) eqn:O; [|now left].
  intros [X|X]; [discriminate|].
  right. exists c. split; [reflexivity|exact X].
Qed.

End LimiterFacts.

(** X17. The rate limiter fails open. When no command can be sent to
    Redis (no client, a closed client, a server that does not answer),
    [checkLimit] allows the request and reports the whole [limit] as
    remaining, whatever was recorded before, and [getLimitInfo] reports a
    count of 0; each logs one error, and the sorted sets are as they
    were. *)
Theorem rate_limit_fails_open (identifier : string) (limit windowSeconds : Z)
    (s : Limits) :
  unavailable (outer s) ->
  (exists e s1,
     checkLimit identifier limit windowSeconds s
     = (Normal {| allowed := true; remaining := limit;
                  resetTime := (millis s + windowSeconds * 1000)%Z |}, s1) /\
     sorted s1 = sorted s /\
     log (outer s1) = error_entry "Rate limit check error:" e :: log (outer s)) /\
  (exists e s1,
     getLimitInfo identifier windowSeconds s
     = (Normal {| count := 0; info_resetTime := (millis s + windowSeconds * 1000)%Z |}, s1) /\
     sorted s1 = sorted s /\
     log (outer s1) = error_entry "Rate limit info error:" e :: log (outer s)).
Proof.
  intros U.
  destruct (unavailable_limiter (outer s) U) as [G|(c & G & Off)].
  - split.
    + exists not_connected. eexists. split.
      * unfold checkLimit, try_catchL, bindL, in_world. rewrite G. reflexivity.
      * split; reflexivity.
    + exists not_connected. eexists. split.
      * unfold getLimitInfo, try_catchL, bindL, in_world. rewrite G. reflexivity.
      * split; reflexivity.
  - split.
    + exists (Err "The client is closed"). eexists. split.
      * unfold checkLimit, try_catchL, bindL, in_world, exec. rewrite G. cbn.
        rewrite Off. reflexivity.
      * split; reflexivity.
    + exists (Err "The client is closed"). eexists. split.
      * unfold getLimitInfo, try_catchL, bindL, in_world, send. rewrite G. cbn.
        rewrite Off. reflexivity.
      * split; reflexivity.
Qed.

Lemma rate_limit_fails_open_witness :
  exists e s1,
    checkLimit "203.0.113.7" 100 900 (sample_limits (world_down []))
    = (Normal {| allowed := true; remaining := 100; resetTime := 1700000900000 |}, s1) /\
    sorted s1 = ∅ /\
    log (outer s1) = [error_entry "Rate limit check error:" e].
Proof.
  apply (proj1 (rate_limit_fails_open "203.0.113.7" 100 900 (sample_limits (world_down []))
                  (or_introl eq_refl))).
Defined.

Section Windows.
Variables (identifier : string) (limit windowSeconds : Z) (c : RedisClient).
Hypothesis positive : (0 < windowSeconds)%Z.

Lemma zcard_members (k : option SortedSet) : zcard k = Z.of_nat (length (members_of k)).
Proof. destruct k; reflexivity. Qed.

Lemma filter_all {A} (f : A -> bool) (l : list A) :
  Forall (fun x => f x = true) l -> List.filter f l = l.
Proof.
  induction 1 as [|x l Hx _ IH]; [reflexivity|]. cbn. now rewrite Hx, IH.
Qed.

(** Removing what is out of the window from a set that is all inside. *)
Lemma zremrangebyscore_inside (max : Z) (k : option SortedSet) :
  Forall (fun m => (max < snd m)%Z) (members_of k) ->
  members_of (fst (zremrangebyscore max k)) = members_of k /\
  forall z, fst (zremrangebyscore max k) = Some z ->
            exists z0, k = Some z0 /\ deadline z = deadline z0.
Proof.
  destruct k as [z0|]; cbn; [|split; [reflexivity|discriminate]].
  intros F. rewrite filter_all.
  - destruct (members z0) eqn:E; cbn; split; auto; try discriminate.
    intros z [= <-]. eauto.
  - eapply Forall_impl; [exact F|]. intros m Hm. cbn in Hm. now apply Z.ltb_lt.
Qed.

Lemma existsb_names (member : string) (l : list (string * Z)) :
  member ∉ l.*1 -> existsb (fun m => String.eqb (fst m) member) l = false.
Proof.
  induction l as [|[n sc] l IH]; [reflexivity|]. cbn.
  intros N. rewrite not_elem_of_cons in N. destruct N as [D N].
  rewrite (IH N), orb_false_r. apply String.eqb_neq. congruence.
Qed.

Lemma zadd_fresh (score : Z) (member : string) (k : option SortedSet) :
  member ∉ (members_of k).*1 ->
  members_of (fst (zadd score member k)) = (members_of k ++ [(member, score)])%list.
Proof.
  destruct k as [z|]; cbn; [|reflexivity].
  intros N. now rewrite (existsb_names member (members z) N).
Qed.

Lemma zadd_some (score : Z) (member : string) (k : option SortedSet) :
  exists z, fst (zadd score member k) = Some z.
Proof.
  destruct k as [z|]; cbn; [|eauto]. destruct (existsb _ (members z)); cbn; eauto.
Qed.

Lemma zadd_member (score : Z) (member : string) (k : option SortedSet) :
  In (member, score) (members_of (fst (zadd score member k))).
Proof.
  destruct k as [z|]; cbn; [|now left].
  destruct (existsb _ (members z)) eqn:E; cbn.
  - apply existsb_exists in E as ([n sc] & Hin & Hn). cbn in Hn.
    apply in_map_iff. exists (n, sc). cbn. rewrite Hn. auto.
  - apply in_or_app. right. now left.
Qed.

Lemma expire_positive (t : Z) (k : option SortedSet) (z : SortedSet) :
  k = Some z ->
  fst (expire t windowSeconds k)
  = Some {| members := members z; deadline := Some (t + windowSeconds * 1000)%Z |}.
Proof.
  intros ->. cbn. destruct (Z.ltb_spec 0 windowSeconds); [reflexivity|lia].
Qed.

(** One request, on a key whose members are all inside the window and do
    not bear the name of the new one. *)
Lemma checkLimit_inside (s : Limits) :
  serving c (outer s) ->
  alive (millis s) (sorted s !! limit_key identifier) ->
  Forall (fun m => (millis s - windowSeconds * 1000 < snd m)%Z)
    (members_of (sorted s !! limit_key identifier)) ->
  member_name (millis s) (random s (drawn s))
    ∉ (members_of (sorted s !! limit_key identifier)).*1 ->
  exists s1,
    checkLimit identifier limit windowSeconds s
    = (Normal
         {| allowed := (Z.of_nat (length (members_of (sorted s !! limit_key identifier)))
                        <? limit)%Z;
            remaining := Z.max 0 (limit - Z.of_nat (length (members_of
                                                 (sorted s !! limit_key identifier))));
            resetTime := (millis s + windowSeconds * 1000)%Z |}, s1) /\
    outer s1 = outer s /\ random s1 = random s /\ drawn s1 = S (drawn s) /\
    sorted s1 !! limit_key identifier
    = Some {| members := (members_of (sorted s !! limit_key identifier)
                          ++ [(member_name (millis s) (random s (drawn s)), millis s)])%list;
              deadline := Some (millis s + windowSeconds * 1000)%Z |}.
Proof.
  intros S A F N.
  destruct (checkLimit_served identifier limit windowSeconds c s S)
    as (s1 & E & O & _ & R & D & K & _).
  set (k := sorted s !! limit_key identifier) in *.
  assert (W : in_window identifier windowSeconds s = Z.of_nat (length (members_of k))).
  { unfold in_window. fold k. rewrite (current_alive _ _ A), zcard_members.
    now rewrite (proj1 (zremrangebyscore_inside _ k F)). }
  exists s1. rewrite W in E. split; [exact E|]. repeat split; auto.
  rewrite K, (current_alive _ _ A).
  set (k1 := fst (zremrangebyscore (millis s - windowSeconds * 1000) k)).
  assert (M1 : members_of k1 = members_of k) by apply (zremrangebyscore_inside _ k F).
  destruct (zadd_some (millis s) (member_name (millis s) (random s (drawn s))) k1)
    as (z2 & E2).
  rewrite (expire_positive _ _ z2 E2).
  assert (M2 : members z2
               = (members_of k ++ [(member_name (millis s) (random s (drawn s)), millis s)])%list).
  { change (members z2) with (members_of (Some z2)). rewrite <- E2.
    rewrite zadd_fresh; [now rewrite M1|]. now rewrite M1. }
  now rewrite M2.
Qed.

Lemma names_at_cons (t : Z) (rest : list Z) (s s1 : Limits) :
  random s1 = random s -> drawn s1 = S (drawn s) ->
  names_at (t :: rest) s = member_name t (random s (drawn s)) :: names_at rest s1.
Proof.
  intros R D. unfold names_at. cbn [imap]. rewrite Nat.add_0_r. f_equal.
  apply imap_ext. intros i t' _. cbn. rewrite R, D. do 2 f_equal. lia.
Qed.

(** Requests inside one window, on a key whose members stay inside it. *)
Lemma checked_at_inside (b : Z) (times : list Z) :
  forall s,
    serving c (outer s) ->
    Forall (fun t => (b <= t < b + windowSeconds * 1000)%Z) times ->
    Forall (fun t => alive t (sorted s !! limit_key identifier) /\
                     Forall (fun m => (t - windowSeconds * 1000 < snd m)%Z)
                       (members_of (sorted s !! limit_key identifier))) times ->
    NoDup (names_at times s) ->
    Forall (fun n => n ∉ (members_of (sorted s !! limit_key identifier)).*1)
      (names_at times s) ->
    fst (checked_at identifier limit windowSeconds times s)
    = imap (fun i t =>
              let n := Z.of_nat (length (members_of (sorted s !! limit_key identifier)) + i) in
              Normal {| allowed := (n <? limit)%Z;
                        remaining := Z.max 0 (limit - n);
                        resetTime := (t + windowSeconds * 1000)%Z |}) times.
Proof.
  induction times as [|t rest IH]; intros s Sv B In Nd Fr; [reflexivity|].
  apply Forall_cons in B as [Bt B]. apply Forall_cons in In as [[At Ft] In].
  set (name := member_name t (random s (drawn s))).
  set (M := members_of (sorted s !! limit_key identifier)) in *.
  assert (Names : forall s1, random s1 = random s -> drawn s1 = S (drawn s) ->
                    names_at (t :: rest) s = name :: names_at rest s1).
  { intros s1 R D. now apply names_at_cons. }
  assert (Fresh : name ∉ M.*1).
  { rewrite (Names {| outer := outer s; millis := millis s; sorted := sorted s;
                      random := random s; drawn := S (drawn s) |} eq_refl eq_refl) in Fr.
    now apply Forall_cons in Fr as [Fr _]. }
  destruct (checkLimit_inside (at_time t s) Sv At Ft Fresh) as (s1 & E & O & R & D & K).
  cbn [outer random drawn millis sorted at_time] in E, O, R, D, K.
  fold M in E, K. fold name in K.
  rewrite (Names s1 R D) in Nd, Fr.
  apply NoDup_cons in Nd as [Nn Nd]. apply Forall_cons in Fr as [_ Fr].
  cbn [checked_at]. rewrite E.
  destruct (checked_at identifier limit windowSeconds rest s1) as [rs s2] eqn:Er.
  cbn [fst imap]. rewrite Nat.add_0_r. f_equal.
  assert (Rs : rs = fst (checked_at identifier limit windowSeconds rest s1)) by now rewrite Er.
  rewrite Rs, IH; clear Rs.
  - apply imap_ext. intros i t' _. cbn. rewrite K. cbn [members_of members].
    rewrite length_app. cbn [length].
    replace (length M + 1 + i)%nat with (length M + S i)%nat by lia. reflexivity.
  - unfold serving in *. rewrite O. exact Sv.
  - exact B.
  - rewrite K. cbn [members_of members alive deadline].
    rewrite Forall_forall in B, In. apply Forall_forall. intros t' Ht'.
    split; [specialize (B t' Ht'); lia|].
    apply Forall_app. split; [apply (In t' Ht')|].
    constructor; [|constructor]. cbn. specialize (B t' Ht'). lia.
  - exact Nd.
  - rewrite K. cbn [members_of members].
    rewrite Forall_forall in Fr. apply Forall_forall. intros n Hn.
    rewrite fmap_app. cbn. rewrite not_elem_of_app, not_elem_of_cons.
    split; [now apply Fr|]. split; [|apply not_elem_of_nil].
    intros ->. now apply Nn.
Qed.

End Windows.

(** X18. A burst within one window. On a client that is served, for a key
    that has recorded nothing and a window of [windowSeconds > 0],
    requests checked at times that lie within one window of each other
    (all in some [b, b + windowSeconds * 1000)) and are given distinct
    member names are answered in their order: the request of rank [i],
    from 0, is allowed exactly when [i < limit], and is told
    [max(0, limit - i)] remain, the requests before it counted and itself
    not. *)
Theorem rate_limit_allows_the_first (identifier : string) (limit windowSeconds : Z)
    (c : RedisClient) (b : Z) (times : list Z) (s : Limits) :
  serving c (outer s) -> (0 < windowSeconds)%Z ->
  sorted s !! limit_key identifier = None ->
  Forall (fun t => (b <= t < b + windowSeconds * 1000)%Z) times ->
  NoDup (names_at times s) ->
  fst (checked_at identifier limit windowSeconds times s)
  = imap (fun i t =>
            Normal {| allowed := (Z.of_nat i <? limit)%Z;
                      remaining := Z.max 0 (limit - Z.of_nat i);
                      resetTime := (t + windowSeconds * 1000)%Z |}) times.
Proof.
  intros S P E B Nd.
  rewrite (checked_at_inside identifier limit windowSeconds c P b times s S B).
  - rewrite E. reflexivity.
  - rewrite E. apply Forall_forall. intros t _. split; [exact I|constructor].
  - exact Nd.
  - rewrite E. apply Forall_forall. intros n _. apply not_elem_of_nil.
Qed.

Lemma rate_limit_allows_the_first_witness :
  fst (checked_at "203.0.113.7" 2 60 [1700000000000; 1700000000250; 1700000059999]
         (sample_limits (world_up [])))
  = [Normal {| allowed := true; remaining := 2; resetTime := 1700000060000 |};
     Normal {| allowed := true; remaining := 1; resetTime := 1700000060250 |};
     Normal {| allowed := false; remaining := 0; resetTime := 1700000119999 |}].
Proof.
  refine (rate_limit_allows_the_first "203.0.113.7" 2 60 empty_redis 1700000000000
            [1700000000000; 1700000000250; 1700000059999] (sample_limits (world_up []))
            _ _ _ _ _).
  - repeat split.
  - lia.
  - reflexivity.
  - repeat constructor; lia.
  - vm_compute. repeat constructor; rewrite ?elem_of_cons, ?elem_of_nil;
      intuition discriminate.
Defined.

Section Recorded.

Lemma zcard_zremrangebyscore (max : Z) (k : option SortedSet) :
  zcard (fst (zremrangebyscore max k))
  = Z.of_nat (length (List.filter (fun m => (max <? snd m)%Z) (members_of k))).
Proof.
  destruct k as [z|]; [|reflexivity]. cbn.
  destruct (List.filter _ (members z)); reflexivity.
Qed.

Lemma members_zremrangebyscore (max : Z) (k : option SortedSet) :
  members_of (fst (zremrangebyscore max k))
  = List.filter (fun m => (max <? snd m)%Z) (members_of k).
Proof.
  destruct k as [z|]; [|reflexivity]. cbn.
  destruct (List.filter _ (members z)); reflexivity.
Qed.

Lemma filter_twice {A} (f : A -> bool) (l : list A) :
  List.filter f (List.filter f l) = List.filter f l.
Proof.
  induction l as [|x l IH]; [reflexivity|]. cbn.
  destruct (f x) eqn:E; [|exact IH]. cbn. now rewrite E, IH.
Qed.

Lemma filter_holds {A} (f : A -> bool) (x : A) (l : list A) :
  In x l -> f x = true -> (1 <= Z.of_nat (length (List.filter f l)))%Z.
Proof.
  intros Hin Hf.
  assert (Hx : In x (List.filter f l)) by (apply filter_In; auto).
  destruct (List.filter f l); [destruct Hx|]. cbn [length]. lia.
Qed.

End Recorded.

(** X19. Every request is recorded, the refused ones too. On a client
    that is served and for a window of [windowSeconds > 0], [checkLimit]
    allows a request exactly when fewer than [limit] requests of the key
    lie in the window, and records it in either case: until the window
    has passed since, [getLimitInfo] counts one request at least, and a
    check against a limit of 1 is refused. [getLimitInfo] reports the
    count [checkLimit] decides on and records nothing: asked again, it
    reports the same. *)
Theorem rate_limit_counts_every_request (identifier : string) (limit windowSeconds : Z)
    (c : RedisClient) (s : Limits) :
  serving c (outer s) -> (0 < windowSeconds)%Z ->
  (exists r s1,
     checkLimit identifier limit windowSeconds s = (Normal r, s1) /\
     allowed r = (in_window identifier windowSeconds s <? limit)%Z /\
     forall t',
       (t' < millis s + windowSeconds * 1000)%Z ->
       (1 <= in_window identifier windowSeconds (at_time t' s1))%Z /\
       (exists s2,
          getLimitInfo identifier windowSeconds (at_time t' s1)
          = (Normal {| count := in_window identifier windowSeconds (at_time t' s1);
                       info_resetTime := (t' + windowSeconds * 1000)%Z |}, s2)) /\
       (forall limit',
          (limit' <= 1)%Z ->
          exists r' s2,
            checkLimit identifier limit' windowSeconds (at_time t' s1) = (Normal r', s2) /\
            allowed r' = false)) /\
  (exists s2,
     getLimitInfo identifier windowSeconds s
     = (Normal {| count := in_window identifier windowSeconds s;
                  info_resetTime := (millis s + windowSeconds * 1000)%Z |}, s2) /\
     in_window identifier windowSeconds s2 = in_window identifier windowSeconds s).
Proof.
  intros Sv P. split.
  - destruct (checkLimit_served identifier limit windowSeconds c s Sv)
      as (s1 & E & O & _ & _ & _ & K & _).
    eexists _, s1. split; [exact E|]. split; [reflexivity|].
    intros t' T.
    set (name := member_name (millis s) (random s (drawn s))) in *.
    set (k1 := fst (zremrangebyscore (millis s - windowSeconds * 1000)
                      (current (millis s) (sorted s !! limit_key identifier)))) in *.
    destruct (zadd_some (millis s) name k1) as (z2 & E2).
    rewrite (expire_positive windowSeconds P _ _ z2 E2) in K.
    assert (In2 : In (name, millis s) (members z2)).
    { change (members z2) with (members_of (Some z2)). rewrite <- E2. apply zadd_member. }
    assert (Sv1 : serving c (outer (at_time t' s1))).
    { cbn. unfold serving in *. now rewrite O. }
    assert (W : (1 <= in_window identifier windowSeconds (at_time t' s1))%Z).
    { unfold in_window. cbn [millis sorted at_time]. rewrite K.
      rewrite current_alive by (cbn; lia).
      rewrite zcard_zremrangebyscore. cbn [members_of members].
      apply (filter_holds _ (name, millis s)); [exact In2|]. cbn. apply Z.ltb_lt. lia. }
    split; [exact W|]. split.
    + destruct (getLimitInfo_served identifier windowSeconds c (at_time t' s1) Sv1)
        as (s2 & Eg & _).
      exists s2. exact Eg.
    + intros limit' Hl.
      destruct (checkLimit_served identifier limit' windowSeconds c (at_time t' s1) Sv1)
        as (s2 & Ec & _).
      eexists _, s2. split; [exact Ec|]. cbn. apply Z.ltb_ge. lia.
  - destruct (getLimitInfo_served identifier windowSeconds c s Sv)
      as (s2 & Eg & _ & Ms & _ & K).
    exists s2. split; [exact Eg|].
    unfold in_window. rewrite Ms, K.
    rewrite (current_alive (millis s) (fst (zremrangebyscore _ _)))
      by (apply alive_zremrangebyscore, alive_current).
    rewrite !zcard_zremrangebyscore, members_zremrangebyscore, filter_twice. reflexivity.
Qed.

Lemma rate_limit_counts_every_request_witness :
  exists r1 s1 r2 s2 r3 s3,
    checkLimit "203.0.113.7" 1 60 (sample_limits (world_up [])) = (Normal r1, s1) /\
    allowed r1 = true /\
    checkLimit "203.0.113.7" 1 60 (at_time 1700000050000 s1) = (Normal r2, s2) /\
    allowed r2 = false /\
    checkLimit "203.0.113.7" 1 60 (at_time 1700000100000 s2) = (Normal r3, s3) /\
    allowed r3 = false.
Proof.
  destruct (rate_limit_counts_every_request "203.0.113.7" 1 60 empty_redis
              (sample_limits (world_up [])))
    as ((r1 & s1 & E1 & A1 & Next1) & _).
  { repeat split. }
  { lia. }
  destruct (Next1 1700000050000%Z) as (_ & _ & Refused); [cbn; lia|].
  destruct (Refused 1%Z) as (r2 & s2 & E2 & A2); [lia|].
  destruct (rate_limit_counts_every_request "203.0.113.7" 1 60 empty_redis
              (at_time 1700000050000 s1))
    as ((r2' & s2' & E2' & _ & Next2) & _).
  { apply (f_equal snd) in E1. cbn in E1. subst s1. repeat split. }
  { lia. }
  assert (X : (r2', s2') = (r2, s2)) by congruence.
  injection X as -> ->.
  destruct (Next2 1700000100000%Z) as (_ & _ & Refused2); [cbn; lia|].
  destruct (Refused2 1%Z) as (r3 & s3 & E3 & A3); [lia|].
  exists r1, s1, r2, s2, r3, s3. repeat split; auto.
Defined.

(** ** What reaches the log *)

Section LogFacts.

Lemma sanitize_object_or_not (v : value) :
  (if is_object v then sanitizeLogData v else v) = sanitizeLogData v.
Proof. destruct v; reflexivity. Qed.

Lemma sanitize_array (items : list value) :
  sanitizeLogData (VArr items) = VArr (map sanitizeLogData items).
Proof.
  cbn [sanitizeLogData]. f_equal. apply map_ext. intros x. apply sanitize_object_or_not.
Qed.

Lemma sanitize_object (fields : list (string * value)) :
  sanitizeLogData (VObj fields)
  = VObj (map sanitized_entry (List.filter (fun kv => adds_property (fst kv)) fields)).
Proof.
  cbn [sanitizeLogData]. f_equal.
  induction fields as [|[k x] rest IH]; [reflexivity|].
  cbn [List.filter fst]. unfold adds_property at 1.
  destruct (String.eqb k "__proto__"); cbn [negb]; [exact IH|].
  cbn [map]. rewrite <- IH. unfold sanitized_entry. cbn [fst snd].
  now rewrite sanitize_object_or_not.
Qed.

Lemma redacted_object (fields : list (string * value)) :
  redacted (VObj fields) = forallb entry_redacted fields.
Proof.
  cbn [redacted].
  induction fields as [|[k x] rest IH]; [reflexivity|].
  cbn [forallb]. now rewrite <- IH.
Qed.

Lemma proto_free_object (fields : list (string * value)) :
  proto_free (VObj fields) = forallb entry_proto_free fields.
Proof.
  cbn [proto_free].
  induction fields as [|[k x] rest IH]; [reflexivity|].
  cbn [forallb]. now rewrite <- IH.
Qed.

Lemma redacted_mark (s : string) : String.eqb s "[REDACTED]" = true -> s = "[REDACTED]".
Proof. apply String.eqb_eq. Qed.

Lemma sanitize_sound (v : value) :
  redacted (sanitizeLogData v) = true /\
  proto_free (sanitizeLogData v) = true /\
  (redacted v = true -> proto_free v = true -> sanitizeLogData v = v).
Proof.
  induction v as [| | b | n | s | items IH | fields IH] using value_induction;
    try (repeat split; reflexivity).
  - rewrite sanitize_array. split; [|split].
    + cbn [redacted]. induction IH as [|x rest (Hx & _) _ IHrest]; [reflexivity|].
      cbn [map forallb]. now rewrite Hx, IHrest.
    + cbn [proto_free]. induction IH as [|x rest (_ & Hx & _) _ IHrest]; [reflexivity|].
      cbn [map forallb]. now rewrite Hx, IHrest.
    + cbn [redacted proto_free]. intros R P. f_equal.
      induction IH as [|x rest (_ & _ & Hx) _ IHrest]; [reflexivity|].
      cbn [forallb] in R, P.
      apply andb_true_iff in R as [Rx Rrest]. apply andb_true_iff in P as [Px Prest].
      cbn [map]. now rewrite (Hx Rx Px), (IHrest Rrest Prest).
  - rewrite sanitize_object, !redacted_object, !proto_free_object. split; [|split].
    + induction IH as [|[k x] rest (Hx & _) _ IHrest]; [reflexivity|].
      cbn [List.filter fst]. destruct (adds_property k); [|exact IHrest].
      cbn [map forallb]. rewrite IHrest, andb_true_r.
      unfold entry_redacted, sanitized_entry. cbn [fst snd] in *.
      destruct (is_sensitive k); [reflexivity|exact Hx].
    + induction IH as [|[k x] rest (_ & Hx & _) _ IHrest]; [reflexivity|].
      cbn [List.filter fst]. destruct (adds_property k) eqn:A; [|exact IHrest].
      cbn [map forallb]. rewrite IHrest, andb_true_r.
      unfold entry_proto_free, sanitized_entry. cbn [fst snd] in *. rewrite A.
      destruct (is_sensitive k); [reflexivity|exact Hx].
    + intros R P. f_equal.
      induction IH as [|[k x] rest (_ & _ & Hx) _ IHrest]; [reflexivity|].
      cbn [forallb] in R, P.
      apply andb_true_iff in R as [Rx Rrest]. apply andb_true_iff in P as [Px Prest].
      unfold entry_proto_free in Px. cbn [fst snd] in Px.
      apply andb_true_iff in Px as [A Px].
      cbn [List.filter fst]. rewrite A. cbn [map]. rewrite (IHrest Rrest Prest). f_equal.
      unfold entry_redacted, sanitized_entry in *. cbn [fst snd] in *.
      destruct (is_sensitive k).
      * destruct x; try discriminate. now rewrite (redacted_mark _ Rx).
      * now rewrite (Hx Rx Px).
Qed.

(** Lower case has no capital letter of ASCII. *)
Lemma lower_unit_not_capital (c : ascii) : is_capital (lower_unit c) = false.
Proof. destruct c as [[] [] [] [] [] [] [] []]; reflexivity. Qed.

Lemma toLowerCase_no_capital (a : ascii) (s : string) :
  is_capital a = true -> has_unit a (toLowerCase s) = false.
Proof.
  intros Ca. induction s as [|c s IH]; [reflexivity|].
  cbn [toLowerCase has_unit]. rewrite IH, orb_false_r.
  destruct (Ascii.eqb_spec a (lower_unit c)) as [->|]; [|reflexivity].
  now rewrite lower_unit_not_capital in Ca.
Qed.

Lemma startsWith_has_unit (a : ascii) (w s : string) :
  startsWith w s = true -> has_unit a w = true -> has_unit a s = true.
Proof.
  revert s. induction w as [|x w IH]; intros s; [discriminate 2|].
  destruct s as [|c s]; [discriminate|].
  cbn [startsWith has_unit]. intros [E P]%andb_true_iff [Ha|Ha]%orb_true_iff.
  - apply Ascii.eqb_eq in E as <-. now rewrite Ha.
  - rewrite (IH s P Ha). apply orb_true_r.
Qed.

Lemma includes_has_unit (a : ascii) (w s : string) :
  includes w s = true -> has_unit a w = true -> has_unit a s = true.
Proof.
  intros I Ha. induction s as [|c s IH].
  - cbn [includes] in I. rewrite orb_false_r in I. now apply (startsWith_has_unit a w).
  - cbn [includes] in I. apply orb_true_iff in I as [P|I].
    + now apply (startsWith_has_unit a w).
    + cbn [has_unit]. rewrite (IH I). apply orb_true_r.
Qed.

(** A word that holds a capital letter is in no lower-case key. *)
Lemma capital_word_never_included (a : ascii) (w key : string) :
  is_capital a = true -> has_unit a w = true -> includes w (toLowerCase key) = false.
Proof.
  intros Ca Hw. destruct (includes w (toLowerCase key)) eqn:I; [|reflexivity].
  pose proof (includes_has_unit a w _ I Hw) as X.
  now rewrite (toLowerCase_no_capital a key Ca) in X.
Qed.

End LogFacts.


(** An object a request body can hold: the password is redacted, the key
    [__proto__] is gone, the rest is kept. *)
Example sanitizeLogData_request_body :
  sanitizeLogData
    (VObj [("user", VStr "ana"); ("password", VStr "hunter2");
           ("__proto__", VObj [("admin", VBool true)]);
           ("tags", VArr [VObj [("authToken", VStr "abc")]; VStr "x"])])
  = VObj [("user", VStr "ana"); ("password", VStr "[REDACTED]");
          ("tags", VArr [VObj [("authToken", VStr "[REDACTED]")]; VStr "x"])].
Proof. reflexivity. Qed.

(** X21. The words of [sensitiveKeys] that can match. The key is put in
    lower case before the words are looked for in it, and three of the ten
    words hold a capital letter: ['apiKey'], ['creditCard'] and
    ['bankAccount'] are found in no key. A name is sensitive exactly when
    its lower case contains one of the other seven, and a property named
    [apiKey], [creditCard] or [bankAccount] is logged with its value. *)
Theorem capital_words_never_match (key : string) :
  includes "apiKey" (toLowerCase key) = false /\
  includes "creditCard" (toLowerCase key) = false /\
  includes "bankAccount" (toLowerCase key) = false /\
  is_sensitive key
  = existsb (fun sensitive => includes sensitive (toLowerCase key))
      ["password"; "token"; "secret"; "authorization"; "email"; "phone"; "ssn"] /\
  (forall s,
     sanitizeLogData (VObj [("apiKey", VStr s)]) = VObj [("apiKey", VStr s)] /\
     sanitizeLogData (VObj [("creditCard", VStr s)]) = VObj [("creditCard", VStr s)] /\
     sanitizeLogData (VObj [("bankAccount", VStr s)]) = VObj [("bankAccount", VStr s)] /\
     sanitizeLogData (VObj [("password", VStr s)]) = VObj [("password", VStr "[REDACTED]")]).
Proof.
  assert (A : includes "apiKey" (toLowerCase key) = false).
  { apply (capital_word_never_included "K"); reflexivity. }
  assert (C : includes "creditCard" (toLowerCase key) = false).
  { apply (capital_word_never_included "C"); reflexivity. }
  assert (B : includes "bankAccount" (toLowerCase key) = false).
  { apply (capital_word_never_included "A"); reflexivity. }
  split; [exact A|]. split; [exact C|]. split; [exact B|]. split.
  - unfold is_sensitive, sensitiveKeys. cbn [existsb]. rewrite A, C, B.
    cbn [orb]. rewrite !orb_false_r. reflexivity.
  - intros s. repeat split; reflexivity.
Qed.

(** ** Reconnecting *)

(** X22. The delay [reconnectStrategy] returns is a tenth of a second for
    each attempt made, a second at most: the cap of 3000 milliseconds is
    never reached, since the strategy gives up, with a line in the log,
    once more than ten attempts were made. It gives up in that case only,
    and writes nothing to the log before. *)
Theorem reconnect_delay_below_cap (retries : Z) (w : World) :
  (forall delay, fst (reconnectStrategy retries w) = Normal (Some delay) ->
     delay = retries * 100 /\ delay <= 1000 /\ snd (reconnectStrategy retries w) = w) /\
  (fst (reconnectStrategy retries w) = Normal None <-> 10 < retries) /\
  (10 < retries ->
   snd (reconnectStrategy retries w)
   = add_log {| level := LError; text := "Redis connection failed after 10 retries";
                detail := None |} w) /\
  (forall e, fst (reconnectStrategy retries w) <> Throw e).
Proof.
  unfold reconnectStrategy.
  destruct (Z.ltb_spec 10 retries) as [G|G]; cbn.
  - split; [discriminate|]. split; [tauto|]. split; [reflexivity|discriminate].
  - split; [intros delay [= <-]; split; [lia|split; [lia|reflexivity]]|].
    split; [split; [discriminate|lia]|]. split; [lia|discriminate].
Qed.
